(** * RSQL client driver: msgpack codec, session primitives, batch state machine

    A shallow embedding of the Go packages [msgp], [rsqlib] and [drv] and
    the properties checked against them.

    Conventions of the embedding
    - a Go [byte]/[uint8] on the wire is a [Byte.byte]; [u8] gives its value;
    - Go integers ([uint16] .. [uint64], [int8] .. [int64], [int]) are [Z],
      conversions between widths are written out ([uint8], [to_int8], ...);
      [int] is taken to be 64 bits wide;
    - a Go [string] is an immutable byte sequence and is modelled by [string]
      (a list of 8-bit characters); [[]byte] is [list byte];
    - a slice is modelled by its contents: capacity and the sharing of backing
      arrays are not represented;
    - a function that reads from the connection is a state transformer over
      the [Reader]; it yields a value, a Go [error], or a panic. *)

From Stdlib Require Import ZArith List String Ascii Lia Bool DecimalString.
From Stdlib Require Strings.Byte.
From stdpp Require Import gmap strings list.

Local Open Scope Z_scope.

(** ** Machine integers *)

Abbreviation byte := Byte.byte.

Definition u8 (b : byte) : Z := Z.of_N (Byte.to_N b).

(** Go's [uint8(x)]: keep the low 8 bits. *)
Definition uint8 (x : Z) : byte :=
  match Byte.of_N (Z.to_N (x mod 256)) with
  | Some b => b
  | None => Byte.x00
  end.

Definition to_signed (w : Z) (x : Z) : Z := (x + 2 ^ (w - 1)) mod 2 ^ w - 2 ^ (w - 1).

Definition to_int8 (x : Z) : Z := to_signed 8 x.
Definition to_int16 (x : Z) : Z := to_signed 16 x.
Definition to_int32 (x : Z) : Z := to_signed 32 x.
Definition to_int64 (x : Z) : Z := to_signed 64 x.

Definition MaxUint8 : Z := 255.
Definition MaxUint16 : Z := 65535.
Definition MaxUint32 : Z := 4294967295.
Definition MaxUint64 : Z := 18446744073709551615.
Definition MinInt8 : Z := -128.
Definition MaxInt8 : Z := 127.
Definition MinInt16 : Z := -32768.
Definition MaxInt16 : Z := 32767.
Definition MinInt32 : Z := -2147483648.
Definition MaxInt32 : Z := 2147483647.
Definition MinInt64 : Z := -9223372036854775808.
Definition MaxInt64 : Z := 9223372036854775807.

Definition len {A} (l : list A) : Z := Z.of_nat (length l).

(** Go strings and byte slices convert into each other byte by byte. *)
Definition string_of_bytes (l : list byte) : string := string_of_list_byte l.
Definition bytes_of_string (s : string) : list byte := list_byte_of_string s.

(** ** Errors *)

(** [BatchError] of package drv: the error record sent by the server. *)
Record BatchError := {
  SrcFile : string;
  SrcLineNo : Z;
  SrcFuncname : string;
  SrcBacktrace : string;
  Category : string;
  Message : string;
  Severity : string;
  State : Z;
  Text : string;
  LineNo : Z;
  LinePos : Z
}.

(** The values of Go's [error] interface that the driver can produce. *)
Inductive error :=
| io_EOF
| io_ErrUnexpectedEOF
| error_bad_prefix (funcname : string) (prefix : byte)
| fmt_Errorf (format : string) (args : list Z)
| errors_New (msg : string)
| batch_error (be : BatchError).

(** ** The reader monad: state passing over the connection, errors, panics *)

Inductive result (A : Type) :=
| Ok (a : A)
| Err (e : error)
| Panic (msg : string).
Arguments Ok {A} a.
Arguments Err {A} e.
Arguments Panic {A} msg.

Module msgp.

(** [br] is what the buffered reader has not delivered yet; the stream ends
    with [io.EOF]. [scratch] is the reader's internal buffer. *)
Record Reader := { br : list byte; scratch : list byte }.

Definition M (A : Type) : Type := Reader -> result A * Reader.

Definition ret {A} (a : A) : M A := fun m => (Ok a, m).
Definition fail {A} (e : error) : M A := fun m => (Err e, m).
Definition panic {A} (msg : string) : M A := fun m => (Panic msg, m).
Definition bind {A B} (c : M A) (k : A -> M B) : M B :=
  fun m =>
    match c m with
    | (Ok a, m') => k a m'
    | (Err e, m') => (Err e, m')
    | (Panic msg, m') => (Panic msg, m')
    end.

Notation "'let*' x ':=' c 'in' k" := (bind c (fun x => k))
  (at level 10, x name, c at level 100, k at level 200).

Definition M_NIL : byte := Byte.xc0.
Definition M_FALSE : byte := Byte.xc2.
Definition M_TRUE : byte := Byte.xc3.
Definition M_UINT8 : byte := Byte.xcc.
Definition M_UINT16 : byte := Byte.xcd.
Definition M_UINT32 : byte := Byte.xce.
Definition M_UINT64 : byte := Byte.xcf.
Definition M_INT8 : byte := Byte.xd0.
Definition M_INT16 : byte := Byte.xd1.
Definition M_INT32 : byte := Byte.xd2.
Definition M_INT64 : byte := Byte.xd3.
Definition M_FLOAT32 : byte := Byte.xca.
Definition M_FLOAT64 : byte := Byte.xcb.
Definition M_FIXSTR_BASE : byte := Byte.xa0.
Definition M_STR8 : byte := Byte.xd9.
Definition M_STR16 : byte := Byte.xda.
Definition M_STR32 : byte := Byte.xdb.
Definition M_BIN8 : byte := Byte.xc4.
Definition M_BIN16 : byte := Byte.xc5.
Definition M_BIN32 : byte := Byte.xc6.
Definition M_FIXARRAY_BASE : byte := Byte.x90.
Definition M_ARRAY16 : byte := Byte.xdc.
Definition M_ARRAY32 : byte := Byte.xdd.
Definition M_FIXMAP_BASE : byte := Byte.x80.
Definition M_MAP16 : byte := Byte.xde.
Definition M_MAP32 : byte := Byte.xdf.
Definition M_NEGATIVE_FIXINT_BASE : byte := Byte.xe0.

Definition PREFIX_FIXSTR_MASK : byte := Byte.xe0.
Definition PREFIX_FIXARRAY_MASK : byte := Byte.xf0.
Definition PREFIX_FIXMAP_MASK : byte := Byte.xf0.

Definition byte_and (a b : byte) : byte := uint8 (Z.land (u8 a) (u8 b)).
Definition byte_or (a b : byte) : byte := uint8 (Z.lor (u8 a) (u8 b)).
Definition byte_eqb (a b : byte) : bool := Byte.eqb a b.

(** *** Encoder (append functions) *)

Definition AppendUint64 (dest : list byte) (val : Z) : list byte :=
  if val <=? 127 then
    dest ++ [uint8 val]
  else if val <=? MaxUint8 then
    dest ++ [M_UINT8; uint8 val]
  else if val <=? MaxUint16 then
    dest ++ [M_UINT16; uint8 (Z.shiftr val 8); uint8 val]
  else if val <=? MaxUint32 then
    dest ++ [M_UINT32; uint8 (Z.shiftr val 24); uint8 (Z.shiftr val 16);
             uint8 (Z.shiftr val 8); uint8 val]
  else
    dest ++ [M_UINT64; uint8 (Z.shiftr val 56); uint8 (Z.shiftr val 48);
             uint8 (Z.shiftr val 40); uint8 (Z.shiftr val 32);
             uint8 (Z.shiftr val 24); uint8 (Z.shiftr val 16);
             uint8 (Z.shiftr val 8); uint8 val].

Definition AppendInt64 (dest : list byte) (val : Z) : list byte :=
  if val >=? 0 then
    if val <=? 127 then
      dest ++ [uint8 val]
    else if val <=? MaxInt16 then
      dest ++ [M_INT16; uint8 (Z.shiftr val 8); uint8 val]
    else if val <=? MaxInt32 then
      dest ++ [M_INT32; uint8 (Z.shiftr val 24); uint8 (Z.shiftr val 16);
               uint8 (Z.shiftr val 8); uint8 val]
    else
      dest ++ [M_INT64; uint8 (Z.shiftr val 56); uint8 (Z.shiftr val 48);
               uint8 (Z.shiftr val 40); uint8 (Z.shiftr val 32);
               uint8 (Z.shiftr val 24); uint8 (Z.shiftr val 16);
               uint8 (Z.shiftr val 8); uint8 val]
  else if val >=? -32 then
    dest ++ [uint8 val]
  else if val >=? MinInt8 then
    dest ++ [M_INT8; uint8 val]
  else if val >=? MinInt16 then
    dest ++ [M_INT16; uint8 (Z.shiftr val 8); uint8 val]
  else if val >=? MinInt32 then
    dest ++ [M_INT32; uint8 (Z.shiftr val 24); uint8 (Z.shiftr val 16);
             uint8 (Z.shiftr val 8); uint8 val]
  else
    dest ++ [M_INT64; uint8 (Z.shiftr val 56); uint8 (Z.shiftr val 48);
             uint8 (Z.shiftr val 40); uint8 (Z.shiftr val 32);
             uint8 (Z.shiftr val 24); uint8 (Z.shiftr val 16);
             uint8 (Z.shiftr val 8); uint8 val].

Definition AppendStringHeader (dest : list byte) (sz : Z) : list byte :=
  if sz <=? 31 then
    dest ++ [byte_or M_FIXSTR_BASE (uint8 sz)]
  else if sz <=? MaxUint8 then
    (dest ++ [M_STR8]) ++ [uint8 sz]
  else if sz <=? MaxUint16 then
    (dest ++ [M_STR16]) ++ [uint8 (Z.shiftr sz 8); uint8 sz]
  else
    (dest ++ [M_STR32]) ++ [uint8 (Z.shiftr sz 24); uint8 (Z.shiftr sz 16);
                            uint8 (Z.shiftr sz 8); uint8 sz].

(** [AppendString] panics when the length does not fit a uint32. *)
Definition AppendString (dest : list byte) (s : string) : option (list byte) :=
  let sz := len (bytes_of_string s) in
  if sz >? MaxUint32 then None
  else Some (AppendStringHeader dest sz ++ bytes_of_string s).

Definition AppendMapHeader (dest : list byte) (sz : Z) : list byte :=
  if sz <=? 15 then
    dest ++ [byte_or M_FIXMAP_BASE (uint8 sz)]
  else if sz <=? MaxUint16 then
    (dest ++ [M_MAP16]) ++ [uint8 (Z.shiftr sz 8); uint8 sz]
  else
    (dest ++ [M_MAP32]) ++ [uint8 (Z.shiftr sz 24); uint8 (Z.shiftr sz 16);
                            uint8 (Z.shiftr sz 8); uint8 sz].

(** *** The other append functions *)

Definition AppendNil (dest : list byte) : list byte := dest ++ [M_NIL].

Definition AppendBool (dest : list byte) (val : bool) : list byte :=
  let b := if val then M_TRUE else M_FALSE in
  dest ++ [b].

(** The narrow integers are widened and handed to the 64-bit encoders;
    widening leaves the value as it is. *)
Definition AppendUint8 (dest : list byte) (val : Z) : list byte := AppendUint64 dest val.

(** A float is given by its IEEE-754 bit pattern ([math.Float32bits],
    [math.Float64bits]). *)
Definition AppendFloat32 (dest : list byte) (fbits : Z) : list byte :=
  dest ++ [M_FLOAT32; uint8 (Z.shiftr fbits 24); uint8 (Z.shiftr fbits 16);
           uint8 (Z.shiftr fbits 8); uint8 fbits].

Definition AppendFloat64 (dest : list byte) (fbits : Z) : list byte :=
  dest ++ [M_FLOAT64; uint8 (Z.shiftr fbits 56); uint8 (Z.shiftr fbits 48);
           uint8 (Z.shiftr fbits 40); uint8 (Z.shiftr fbits 32);
           uint8 (Z.shiftr fbits 24); uint8 (Z.shiftr fbits 16);
           uint8 (Z.shiftr fbits 8); uint8 fbits].

Definition AppendBytesHeader (dest : list byte) (sz : Z) : list byte :=
  if sz <=? MaxUint8 then
    (dest ++ [M_BIN8]) ++ [uint8 sz]
  else if sz <=? MaxUint16 then
    (dest ++ [M_BIN16]) ++ [uint8 (Z.shiftr sz 8); uint8 sz]
  else
    (dest ++ [M_BIN32]) ++ [uint8 (Z.shiftr sz 24); uint8 (Z.shiftr sz 16);
                            uint8 (Z.shiftr sz 8); uint8 sz].

Definition AppendArrayHeader (dest : list byte) (sz : Z) : list byte :=
  if sz <=? 15 then
    dest ++ [byte_or M_FIXARRAY_BASE (uint8 sz)]
  else if sz <=? MaxUint16 then
    (dest ++ [M_ARRAY16]) ++ [uint8 (Z.shiftr sz 8); uint8 sz]
  else
    (dest ++ [M_ARRAY32]) ++ [uint8 (Z.shiftr sz 24); uint8 (Z.shiftr sz 16);
                              uint8 (Z.shiftr sz 8); uint8 sz].

(** [AppendStringFromBytes] and [AppendBytes] panic, like [AppendString],
    when the length does not fit a uint32. *)
Definition AppendStringFromBytes (dest : list byte) (s : list byte) : option (list byte) :=
  let sz := len s in
  if sz >? MaxUint32 then None
  else Some (AppendStringHeader dest sz ++ s).

Definition AppendBytes (dest : list byte) (bts : list byte) : option (list byte) :=
  let sz := len bts in
  if sz >? MaxUint32 then None
  else Some (AppendBytesHeader dest sz ++ bts).




(** The loop of [AppendMapStrStrFromList]: [args[i]], [args[i+1]], [i += 2]. *)
Fixpoint append_pairs (dest : list byte) (args : list string) : result (list byte) :=
  match args with
  | key :: val :: tl =>
      match AppendString dest key with
      | None => Panic "msgp: string too long"
      | Some dest1 =>
          match AppendString dest1 val with
          | None => Panic "msgp: string too long"
          | Some dest2 => append_pairs dest2 tl
          end
      end
  | [_] => Panic "index out of range"
  | [] => Ok dest
  end.

Definition AppendMapStrStrFromList (dest : list byte) (args : list string)
  : result (list byte) :=
  let sz := len args in
  if negb (Z.land sz 1 =? 0) then Panic "msgp: args count must be even"
  else
    let sz := sz / 2 in
    if sz >? MaxUint32 then Panic "msgp: map has too many elements"
    else append_pairs (AppendMapHeader dest sz) args.

(** *** Decoder *)

Inductive Type_ :=
| InvalidType
| BinType
| StrType
| NilType
| BoolType
| UintType
| IntType
| Float32Type
| Float64Type
| ArrayType
| MapType.

(** [ReadNBytes]: [io.ReadFull] into a buffer of length [n]. A short stream
    is drained and reported as [io.EOF] (nothing was read) or
    [io.ErrUnexpectedEOF]. *)
Definition ReadNBytes (dest : list byte) (n : Z) : M (list byte) :=
  fun m =>
    if n <=? len (br m) then
      (Ok (firstn (Z.to_nat n) (br m)),
       {| br := skipn (Z.to_nat n) (br m); scratch := scratch m |})
    else
      (Err (match br m with [] => io_EOF | _ => io_ErrUnexpectedEOF end),
       {| br := []; scratch := scratch m |}).

Definition set_scratch (buff : list byte) : M unit :=
  fun m => (Ok tt, {| br := br m; scratch := buff |}).

Definition get_scratch : M (list byte) := fun m => (Ok (scratch m), m).

Definition read_N (n : Z) : M (list byte) :=
  let* s := get_scratch in
  let* buff := ReadNBytes s n in
  let* _ := set_scratch buff in
  ret buff.

(** [bufio.Reader.Peek(1)] does not advance the reader. *)
Definition peek_byte : M byte :=
  fun m =>
    match br m with
    | [] => (Err io_EOF, m)
    | b :: _ => (Ok b, m)
    end.

Definition idx (buff : list byte) (i : nat) : Z := u8 (nth i buff Byte.x00).

Definition read_prefix : M byte :=
  let* buff := read_N 1 in ret (nth 0 buff Byte.x00).

Definition read_raw_uint8 : M Z :=
  let* buff := read_N 1 in ret (idx buff 0).

Definition read_raw_uint16 : M Z :=
  let* buff := read_N 2 in
  ret (Z.lor (Z.shiftl (idx buff 0) 8) (idx buff 1)).

Definition read_raw_uint32 : M Z :=
  let* buff := read_N 4 in
  ret (Z.lor (Z.lor (Z.lor (Z.shiftl (idx buff 0) 24) (Z.shiftl (idx buff 1) 16))
                    (Z.shiftl (idx buff 2) 8)) (idx buff 3)).

Definition read_raw_uint64 : M Z :=
  let* buff := read_N 8 in
  ret (Z.lor (Z.lor (Z.lor (Z.lor (Z.lor (Z.lor (Z.lor
         (Z.shiftl (idx buff 0) 56) (Z.shiftl (idx buff 1) 48))
         (Z.shiftl (idx buff 2) 40)) (Z.shiftl (idx buff 3) 32))
         (Z.shiftl (idx buff 4) 24)) (Z.shiftl (idx buff 5) 16))
         (Z.shiftl (idx buff 6) 8)) (idx buff 7)).

Definition read_raw_int8 : M Z := let* v := read_raw_uint8 in ret (to_int8 v).
Definition read_raw_int16 : M Z := let* v := read_raw_uint16 in ret (to_int16 v).
Definition read_raw_int32 : M Z := let* v := read_raw_uint32 in ret (to_int32 v).
Definition read_raw_int64 : M Z := let* v := read_raw_uint64 in ret (to_int64 v).

Definition first_bits_4 (b : byte) : byte := byte_and b Byte.x0f.
Definition first_bits_5 (b : byte) : byte := byte_and b Byte.x1f.

Definition is_in (b : byte) (l : list byte) : bool := existsb (byte_eqb b) l.

(** The analysis of the prefix byte in [NextType]. *)
Definition type_of_prefix (prefix : byte) : Type_ :=
  if u8 prefix <=? 127 then IntType
  else if u8 prefix >=? u8 M_NEGATIVE_FIXINT_BASE then IntType
  else if byte_eqb (byte_and prefix PREFIX_FIXSTR_MASK) M_FIXSTR_BASE then StrType
  else if byte_eqb (byte_and prefix PREFIX_FIXARRAY_MASK) M_FIXARRAY_BASE then ArrayType
  else if byte_eqb (byte_and prefix PREFIX_FIXMAP_MASK) M_FIXMAP_BASE then MapType
  else if byte_eqb prefix M_NIL then NilType
  else if is_in prefix [M_FALSE; M_TRUE] then BoolType
  else if is_in prefix [M_BIN8; M_BIN16; M_BIN32] then BinType
  else if byte_eqb prefix M_FLOAT32 then Float32Type
  else if byte_eqb prefix M_FLOAT64 then Float64Type
  else if is_in prefix [M_UINT8; M_UINT16; M_UINT32; M_UINT64] then UintType
  else if is_in prefix [M_INT8; M_INT16; M_INT32; M_INT64] then IntType
  else if is_in prefix [M_STR8; M_STR16; M_STR32] then StrType
  else if is_in prefix [M_ARRAY16; M_ARRAY32] then ArrayType
  else if is_in prefix [M_MAP16; M_MAP32] then MapType
  else InvalidType.

Definition NextType : M Type_ :=
  let* prefix := peek_byte in
  ret (type_of_prefix prefix).

Definition ReadNil : M unit :=
  let* prefix := read_prefix in
  if byte_eqb prefix M_NIL then ret tt
  else fail (error_bad_prefix "read nil" prefix).

Definition ReadBool : M bool :=
  let* prefix := read_prefix in
  if byte_eqb prefix M_FALSE then ret false
  else if byte_eqb prefix M_TRUE then ret true
  else fail (error_bad_prefix "read bool" prefix).

Definition ReadUint64 : M Z :=
  let* prefix := read_prefix in
  if u8 prefix <=? 127 then ret (u8 prefix)
  else if byte_eqb prefix M_UINT8 then read_raw_uint8
  else if byte_eqb prefix M_UINT16 then read_raw_uint16
  else if byte_eqb prefix M_UINT32 then read_raw_uint32
  else if byte_eqb prefix M_UINT64 then read_raw_uint64
  else fail (error_bad_prefix "read uint" prefix).

Definition ReadUint8 : M Z :=
  let* v := ReadUint64 in
  if v >? MaxUint8 then fail (fmt_Errorf "msgp: ReadUint8 overflow, read %d" [v])
  else ret (u8 (uint8 v)).

Definition ReadUint16 : M Z :=
  let* v := ReadUint64 in
  if v >? MaxUint16 then fail (fmt_Errorf "msgp: ReadUint16 overflow, read %d" [v])
  else ret (v mod 2 ^ 16).

Definition ReadUint32 : M Z :=
  let* v := ReadUint64 in
  if v >? MaxUint32 then fail (fmt_Errorf "msgp: ReadUint32 overflow, read %d" [v])
  else ret (v mod 2 ^ 32).

Definition ReadInt64 : M Z :=
  let* prefix := read_prefix in
  if u8 prefix <=? 127 then ret (u8 prefix)
  else if u8 prefix >=? u8 M_NEGATIVE_FIXINT_BASE then ret (to_int8 (u8 prefix))
  else if byte_eqb prefix M_INT8 then read_raw_int8
  else if byte_eqb prefix M_INT16 then read_raw_int16
  else if byte_eqb prefix M_INT32 then read_raw_int32
  else if byte_eqb prefix M_INT64 then read_raw_int64
  else fail (error_bad_prefix "read int" prefix).

Definition ReadInt8 : M Z :=
  let* v := ReadInt64 in
  if (v <? MinInt8) || (v >? MaxInt8)
  then fail (fmt_Errorf "msgp: ReadInt8 overflow, read %d" [v])
  else ret (to_int8 v).

Definition ReadInt16 : M Z :=
  let* v := ReadInt64 in
  if (v <? MinInt16) || (v >? MaxInt16)
  then fail (fmt_Errorf "msgp: ReadInt16 overflow, read %d" [v])
  else ret (to_int16 v).

Definition ReadInt32 : M Z :=
  let* v := ReadInt64 in
  if (v <? MinInt32) || (v >? MaxInt32)
  then fail (fmt_Errorf "msgp: ReadInt32 overflow, read %d" [v])
  else ret (to_int32 v).

(** A float64 is represented by its IEEE-754 bit pattern, so that
    [math.Float64frombits] is the identity. *)
Definition ReadFloat64 : M Z :=
  let* prefix := read_prefix in
  if negb (byte_eqb prefix M_FLOAT64) then fail (error_bad_prefix "read float64" prefix)
  else read_raw_uint64.

Definition ReadStringHeader : M Z :=
  let* prefix := read_prefix in
  if byte_eqb (byte_and prefix PREFIX_FIXSTR_MASK) M_FIXSTR_BASE then
    ret (u8 (first_bits_5 prefix))
  else if byte_eqb prefix M_STR8 then read_raw_uint8
  else if byte_eqb prefix M_STR16 then read_raw_uint16
  else if byte_eqb prefix M_STR32 then read_raw_uint32
  else fail (error_bad_prefix "read string" prefix).

Definition ReadBytesHeader : M Z :=
  let* prefix := read_prefix in
  if byte_eqb prefix M_BIN8 then read_raw_uint8
  else if byte_eqb prefix M_BIN16 then read_raw_uint16
  else if byte_eqb prefix M_BIN32 then read_raw_uint32
  else fail (error_bad_prefix "read bin" prefix).

Definition ReadArrayHeader : M Z :=
  let* prefix := read_prefix in
  if byte_eqb (byte_and prefix PREFIX_FIXARRAY_MASK) M_FIXARRAY_BASE then
    ret (u8 (first_bits_4 prefix))
  else if byte_eqb prefix M_ARRAY16 then read_raw_uint16
  else if byte_eqb prefix M_ARRAY32 then read_raw_uint32
  else fail (error_bad_prefix "read array" prefix).

Definition ReadMapHeader : M Z :=
  let* prefix := read_prefix in
  if byte_eqb (byte_and prefix PREFIX_FIXMAP_MASK) M_FIXMAP_BASE then
    ret (u8 (first_bits_4 prefix))
  else if byte_eqb prefix M_MAP16 then read_raw_uint16
  else if byte_eqb prefix M_MAP32 then read_raw_uint32
  else fail (error_bad_prefix "read map" prefix).

Definition ReadStringAsBytes (dest : list byte) : M (list byte) :=
  let* sz := ReadStringHeader in
  ReadNBytes dest sz.

Definition ReadBytes (dest : list byte) : M (list byte) :=
  let* sz := ReadBytesHeader in
  ReadNBytes dest sz.

Definition ReadString : M string :=
  let* s := get_scratch in
  let* buff := ReadStringAsBytes (firstn 0 s) in
  let* _ := set_scratch buff in
  ret (string_of_bytes buff).

(** A float32 is represented by its bit pattern, like a float64. *)
Definition ReadFloat32 : M Z :=
  let* prefix := read_prefix in
  if negb (byte_eqb prefix M_FLOAT32) then fail (error_bad_prefix "read float32" prefix)
  else read_raw_uint32.


End msgp.

(** ** Go's unicode/utf8.RuneCount

    The standard library function used by [Varchar.read_value], written
    after the Go implementation: every byte that does not start a well-formed
    encoding counts as one rune of width 1. *)
Module utf8.

Definition RuneSelf : Z := 0x80.
Definition locb : Z := 0x80.
Definition hicb : Z := 0xBF.

Definition xx : Z := 0xF1.
Definition as_ : Z := 0xF0.
Definition s1 : Z := 0x02.
Definition s2 : Z := 0x13.
Definition s3 : Z := 0x03.
Definition s4 : Z := 0x23.
Definition s5 : Z := 0x34.
Definition s6 : Z := 0x04.
Definition s7 : Z := 0x44.

(** The table [first]: information about the first byte of an encoding. *)
Definition first (c : Z) : Z :=
  if c <? 0x80 then as_
  else if c <? 0xC2 then xx
  else if c <? 0xE0 then s1
  else if c =? 0xE0 then s2
  else if c <? 0xED then s3
  else if c =? 0xED then s4
  else if c <? 0xF0 then s3
  else if c =? 0xF0 then s5
  else if c <? 0xF4 then s6
  else if c =? 0xF4 then s7
  else xx.

Definition acceptRanges (i : Z) : Z * Z :=
  if i =? 0 then (locb, hicb)
  else if i =? 1 then (0xA0, hicb)
  else if i =? 2 then (locb, 0x9F)
  else if i =? 3 then (0x90, hicb)
  else if i =? 4 then (locb, 0x8F)
  else (0, 0).

(** The number of bytes one iteration of the counting loop advances by, when
    the byte at the current position is [c] and [rest] follows it. *)
Definition rune_size (c : byte) (rest : list byte) : Z :=
  if u8 c <? RuneSelf then 1
  else
    let x := first (u8 c) in
    if x =? xx then 1
    else
      let size := Z.land x 7 in
      if 1 + len rest <? size then 1
      else
        let '(lo, hi) := acceptRanges (Z.shiftr x 4) in
        let c1 := msgp.idx rest 0 in
        if (c1 <? lo) || (hi <? c1) then 1
        else if size =? 2 then size
        else
          let c2 := msgp.idx rest 1 in
          if (c2 <? locb) || (hicb <? c2) then 1
          else if size =? 3 then size
          else
            let c3 := msgp.idx rest 2 in
            if (c3 <? locb) || (hicb <? c3) then 1
            else size.

(** [count skip p]: runes in [p] once [skip] more bytes of the current rune
    have been passed over. *)
Fixpoint count (skip : nat) (p : list byte) : Z :=
  match p with
  | [] => 0
  | c :: rest =>
      match skip with
      | S k => count k rest
      | O => 1 + count (Z.to_nat (rune_size c rest - 1)) rest
      end
  end.

Definition RuneCount (p : list byte) : Z := count 0 p.

End utf8.

(** ** Go's time.Time, as far as the driver uses it *)
Module time.

Inductive Location := UTC | Local.

(** An instant: seconds and nanoseconds since the Unix epoch, and the
    location it is presented in. *)
Record Time := { sec : Z; nsec : Z; loc : Location }.

(** The zero value [time.Time{}]: January 1, year 1, 00:00:00 UTC. *)
Definition zero : Time := {| sec := -62135596800; nsec := 0; loc := UTC |}.

(** [time.Unix(sec, nsec)]: [nsec] outside [0, 999999999] is carried into
    the seconds. *)
Definition Unix (s : Z) (ns : Z) : Time :=
  if (ns <? 0) || (ns >=? 1000000000) then
    let n := Z.quot ns 1000000000 in
    let s1 := to_int64 (s + n) in
    let ns1 := ns - n * 1000000000 in
    if ns1 <? 0 then {| sec := to_int64 (s1 - 1); nsec := ns1 + 1000000000; loc := Local |}
    else {| sec := s1; nsec := ns1; loc := Local |}
  else {| sec := s; nsec := ns; loc := Local |}.

Definition In_UTC (t : Time) : Time := {| sec := sec t; nsec := nsec t; loc := UTC |}.

End time.

(** What the driver takes from the Go runtime and is left uninterpreted:
    number and time formatting and the machine's local time zone. *)
Class GoRuntime := {
  strconv_FormatInt : Z -> string;            (* strconv.FormatInt(v, 10) *)
  strconv_FormatFloat : Z -> string;          (* strconv.FormatFloat(v, 'g', -1, 64) *)
  fmt_Sprintf_0x : list byte -> string;       (* fmt.Sprintf("0x%x", v) *)
  Time_Format : time.Time -> string -> string; (* t.Format(layout) *)
  (* time.Date(y, m, d, h, mi, s, ns, time.Local) for the date and clock of t *)
  time_Date_Local : time.Time -> time.Time
}.

(** ** Package rsqlib: typed fields and session primitives *)
Module rsqlib.
Import msgp.

Definition Dtype_t := Z.

Definition DTYPE_VOID : Dtype_t := 1.
Definition DTYPE_BOOLEAN : Dtype_t := 2.
Definition DTYPE_VARBINARY : Dtype_t := 4.
Definition DTYPE_VARCHAR : Dtype_t := 6.
Definition DTYPE_BIT : Dtype_t := 9.
Definition DTYPE_TINYINT : Dtype_t := 10.
Definition DTYPE_SMALLINT : Dtype_t := 11.
Definition DTYPE_INT : Dtype_t := 12.
Definition DTYPE_BIGINT : Dtype_t := 13.
Definition DTYPE_MONEY : Dtype_t := 15.
Definition DTYPE_NUMERIC : Dtype_t := 16.
Definition DTYPE_FLOAT : Dtype_t := 17.
Definition DTYPE_DATE : Dtype_t := 19.
Definition DTYPE_TIME : Dtype_t := 20.
Definition DTYPE_DATETIME : Dtype_t := 21.

Definition assert (val : bool) : M unit :=
  if val then ret tt else panic "assertion failed".

Definition SECONDS_PER_DAY : Z := 24 * 3600.
Definition UNIX_SEC_LOWEST : Z := -62135596800.
Definition UNIX_SEC_1900_01_01 : Z := -2208988800.

Definition NULL_STRING : string := "<NULL>".

Definition is_NilType (t : Type_) : bool :=
  match t with NilType => true | _ => false end.

(** [if mr.ReadNil(); err != nil { return err }]: the call is the init
    statement of the [if], its own result is dropped and the [err] tested is
    the one of [NextType], which is nil at that point. *)
Definition ReadNil_dropped : M unit :=
  fun m =>
    match ReadNil m with
    | (Panic msg, m') => (Panic msg, m')
    | (_, m') => (Ok tt, m')
    end.

(** The part shared by every [read_value]: look at the next type, store NULL
    if it is nil, else decode a value. *)
Definition read_nullable {T} (null : T) (value : M T) : M T :=
  let* objtype := NextType in
  if is_NilType objtype then
    let* _ := ReadNil_dropped in ret null
  else value.

Module Void.
Record t := { Is_Null : bool }.
Definition Datatype (field : t) : Dtype_t := DTYPE_VOID.
Definition IsNull (field : t) : bool := Is_Null field.
Definition String (field : t) : string := NULL_STRING.
Definition read_value (field : t) : M t :=
  let* objtype := NextType in
  let* _ := assert (is_NilType objtype) in
  let* _ := ReadNil_dropped in
  ret {| Is_Null := true |}.
End Void.

Module Boolean.
Record t := { Is_Null : bool; Val : bool }.
Definition Datatype (field : t) : Dtype_t := DTYPE_BOOLEAN.
Definition IsNull (field : t) : bool := Is_Null field.
Definition String (field : t) : string :=
  if Is_Null field then NULL_STRING
  else if negb (Val field) then "false" else "true".
Definition read_value (field : t) : M t :=
  read_nullable {| Is_Null := true; Val := false |}
    (let* val := ReadBool in ret {| Is_Null := false; Val := val |}).
End Boolean.

Module Varbinary.
Record t := { Precision : Z; Is_Null : bool; Val : list byte }.
Definition Datatype (field : t) : Dtype_t := DTYPE_VARBINARY.
Definition IsNull (field : t) : bool := Is_Null field.
Definition String `{GoRuntime} (field : t) : string :=
  if Is_Null field then NULL_STRING else fmt_Sprintf_0x (Val field).
Definition read_value (field : t) : M t :=
  read_nullable
    {| Precision := Precision field; Is_Null := true; Val := firstn 0 (Val field) |}
    (let* val := ReadBytes (firstn 0 (Val field)) in
     ret {| Precision := Precision field; Is_Null := false; Val := val |}).
End Varbinary.

Module Varchar.
Record t := { Precision : Z; Fixlen : bool; Is_Null : bool; Val : list byte }.
Definition Datatype (field : t) : Dtype_t := DTYPE_VARCHAR.
Definition IsNull (field : t) : bool := Is_Null field.
Definition String (field : t) : string :=
  if Is_Null field then NULL_STRING else string_of_bytes (Val field).

(** The padding of a fixed-length value: [make([]byte, padding_length)]
    appended, then every byte from [current_length] on set to a blank. *)
Definition set_blanks (val : list byte) (current_length : Z) : list byte :=
  firstn (Z.to_nat current_length) val
    ++ repeat Byte.x20 (length val - Z.to_nat current_length).

Definition pad (precision : Z) (val : list byte) : list byte :=
  let rune_count := utf8.RuneCount val in
  if rune_count <? precision then
    let current_length := len val in
    let padding_length := precision - rune_count in
    set_blanks (val ++ repeat Byte.x00 (Z.to_nat padding_length)) current_length
  else val.

Definition read_value (field : t) : M t :=
  read_nullable
    {| Precision := Precision field; Fixlen := Fixlen field;
       Is_Null := true; Val := firstn 0 (Val field) |}
    (let* val := ReadStringAsBytes (firstn 0 (Val field)) in
     ret {| Precision := Precision field; Fixlen := Fixlen field; Is_Null := false;
            Val := if Fixlen field then pad (Precision field) val else val |}).
End Varchar.

Module Bit.
Record t := { Is_Null : bool; Val : Z }.
Definition Datatype (field : t) : Dtype_t := DTYPE_BIT.
Definition IsNull (field : t) : bool := Is_Null field.
Definition String (field : t) : string :=
  if Is_Null field then NULL_STRING
  else if Val field =? 0 then "0" else "1".
Definition read_value (field : t) : M t :=
  read_nullable {| Is_Null := true; Val := 0 |}
    (let* val := ReadUint8 in
     let* _ := assert (val <=? 1) in
     ret {| Is_Null := false; Val := val |}).
End Bit.

Module Tinyint.
Record t := { Is_Null : bool; Val : Z }.
Definition Datatype (field : t) : Dtype_t := DTYPE_TINYINT.
Definition IsNull (field : t) : bool := Is_Null field.
Definition String `{GoRuntime} (field : t) : string :=
  if Is_Null field then NULL_STRING else strconv_FormatInt (Val field).
Definition read_value (field : t) : M t :=
  read_nullable {| Is_Null := true; Val := 0 |}
    (let* val := ReadUint8 in ret {| Is_Null := false; Val := val |}).
End Tinyint.

Module Smallint.
Record t := { Is_Null : bool; Val : Z }.
Definition Datatype (field : t) : Dtype_t := DTYPE_SMALLINT.
Definition IsNull (field : t) : bool := Is_Null field.
Definition String `{GoRuntime} (field : t) : string :=
  if Is_Null field then NULL_STRING else strconv_FormatInt (Val field).
Definition read_value (field : t) : M t :=
  read_nullable {| Is_Null := true; Val := 0 |}
    (let* val := ReadInt16 in ret {| Is_Null := false; Val := val |}).
End Smallint.

Module Int.
Record t := { Is_Null : bool; Val : Z }.
Definition Datatype (field : t) : Dtype_t := DTYPE_INT.
Definition IsNull (field : t) : bool := Is_Null field.
Definition String `{GoRuntime} (field : t) : string :=
  if Is_Null field then NULL_STRING else strconv_FormatInt (Val field).
Definition read_value (field : t) : M t :=
  read_nullable {| Is_Null := true; Val := 0 |}
    (let* val := ReadInt32 in ret {| Is_Null := false; Val := val |}).
End Int.

Module Bigint.
Record t := { Is_Null : bool; Val : Z }.
Definition Datatype (field : t) : Dtype_t := DTYPE_BIGINT.
Definition IsNull (field : t) : bool := Is_Null field.
Definition String `{GoRuntime} (field : t) : string :=
  if Is_Null field then NULL_STRING else strconv_FormatInt (Val field).
Definition read_value (field : t) : M t :=
  read_nullable {| Is_Null := true; Val := 0 |}
    (let* val := ReadInt64 in ret {| Is_Null := false; Val := val |}).
End Bigint.

Module Money.
Record t := { Precision : Z; Scale : Z; Is_Null : bool; Val : list byte }.
Definition Datatype (field : t) : Dtype_t := DTYPE_MONEY.
Definition IsNull (field : t) : bool := Is_Null field.
Definition String (field : t) : string :=
  if Is_Null field then NULL_STRING else string_of_bytes (Val field).
Definition read_value (field : t) : M t :=
  read_nullable
    {| Precision := Precision field; Scale := Scale field;
       Is_Null := true; Val := firstn 0 (Val field) |}
    (let* val := ReadStringAsBytes (firstn 0 (Val field)) in
     ret {| Precision := Precision field; Scale := Scale field;
            Is_Null := false; Val := val |}).
End Money.

Module Numeric.
Record t := { Precision : Z; Scale : Z; Is_Null : bool; Val : list byte }.
Definition Datatype (field : t) : Dtype_t := DTYPE_NUMERIC.
Definition IsNull (field : t) : bool := Is_Null field.
Definition String (field : t) : string :=
  if Is_Null field then NULL_STRING else string_of_bytes (Val field).
Definition read_value (field : t) : M t :=
  read_nullable
    {| Precision := Precision field; Scale := Scale field;
       Is_Null := true; Val := firstn 0 (Val field) |}
    (let* val := ReadStringAsBytes (firstn 0 (Val field)) in
     ret {| Precision := Precision field; Scale := Scale field;
            Is_Null := false; Val := val |}).
End Numeric.

Module Float.
Record t := { Is_Null : bool; Val : Z }.
Definition Datatype (field : t) : Dtype_t := DTYPE_FLOAT.
Definition IsNull (field : t) : bool := Is_Null field.
Definition String `{GoRuntime} (field : t) : string :=
  if Is_Null field then NULL_STRING else strconv_FormatFloat (Val field).
Definition read_value (field : t) : M t :=
  read_nullable {| Is_Null := true; Val := 0 |}
    (let* val := ReadFloat64 in ret {| Is_Null := false; Val := val |}).
End Float.

Module Date.
Record t := { Is_Null : bool; Val : time.Time }.
Definition Datatype (field : t) : Dtype_t := DTYPE_DATE.
Definition IsNull (field : t) : bool := Is_Null field.
Definition String `{GoRuntime} (field : t) : string :=
  if Is_Null field then NULL_STRING else Time_Format (Val field) "2006-01-02".
Definition read_value (field : t) : M t :=
  read_nullable {| Is_Null := true; Val := time.zero |}
    (let* delta_days := ReadUint32 in
     let unix_sec := UNIX_SEC_LOWEST + delta_days * SECONDS_PER_DAY in
     ret {| Is_Null := false; Val := time.In_UTC (time.Unix unix_sec 0) |}).
End Date.

Module Time.
Record t := { Is_Null : bool; Val : time.Time }.
Definition Datatype (field : t) : Dtype_t := DTYPE_TIME.
Definition IsNull (field : t) : bool := Is_Null field.
Definition String `{GoRuntime} (field : t) : string :=
  if Is_Null field then NULL_STRING
  else if time.nsec (Val field) =? 0 then Time_Format (Val field) "15:04:05"
  else Time_Format (Val field) "15:04:05.000000000".
Definition read_value (field : t) : M t :=
  read_nullable {| Is_Null := true; Val := time.zero |}
    (let* sz := ReadArrayHeader in
     let* _ := assert (sz =? 2) in
     let* delta_seconds := ReadUint32 in
     let* delta_ns := ReadUint32 in
     let unix_sec := UNIX_SEC_1900_01_01 + delta_seconds in
     ret {| Is_Null := false; Val := time.In_UTC (time.Unix unix_sec delta_ns) |}).
End Time.

Module Datetime.
Record t := { Is_Null : bool; Val : time.Time }.
Definition Datatype (field : t) : Dtype_t := DTYPE_DATETIME.
Definition IsNull (field : t) : bool := Is_Null field.
Definition String `{GoRuntime} (field : t) : string :=
  if Is_Null field then NULL_STRING
  else if time.nsec (Val field) =? 0 then Time_Format (Val field) "2006-01-02 15:04:05"
  else Time_Format (Val field) "2006-01-02 15:04:05.000000000".
Definition read_value (field : t) : M t :=
  read_nullable {| Is_Null := true; Val := time.zero |}
    (let* sz := ReadArrayHeader in
     let* _ := assert (sz =? 3) in
     let* delta_days := ReadUint32 in
     let* delta_seconds := ReadUint32 in
     let* delta_ns := ReadUint32 in
     let unix_sec := (UNIX_SEC_LOWEST + delta_days * SECONDS_PER_DAY) + delta_seconds in
     ret {| Is_Null := false; Val := time.In_UTC (time.Unix unix_sec delta_ns) |}).
End Datetime.

(** The interface [IField] with its fifteen implementations. *)
Inductive IField :=
| F_Void (f : Void.t)
| F_Boolean (f : Boolean.t)
| F_Varbinary (f : Varbinary.t)
| F_Varchar (f : Varchar.t)
| F_Bit (f : Bit.t)
| F_Tinyint (f : Tinyint.t)
| F_Smallint (f : Smallint.t)
| F_Int (f : Int.t)
| F_Bigint (f : Bigint.t)
| F_Money (f : Money.t)
| F_Numeric (f : Numeric.t)
| F_Float (f : Float.t)
| F_Date (f : Date.t)
| F_Time (f : Time.t)
| F_Datetime (f : Datetime.t).

Definition Datatype (field : IField) : Dtype_t :=
  match field with
  | F_Void f => Void.Datatype f
  | F_Boolean f => Boolean.Datatype f
  | F_Varbinary f => Varbinary.Datatype f
  | F_Varchar f => Varchar.Datatype f
  | F_Bit f => Bit.Datatype f
  | F_Tinyint f => Tinyint.Datatype f
  | F_Smallint f => Smallint.Datatype f
  | F_Int f => Int.Datatype f
  | F_Bigint f => Bigint.Datatype f
  | F_Money f => Money.Datatype f
  | F_Numeric f => Numeric.Datatype f
  | F_Float f => Float.Datatype f
  | F_Date f => Date.Datatype f
  | F_Time f => Time.Datatype f
  | F_Datetime f => Datetime.Datatype f
  end.

Definition IsNull (field : IField) : bool :=
  match field with
  | F_Void f => Void.IsNull f
  | F_Boolean f => Boolean.IsNull f
  | F_Varbinary f => Varbinary.IsNull f
  | F_Varchar f => Varchar.IsNull f
  | F_Bit f => Bit.IsNull f
  | F_Tinyint f => Tinyint.IsNull f
  | F_Smallint f => Smallint.IsNull f
  | F_Int f => Int.IsNull f
  | F_Bigint f => Bigint.IsNull f
  | F_Money f => Money.IsNull f
  | F_Numeric f => Numeric.IsNull f
  | F_Float f => Float.IsNull f
  | F_Date f => Date.IsNull f
  | F_Time f => Time.IsNull f
  | F_Datetime f => Datetime.IsNull f
  end.

Definition String `{GoRuntime} (field : IField) : string :=
  match field with
  | F_Void f => Void.String f
  | F_Boolean f => Boolean.String f
  | F_Varbinary f => Varbinary.String f
  | F_Varchar f => Varchar.String f
  | F_Bit f => Bit.String f
  | F_Tinyint f => Tinyint.String f
  | F_Smallint f => Smallint.String f
  | F_Int f => Int.String f
  | F_Bigint f => Bigint.String f
  | F_Money f => Money.String f
  | F_Numeric f => Numeric.String f
  | F_Float f => Float.String f
  | F_Date f => Date.String f
  | F_Time f => Time.String f
  | F_Datetime f => Datetime.String f
  end.

Definition fmap_M {A B} (g : A -> B) (c : M A) : M B :=
  let* a := c in ret (g a).

Definition read_value (field : IField) : M IField :=
  match field with
  | F_Void f => fmap_M F_Void (Void.read_value f)
  | F_Boolean f => fmap_M F_Boolean (Boolean.read_value f)
  | F_Varbinary f => fmap_M F_Varbinary (Varbinary.read_value f)
  | F_Varchar f => fmap_M F_Varchar (Varchar.read_value f)
  | F_Bit f => fmap_M F_Bit (Bit.read_value f)
  | F_Tinyint f => fmap_M F_Tinyint (Tinyint.read_value f)
  | F_Smallint f => fmap_M F_Smallint (Smallint.read_value f)
  | F_Int f => fmap_M F_Int (Int.read_value f)
  | F_Bigint f => fmap_M F_Bigint (Bigint.read_value f)
  | F_Money f => fmap_M F_Money (Money.read_value f)
  | F_Numeric f => fmap_M F_Numeric (Numeric.read_value f)
  | F_Float f => fmap_M F_Float (Float.read_value f)
  | F_Date f => fmap_M F_Date (Date.read_value f)
  | F_Time f => fmap_M F_Time (Time.read_value f)
  | F_Datetime f => fmap_M F_Datetime (Datetime.read_value f)
  end.

(** [Create_colname_list]: an array header, then that many strings. *)
Fixpoint read_colnames (n : nat) (colname_list : list string) : M (list string) :=
  match n with
  | O => ret colname_list
  | S n' =>
      let* colname := ReadString in
      read_colnames n' (colname_list ++ [colname])
  end.

Definition Create_colname_list : M (list string) :=
  let* row_size := ReadArrayHeader in
  read_colnames (Z.to_nat row_size) [].

Definition new_field : M IField :=
  let* sz := ReadArrayHeader in
  let* u := ReadUint8 in
  if u =? DTYPE_VOID then
    let* _ := assert (sz =? 1) in ret (F_Void {| Void.Is_Null := true |})
  else if u =? DTYPE_BOOLEAN then
    let* _ := assert (sz =? 1) in
    ret (F_Boolean {| Boolean.Is_Null := true; Boolean.Val := false |})
  else if u =? DTYPE_VARBINARY then
    let* _ := assert (sz =? 2) in
    let* precision := ReadUint16 in
    ret (F_Varbinary {| Varbinary.Precision := precision; Varbinary.Is_Null := true;
                        Varbinary.Val := [] |})
  else if u =? DTYPE_VARCHAR then
    let* _ := assert (sz =? 3) in
    let* precision := ReadUint16 in
    let* fixlen := ReadBool in
    ret (F_Varchar {| Varchar.Precision := precision; Varchar.Fixlen := fixlen;
                      Varchar.Is_Null := true; Varchar.Val := [] |})
  else if u =? DTYPE_BIT then
    let* _ := assert (sz =? 1) in ret (F_Bit {| Bit.Is_Null := true; Bit.Val := 0 |})
  else if u =? DTYPE_TINYINT then
    let* _ := assert (sz =? 1) in
    ret (F_Tinyint {| Tinyint.Is_Null := true; Tinyint.Val := 0 |})
  else if u =? DTYPE_SMALLINT then
    let* _ := assert (sz =? 1) in
    ret (F_Smallint {| Smallint.Is_Null := true; Smallint.Val := 0 |})
  else if u =? DTYPE_INT then
    let* _ := assert (sz =? 1) in ret (F_Int {| Int.Is_Null := true; Int.Val := 0 |})
  else if u =? DTYPE_BIGINT then
    let* _ := assert (sz =? 1) in
    ret (F_Bigint {| Bigint.Is_Null := true; Bigint.Val := 0 |})
  else if u =? DTYPE_MONEY then
    let* _ := assert (sz =? 3) in
    let* precision := ReadUint16 in
    let* scale := ReadUint16 in
    ret (F_Money {| Money.Precision := precision; Money.Scale := scale;
                    Money.Is_Null := true; Money.Val := [] |})
  else if u =? DTYPE_NUMERIC then
    let* _ := assert (sz =? 3) in
    let* precision := ReadUint16 in
    let* scale := ReadUint16 in
    ret (F_Numeric {| Numeric.Precision := precision; Numeric.Scale := scale;
                      Numeric.Is_Null := true; Numeric.Val := [] |})
  else if u =? DTYPE_FLOAT then
    let* _ := assert (sz =? 1) in ret (F_Float {| Float.Is_Null := true; Float.Val := 0 |})
  else if u =? DTYPE_DATE then
    let* _ := assert (sz =? 1) in
    ret (F_Date {| Date.Is_Null := true; Date.Val := time.zero |})
  else if u =? DTYPE_TIME then
    let* _ := assert (sz =? 1) in
    ret (F_Time {| Time.Is_Null := true; Time.Val := time.zero |})
  else if u =? DTYPE_DATETIME then
    let* _ := assert (sz =? 1) in
    ret (F_Datetime {| Datetime.Is_Null := true; Datetime.Val := time.zero |})
  else fail (errors_New "Unknown datatype received").

Fixpoint new_fields (n : nat) : M (list IField) :=
  match n with
  | O => ret []
  | S n' =>
      let* field := new_field in
      let* row := new_fields n' in
      ret (field :: row)
  end.

Definition Create_row : M (list IField) :=
  let* row_size := ReadArrayHeader in
  new_fields (Z.to_nat row_size).

(** [Fill_row_with_values] updates the fields of [row] in place, one after the
    other: when a field fails to decode, the fields before it keep their new
    values. The row is therefore returned together with the outcome. *)
Fixpoint fill_fields (row : list IField) (m : Reader) : result unit * list IField * Reader :=
  match row with
  | [] => (Ok tt, [], m)
  | field :: tl =>
      match read_value field m with
      | (Ok field', m') =>
          let '(r, tl', m'') := fill_fields tl m' in (r, field' :: tl', m'')
      | (Err e, m') => (Err e, field :: tl, m')
      | (Panic msg, m') => (Panic msg, field :: tl, m')
      end
  end.

Definition Fill_row_with_values (row : list IField) (m : Reader)
  : result unit * list IField * Reader :=
  match ReadArrayHeader m with
  | (Err e, m') => (Err e, row, m')
  | (Panic msg, m') => (Panic msg, row, m')
  | (Ok row_size, m') =>
      if len row =? row_size then fill_fields row m'
      else (Panic "assertion failed", row, m')
  end.

Definition Read_string : M string := ReadString.
Definition Read_int64 : M Z := ReadInt64.
Definition Read_batch_end_RC : M Z := ReadInt64.

Definition Response_t := Z.

Definition RESTYP_LOGIN_FAILED : Response_t := 0.
Definition RESTYP_LOGIN_SUCCESS : Response_t := 1.
Definition RESTYP_RECORD_LAYOUT : Response_t := 3.
Definition RESTYP_RECORD : Response_t := 4.
Definition RESTYP_RECORD_FINISHED : Response_t := 5.
Definition RESTYP_EXECUTION_FINISHED : Response_t := 7.
Definition RESTYP_PRINT : Response_t := 10.
Definition RESTYP_MESSAGE : Response_t := 11.
Definition RESTYP_ERROR : Response_t := 12.
Definition RESTYP_BATCH_END : Response_t := 14.

Definition Read_response_type : M Response_t := ReadUint8.

Record Error_info := {
  src_file : string;
  src_line_no : Z;
  src_funcname : string;
  src_backtrace : string;
  category : string;
  message : string;
  severity : string;
  state : Z;
  text : string;
  line_no : Z;
  line_pos : Z
}.

(** The zero value of the struct, as declared by [var error_info Error_info]. *)
Definition Error_info_zero : Error_info :=
  {| src_file := EmptyString; src_line_no := 0; src_funcname := EmptyString;
     src_backtrace := EmptyString; category := EmptyString; message := EmptyString;
     severity := EmptyString; state := 0; text := EmptyString;
     line_no := 0; line_pos := 0 |}.

Definition set_src_file (v : string) (e : Error_info) : Error_info :=
  {| src_file := v; src_line_no := src_line_no e; src_funcname := src_funcname e;
     src_backtrace := src_backtrace e; category := category e; message := message e;
     severity := severity e; state := state e; text := text e; line_no := line_no e;
     line_pos := line_pos e |}.
Definition set_src_line_no (v : Z) (e : Error_info) : Error_info :=
  {| src_file := src_file e; src_line_no := v; src_funcname := src_funcname e;
     src_backtrace := src_backtrace e; category := category e; message := message e;
     severity := severity e; state := state e; text := text e; line_no := line_no e;
     line_pos := line_pos e |}.
Definition set_src_funcname (v : string) (e : Error_info) : Error_info :=
  {| src_file := src_file e; src_line_no := src_line_no e; src_funcname := v;
     src_backtrace := src_backtrace e; category := category e; message := message e;
     severity := severity e; state := state e; text := text e; line_no := line_no e;
     line_pos := line_pos e |}.
Definition set_src_backtrace (v : string) (e : Error_info) : Error_info :=
  {| src_file := src_file e; src_line_no := src_line_no e; src_funcname := src_funcname e;
     src_backtrace := v; category := category e; message := message e;
     severity := severity e; state := state e; text := text e; line_no := line_no e;
     line_pos := line_pos e |}.
Definition set_category (v : string) (e : Error_info) : Error_info :=
  {| src_file := src_file e; src_line_no := src_line_no e; src_funcname := src_funcname e;
     src_backtrace := src_backtrace e; category := v; message := message e;
     severity := severity e; state := state e; text := text e; line_no := line_no e;
     line_pos := line_pos e |}.
Definition set_message (v : string) (e : Error_info) : Error_info :=
  {| src_file := src_file e; src_line_no := src_line_no e; src_funcname := src_funcname e;
     src_backtrace := src_backtrace e; category := category e; message := v;
     severity := severity e; state := state e; text := text e; line_no := line_no e;
     line_pos := line_pos e |}.
Definition set_severity (v : string) (e : Error_info) : Error_info :=
  {| src_file := src_file e; src_line_no := src_line_no e; src_funcname := src_funcname e;
     src_backtrace := src_backtrace e; category := category e; message := message e;
     severity := v; state := state e; text := text e; line_no := line_no e;
     line_pos := line_pos e |}.
Definition set_state (v : Z) (e : Error_info) : Error_info :=
  {| src_file := src_file e; src_line_no := src_line_no e; src_funcname := src_funcname e;
     src_backtrace := src_backtrace e; category := category e; message := message e;
     severity := severity e; state := v; text := text e; line_no := line_no e;
     line_pos := line_pos e |}.
Definition set_text (v : string) (e : Error_info) : Error_info :=
  {| src_file := src_file e; src_line_no := src_line_no e; src_funcname := src_funcname e;
     src_backtrace := src_backtrace e; category := category e; message := message e;
     severity := severity e; state := state e; text := v; line_no := line_no e;
     line_pos := line_pos e |}.
Definition set_line_no (v : Z) (e : Error_info) : Error_info :=
  {| src_file := src_file e; src_line_no := src_line_no e; src_funcname := src_funcname e;
     src_backtrace := src_backtrace e; category := category e; message := message e;
     severity := severity e; state := state e; text := text e; line_no := v;
     line_pos := line_pos e |}.
Definition set_line_pos (v : Z) (e : Error_info) : Error_info :=
  {| src_file := src_file e; src_line_no := src_line_no e; src_funcname := src_funcname e;
     src_backtrace := src_backtrace e; category := category e; message := message e;
     severity := severity e; state := state e; text := text e; line_no := line_no e;
     line_pos := v |}.

(** One turn of the loop of [Read_Error_info]: read a key, then, for a key of
    the [switch], the value of that field. The [switch] has no [default]:
    after any other key nothing more is read in this turn. *)
Definition read_error_entry (error_info : Error_info) : M Error_info :=
  let* key := ReadString in
  if String.eqb key "src_file" then
    let* v := ReadString in ret (set_src_file v error_info)
  else if String.eqb key "src_line_no" then
    let* v := ReadInt64 in ret (set_src_line_no v error_info)
  else if String.eqb key "src_funcname" then
    let* v := ReadString in ret (set_src_funcname v error_info)
  else if String.eqb key "src_backtrace" then
    let* v := ReadString in ret (set_src_backtrace v error_info)
  else if String.eqb key "category" then
    let* v := ReadString in ret (set_category v error_info)
  else if String.eqb key "message" then
    let* v := ReadString in ret (set_message v error_info)
  else if String.eqb key "severity" then
    let* v := ReadString in ret (set_severity v error_info)
  else if String.eqb key "state" then
    let* v := ReadInt64 in ret (set_state v error_info)
  else if String.eqb key "text" then
    let* v := ReadString in ret (set_text v error_info)
  else if String.eqb key "line_no" then
    let* v := ReadInt64 in ret (set_line_no v error_info)
  else if String.eqb key "line_pos" then
    let* v := ReadInt64 in ret (set_line_pos v error_info)
  else ret error_info.

Fixpoint read_error_entries (n : nat) (error_info : Error_info) : M Error_info :=
  match n with
  | O => ret error_info
  | S n' =>
      let* error_info' := read_error_entry error_info in
      read_error_entries n' error_info'
  end.

Definition Read_Error_info : M Error_info :=
  let* errobj_size := ReadMapHeader in
  read_error_entries (Z.to_nat errobj_size) Error_info_zero.

(** The session: the reader of the connection, and the resources that
    [Close] releases. A channel and a connection are each open or closed;
    [ticker_running] is the keepalive ticker. *)
Record Session := {
  mr : Reader;
  ticker_running : bool;
  ticker_done_closed : bool;
  conn_closed : bool
}.

(** The struct literal at the end of [Connect]. *)
Definition new_Session (r : Reader) : Session :=
  {| mr := r; ticker_running := true; ticker_done_closed := false; conn_closed := false |}.

(** [Connect], from the point where the authentication message has been
    sent: [stream] is what the server answers on the connection. *)
Definition Connect (stream : list byte) : result Session :=
  match ReadUint8 {| br := stream; scratch := [] |} with
  | (Ok u, r) =>
      if u =? RESTYP_LOGIN_SUCCESS then Ok (new_Session r)
      else Err (errors_New "Login failed")
  | (Err e, _) => Err e
  | (Panic msg, _) => Panic msg
  end.

(** [Close]: [ticker.Stop()], [close(ticker_done)], [conn.Close()].
    In Go, closing a channel that is already closed panics at run time, and
    closing a connection twice returns an error. *)
Definition Close (session : Session) : result (option error) * Session :=
  let s1 := {| mr := mr session; ticker_running := false;
               ticker_done_closed := ticker_done_closed session;
               conn_closed := conn_closed session |} in
  if ticker_done_closed s1 then (Panic "close of closed channel", s1)
  else
    let s2 := {| mr := mr s1; ticker_running := false;
                 ticker_done_closed := true; conn_closed := conn_closed s1 |} in
    let err := if conn_closed s2
               then Some (errors_New "use of closed network connection")
               else None in
    (Ok err, {| mr := mr s2; ticker_running := false;
                ticker_done_closed := true; conn_closed := true |}).

(** Run a reading method of the session on its reader. *)
Definition with_mr {A} (c : M A) (session : Session) : result A * Session :=
  let '(r, m') := c (mr session) in
  (r, {| mr := m'; ticker_running := ticker_running session;
         ticker_done_closed := ticker_done_closed session;
         conn_closed := conn_closed session |}).

End rsqlib.

(** ** Package drv: the batch state machine and the cursor *)
Module drv.
Import msgp.

Record Connection := {
  session : rsqlib.Session;
  isDirty : bool
}.

Definition status := Z.

Definition sTATUS_BATCH_SENT : status := 1.
Definition sTATUS_RECORD_LAYOUT_AVAILABLE : status := 2.
Definition sTATUS_RECORD_AVAILABLE : status := 3.
Definition sTATUS_RECORD_END : status := 4.
Definition sTATUS_BATCH_END : status := 5.

(** A [Batch]. The slices and the map are [None] when they are nil. The
    connection [b.conn] points to is passed along with the batch. *)
Record Batch := {
  text : string;
  status_ : status;
  recordsetCount : Z;
  colnameList : option (list string);
  colnameMap : option (gmap string Z);
  record : option (list rsqlib.IField);
  recordCount : Z;
  execRecordCount : Z;
  err : option error;
  rc : Z
}.

Definition set_status (v : status) (b : Batch) : Batch :=
  {| text := text b; status_ := v; recordsetCount := recordsetCount b;
     colnameList := colnameList b; colnameMap := colnameMap b; record := record b;
     recordCount := recordCount b; execRecordCount := execRecordCount b;
     err := err b; rc := rc b |}.
Definition set_recordsetCount (v : Z) (b : Batch) : Batch :=
  {| text := text b; status_ := status_ b; recordsetCount := v;
     colnameList := colnameList b; colnameMap := colnameMap b; record := record b;
     recordCount := recordCount b; execRecordCount := execRecordCount b;
     err := err b; rc := rc b |}.
Definition set_colnameList (v : option (list string)) (b : Batch) : Batch :=
  {| text := text b; status_ := status_ b; recordsetCount := recordsetCount b;
     colnameList := v; colnameMap := colnameMap b; record := record b;
     recordCount := recordCount b; execRecordCount := execRecordCount b;
     err := err b; rc := rc b |}.
Definition set_colnameMap (v : option (gmap string Z)) (b : Batch) : Batch :=
  {| text := text b; status_ := status_ b; recordsetCount := recordsetCount b;
     colnameList := colnameList b; colnameMap := v; record := record b;
     recordCount := recordCount b; execRecordCount := execRecordCount b;
     err := err b; rc := rc b |}.
Definition set_record (v : option (list rsqlib.IField)) (b : Batch) : Batch :=
  {| text := text b; status_ := status_ b; recordsetCount := recordsetCount b;
     colnameList := colnameList b; colnameMap := colnameMap b; record := v;
     recordCount := recordCount b; execRecordCount := execRecordCount b;
     err := err b; rc := rc b |}.
Definition set_recordCount (v : Z) (b : Batch) : Batch :=
  {| text := text b; status_ := status_ b; recordsetCount := recordsetCount b;
     colnameList := colnameList b; colnameMap := colnameMap b; record := record b;
     recordCount := v; execRecordCount := execRecordCount b;
     err := err b; rc := rc b |}.
Definition set_execRecordCount (v : Z) (b : Batch) : Batch :=
  {| text := text b; status_ := status_ b; recordsetCount := recordsetCount b;
     colnameList := colnameList b; colnameMap := colnameMap b; record := record b;
     recordCount := recordCount b; execRecordCount := v;
     err := err b; rc := rc b |}.
Definition set_err (v : option error) (b : Batch) : Batch :=
  {| text := text b; status_ := status_ b; recordsetCount := recordsetCount b;
     colnameList := colnameList b; colnameMap := colnameMap b; record := record b;
     recordCount := recordCount b; execRecordCount := execRecordCount b;
     err := v; rc := rc b |}.
Definition set_rc (v : Z) (b : Batch) : Batch :=
  {| text := text b; status_ := status_ b; recordsetCount := recordsetCount b;
     colnameList := colnameList b; colnameMap := colnameMap b; record := record b;
     recordCount := recordCount b; execRecordCount := execRecordCount b;
     err := err b; rc := v |}.

Definition set_session (s : rsqlib.Session) (c : Connection) : Connection :=
  {| session := s; isDirty := isDirty c |}.
Definition set_isDirty (v : bool) (c : Connection) : Connection :=
  {| session := session c; isDirty := v |}.

Inductive stepOption := sTEP_NEXT_RECORD | sTEP_FINALIZE.

Definition is_NEXT_RECORD (option : stepOption) : bool :=
  match option with sTEP_NEXT_RECORD => true | sTEP_FINALIZE => false end.

(** The column name map built for a record layout, as the loop over
    [colnameList] builds it. *)
Fixpoint colnameMap_loop (i : Z) (names : list string) (colnameMap : gmap string Z)
  : gmap string Z :=
  match names with
  | [] => colnameMap
  | name :: tl =>
      colnameMap_loop (i + 1) tl
        (if String.eqb name EmptyString then colnameMap
         else match colnameMap !! name with
              | Some _ => <[name := i]> colnameMap
              | None => delete name colnameMap
              end)
  end.

Definition make_colnameMap (colnameList : list string) : gmap string Z :=
  colnameMap_loop 0 colnameList ∅.

Definition newBatchError (e : rsqlib.Error_info) : BatchError :=
  {| SrcFile := rsqlib.src_file e;
     SrcLineNo := rsqlib.src_line_no e;
     SrcFuncname := rsqlib.src_funcname e;
     SrcBacktrace := rsqlib.src_backtrace e;
     Category := rsqlib.category e;
     Message := rsqlib.message e;
     Severity := rsqlib.severity e;
     State := rsqlib.state e;
     Text := rsqlib.text e;
     LineNo := rsqlib.line_no e;
     LinePos := rsqlib.line_pos e |}.

(** *** The message loop of [step]

    A step of the loop works on the batch and its connection. It goes on to
    the next statement ([Next]), leaves [step] with a result ([Exit]), or
    panics ([Crash]). [Diverge] is the loop running out of the fuel it is
    given. *)
Inductive outcome (A : Type) :=
| Next (a : A)
| Exit (res : bool)
| Crash (msg : string)
| Diverge.
Arguments Next {A} a.
Arguments Exit {A} res.
Arguments Crash {A} msg.
Arguments Diverge {A}.

Definition S_ (A : Type) : Type := Batch * Connection -> outcome A * (Batch * Connection).

Definition next {A} (a : A) : S_ A := fun st => (Next a, st).
Definition exit {A} (res : bool) : S_ A := fun st => (Exit res, st).
Definition crash {A} (msg : string) : S_ A := fun st => (Crash msg, st).
Definition bindS {A B} (c : S_ A) (k : A -> S_ B) : S_ B :=
  fun st =>
    match c st with
    | (Next a, st') => k a st'
    | (Exit res, st') => (Exit res, st')
    | (Crash msg, st') => (Crash msg, st')
    | (Diverge, st') => (Diverge, st')
    end.

Notation "'let+' x ':=' c 'in' k" := (bindS c (fun x => k))
  (at level 10, x name, c at level 100, k at level 200).

Definition get_batch : S_ Batch := fun st => (Next (fst st), st).
Definition modify_batch (f : Batch -> Batch) : S_ unit :=
  fun st => (Next tt, (f (fst st), snd st)).
Definition modify_conn (f : Connection -> Connection) : S_ unit :=
  fun st => (Next tt, (fst st, f (snd st))).

(** [if v, err = session.X(); err != nil { b.err = err; return false }] *)
Definition try_read {A} (c : M A) : S_ A :=
  fun st =>
    let '(b, conn) := st in
    match rsqlib.with_mr c (session conn) with
    | (Ok a, s') => (Next a, (b, set_session s' conn))
    | (Err e, s') => (Exit false, (set_err (Some e) b, set_session s' conn))
    | (Panic msg, s') => (Crash msg, (b, set_session s' conn))
    end.

(** [if err = session.Fill_row_with_values(row); err != nil { ... }]: the
    fields of [row] are updated in place, [keep] stores them back. *)
Definition try_fill (row : list rsqlib.IField)
    (keep : list rsqlib.IField -> Batch -> Batch) : S_ unit :=
  fun st =>
    let '(b, conn) := st in
    let s := session conn in
    let '(r, row', m') := rsqlib.Fill_row_with_values row (rsqlib.mr s) in
    let s' := {| rsqlib.mr := m'; rsqlib.ticker_running := rsqlib.ticker_running s;
                 rsqlib.ticker_done_closed := rsqlib.ticker_done_closed s;
                 rsqlib.conn_closed := rsqlib.conn_closed s |} in
    match r with
    | Ok _ => (Next tt, (keep row' b, set_session s' conn))
    | Err e => (Exit false, (set_err (Some e) (keep row' b), set_session s' conn))
    | Panic msg => (Crash msg, (keep row' b, set_session s' conn))
    end.

Definition keep_record (row' : list rsqlib.IField) (b : Batch) : Batch :=
  match record b with
  | None => b
  | Some _ => set_record (Some row') b
  end.

Definition record_fields (b : Batch) : list rsqlib.IField :=
  match record b with None => [] | Some row => row end.

(** One turn of the [for] loop of [step]: read a response tag and act on it. *)
Definition step_iter (option : stepOption) : S_ unit :=
  let+ resp := try_read rsqlib.Read_response_type in
  if resp =? rsqlib.RESTYP_RECORD_LAYOUT then
    let+ colnameList := try_read rsqlib.Create_colname_list in
    let+ _ := modify_batch (set_colnameList (Some colnameList)) in
    let+ _ := modify_batch (set_colnameMap (Some (make_colnameMap colnameList))) in
    let+ record := try_read rsqlib.Create_row in
    let+ _ := modify_batch (set_record (Some record)) in
    let+ _ := modify_batch (set_recordCount 0) in
    let+ _ := modify_batch (fun b => set_recordsetCount (to_int64 (recordsetCount b + 1)) b) in
    let+ _ := modify_batch (set_status sTATUS_RECORD_LAYOUT_AVAILABLE) in
    if is_NEXT_RECORD option then exit false else next tt
  else if resp =? rsqlib.RESTYP_RECORD then
    let+ b := get_batch in
    let+ _ := try_fill (record_fields b) keep_record in
    let+ _ := modify_batch (fun b => set_recordCount (to_int64 (recordCount b + 1)) b) in
    let+ _ := modify_batch (set_status sTATUS_RECORD_AVAILABLE) in
    if is_NEXT_RECORD option then exit true else next tt
  else if resp =? rsqlib.RESTYP_RECORD_FINISHED then
    let+ recordCount' := try_read rsqlib.Read_int64 in
    let+ b := get_batch in
    if negb (recordCount' =? recordCount b) then
      let+ _ := modify_batch
                  (set_err (Some (fmt_Errorf "Batch: recordcount mismatch (RSQL bug)."
                                             [recordCount'; recordCount b]))) in
      exit false
    else
      let+ _ := modify_batch (set_colnameList None) in
      let+ _ := modify_batch (set_colnameMap None) in
      let+ _ := modify_batch (set_record None) in
      let+ _ := modify_batch (set_recordCount recordCount') in
      modify_batch (set_status sTATUS_RECORD_END)
  else if resp =? rsqlib.RESTYP_EXECUTION_FINISHED then
    let+ execRecordCount' := try_read rsqlib.Read_int64 in
    modify_batch (set_execRecordCount execRecordCount')
  else if resp =? rsqlib.RESTYP_PRINT then
    let+ row := try_read rsqlib.Create_row in
    try_fill row (fun _ b => b)
  else if resp =? rsqlib.RESTYP_MESSAGE then
    let+ msg_string := try_read rsqlib.Read_string in
    next tt
  else if resp =? rsqlib.RESTYP_ERROR then
    let+ error_info := try_read rsqlib.Read_Error_info in
    modify_batch (set_err (Some (batch_error (newBatchError error_info))))
  else if resp =? rsqlib.RESTYP_BATCH_END then
    let+ rc' := try_read rsqlib.Read_batch_end_RC in
    let+ _ := modify_batch (set_rc rc') in
    let+ _ := modify_batch (set_status sTATUS_BATCH_END) in
    let+ _ := modify_conn (set_isDirty false) in
    exit false
  else crash "impossible".

Fixpoint step_loop (fuel : nat) (option : stepOption) : S_ unit :=
  match fuel with
  | O => fun st => (Diverge, st)
  | S fuel' =>
      let+ _ := step_iter option in
      step_loop fuel' option
  end.

(** What a call of a method of the batch comes to: it returns, it panics,
    or the loop inside it runs out of the fuel it is given. *)
Inductive call (A : Type) :=
| Returned (res : A)
| Panicked (msg : string)
| OutOfFuel.
Arguments Returned {A} res.
Arguments Panicked {A} msg.
Arguments OutOfFuel {A}.

Definition unread (conn : Connection) : nat :=
  length (br (rsqlib.mr (session conn))).

(** [step]. Every turn of the loop that does not leave it takes at least one
    byte from the connection, so one more turn than there are unread bytes
    is all the loop can make. *)
Definition step (option : stepOption) (st : Batch * Connection)
  : call bool * (Batch * Connection) :=
  match err (fst st) with
  | Some _ => (Returned false, st)
  | None =>
      match step_loop (S (unread (snd st))) option st with
      | (Exit res, st') => (Returned res, st')
      | (Crash msg, st') => (Panicked msg, st')
      | (Next _, st') | (Diverge, st') => (OutOfFuel, st')
      end
  end.

Definition Next_ (st : Batch * Connection) : call bool * (Batch * Connection) :=
  step sTEP_NEXT_RECORD st.

(** [Finalize] returns [b.err]. *)
Definition Finalize (st : Batch * Connection)
  : call (option error) * (Batch * Connection) :=
  match err (fst st) with
  | Some e => (Returned (Some e), st)
  | None =>
      if negb (status_ (fst st) =? sTATUS_BATCH_END) then
        match step sTEP_FINALIZE st with
        | (Returned _, st') => (Returned (err (fst st')), st')
        | (Panicked msg, st') => (Panicked msg, st')
        | (OutOfFuel, st') => (OutOfFuel, st')
        end
      else (Returned (err (fst st)), st)
  end.

(** *** Column getters *)

Definition ColCount (b : Batch) : Z := len (record_fields b).

(** [b.record[i]]: indexing outside the slice panics. *)
Definition field_at (b : Batch) (i : Z) : result rsqlib.IField :=
  if i <? 0 then Panic "index out of range"
  else match record_fields b !! Z.to_nat i with
       | Some field => Ok field
       | None => Panic "index out of range"
       end.

Definition with_field {A} (b : Batch) (i : Z) (k : rsqlib.IField -> result A) : result A :=
  match field_at b i with
  | Ok field => k field
  | Err e => Err e
  | Panic msg => Panic msg
  end.

(** [strconv.ParseBool]: [None] is its error. *)
Definition strconv_ParseBool (str : string) : option bool :=
  if existsb (String.eqb str) ["1"; "t"; "T"; "TRUE"; "true"; "True"] then Some true
  else if existsb (String.eqb str) ["0"; "f"; "F"; "FALSE"; "false"; "False"] then Some false
  else None.

(** [val != 0] on a float64 given by its bits: only +0 and -0 equal 0. *)
Definition float64_nonzero (bits : Z) : bool :=
  negb ((bits =? 0) || (bits =? 2 ^ 63)).

Definition ColBool (b : Batch) (i : Z) : result (bool * bool) :=
  with_field b i (fun field =>
    if rsqlib.IsNull field then Ok (false, true)
    else match field with
         | rsqlib.F_Varchar f =>
             match strconv_ParseBool (string_of_bytes (rsqlib.Varchar.Val f)) with
             | None => Ok (false, false)
             | Some res => Ok (res, false)
             end
         | rsqlib.F_Bit f => Ok (negb (rsqlib.Bit.Val f =? 0), false)
         | rsqlib.F_Tinyint f => Ok (negb (rsqlib.Tinyint.Val f =? 0), false)
         | rsqlib.F_Smallint f => Ok (negb (rsqlib.Smallint.Val f =? 0), false)
         | rsqlib.F_Int f => Ok (negb (rsqlib.Int.Val f =? 0), false)
         | rsqlib.F_Bigint f => Ok (negb (rsqlib.Bigint.Val f =? 0), false)
         | rsqlib.F_Float f => Ok (float64_nonzero (rsqlib.Float.Val f), false)
         | _ => Panic "record field cannot be converted to bool."
         end).

Definition ColBinary (b : Batch) (i : Z) : result (list byte * bool) :=
  with_field b i (fun field =>
    if rsqlib.IsNull field then Ok ([], true)
    else match field with
         | rsqlib.F_Varbinary f => Ok (rsqlib.Varbinary.Val f, false)
         | _ => Panic "record field is not a binary datatype."
         end).

Definition ColString `{GoRuntime} (b : Batch) (i : Z) : result (string * bool) :=
  with_field b i (fun field =>
    if rsqlib.IsNull field then Ok (EmptyString, true)
    else match field with
         | rsqlib.F_Varchar f => Ok (string_of_bytes (rsqlib.Varchar.Val f), false)
         | rsqlib.F_Money f => Ok (string_of_bytes (rsqlib.Money.Val f), false)
         | rsqlib.F_Numeric f => Ok (string_of_bytes (rsqlib.Numeric.Val f), false)
         | _ => Ok (rsqlib.String field, false)
         end).

Definition ColInt64 (b : Batch) (i : Z) : result (Z * bool) :=
  with_field b i (fun field =>
    if rsqlib.IsNull field then Ok (0, true)
    else match field with
         | rsqlib.F_Bit f => Ok (rsqlib.Bit.Val f, false)
         | rsqlib.F_Tinyint f => Ok (rsqlib.Tinyint.Val f, false)
         | rsqlib.F_Smallint f => Ok (rsqlib.Smallint.Val f, false)
         | rsqlib.F_Int f => Ok (rsqlib.Int.Val f, false)
         | rsqlib.F_Bigint f => Ok (rsqlib.Bigint.Val f, false)
         | _ => Panic "record field is not an integer datatype."
         end).

Definition ColInt (b : Batch) (i : Z) : result (Z * bool) := ColInt64 b i.

Definition ColFloat64 (b : Batch) (i : Z) : result (Z * bool) :=
  with_field b i (fun field =>
    if rsqlib.IsNull field then Ok (0, true)
    else match field with
         | rsqlib.F_Float f => Ok (rsqlib.Float.Val f, false)
         | _ => Panic "record field is not a float datatype."
         end).

Definition ColDatetimeUTC (b : Batch) (i : Z) : result (time.Time * bool) :=
  with_field b i (fun field =>
    if rsqlib.IsNull field then Ok (time.zero, true)
    else match field with
         | rsqlib.F_Date f => Ok (rsqlib.Date.Val f, false)
         | rsqlib.F_Time f => Ok (rsqlib.Time.Val f, false)
         | rsqlib.F_Datetime f => Ok (rsqlib.Datetime.Val f, false)
         | _ => Panic "record field is not a date, time or datetime datatype."
         end).

Definition LocalizeTime `{GoRuntime} (t : time.Time) : time.Time := time_Date_Local t.

Definition ColDatetime `{GoRuntime} (b : Batch) (i : Z) : result (time.Time * bool) :=
  with_field b i (fun field =>
    if rsqlib.IsNull field then Ok (time.zero, true)
    else match field with
         | rsqlib.F_Time f => Ok (rsqlib.Time.Val f, false)
         | _ =>
             match ColDatetimeUTC b i with
             | Ok (valUTC, isnull) =>
                 if isnull then Panic "impossible: DATE or DATETIME is NULL."
                 else Ok (LocalizeTime valUTC, isnull)
             | Err e => Err e
             | Panic msg => Panic msg
             end
         end).

(** [ColNumeric]. A panic carries the format string of its message. *)
Definition ColNumeric `{GoRuntime} (b : Batch) (i : Z) : result (string * bool) :=
  with_field b i (fun field =>
    if rsqlib.IsNull field then Ok (EmptyString, true)
    else match field with
         | rsqlib.F_Bit _ | rsqlib.F_Tinyint _ | rsqlib.F_Smallint _
         | rsqlib.F_Int _ | rsqlib.F_Bigint _ => Ok (rsqlib.String field, false)
         | rsqlib.F_Money f => Ok (string_of_bytes (rsqlib.Money.Val f), false)
         | rsqlib.F_Numeric f => Ok (string_of_bytes (rsqlib.Numeric.Val f), false)
         | _ => Panic "record field %d is not an integer, money or numeric datatype."
         end).

Definition ColIsNull (b : Batch) (i : Z) : result bool :=
  with_field b i (fun field => Ok (rsqlib.IsNull field)).

(** *** The datatype of a column *)

Definition Datatype := Z.

(** [VOID Datatype = 1 << iota] and the thirteen constants after it. *)
Definition VOID : Datatype := 1.
Definition VARBINARY : Datatype := 2.
Definition VARCHAR : Datatype := 4.
Definition BIT : Datatype := 8.
Definition TINYINT : Datatype := 16.
Definition SMALLINT : Datatype := 32.
Definition INT : Datatype := 64.
Definition BIGINT : Datatype := 128.
Definition MONEY : Datatype := 256.
Definition NUMERIC : Datatype := 512.
Definition FLOAT : Datatype := 1024.
Definition DATE : Datatype := 2048.
Definition TIME : Datatype := 4096.
Definition DATETIME : Datatype := 8192.

Definition Datatype_String (dt : Datatype) : result string :=
  if dt =? VOID then Ok "VOID"
  else if dt =? VARBINARY then Ok "VARBINARY"
  else if dt =? VARCHAR then Ok "VARCHAR"
  else if dt =? BIT then Ok "BIT"
  else if dt =? TINYINT then Ok "TINYINT"
  else if dt =? SMALLINT then Ok "SMALLINT"
  else if dt =? INT then Ok "INT"
  else if dt =? BIGINT then Ok "BIGINT"
  else if dt =? MONEY then Ok "MONEY"
  else if dt =? NUMERIC then Ok "NUMERIC"
  else if dt =? FLOAT then Ok "FLOAT"
  else if dt =? DATE then Ok "DATE"
  else if dt =? TIME then Ok "TIME"
  else if dt =? DATETIME then Ok "DATETIME"
  else Panic "unknown datatype %d".

(** [ColDatatype]: the switch has no case for [DTYPE_BOOLEAN]. *)
Definition ColDatatype (b : Batch) (i : Z) : result Datatype :=
  with_field b i (fun field =>
    let dt := rsqlib.Datatype field in
    if dt =? rsqlib.DTYPE_VOID then Ok VOID
    else if dt =? rsqlib.DTYPE_VARBINARY then Ok VARBINARY
    else if dt =? rsqlib.DTYPE_VARCHAR then Ok VARCHAR
    else if dt =? rsqlib.DTYPE_BIT then Ok BIT
    else if dt =? rsqlib.DTYPE_TINYINT then Ok TINYINT
    else if dt =? rsqlib.DTYPE_SMALLINT then Ok SMALLINT
    else if dt =? rsqlib.DTYPE_INT then Ok INT
    else if dt =? rsqlib.DTYPE_BIGINT then Ok BIGINT
    else if dt =? rsqlib.DTYPE_MONEY then Ok MONEY
    else if dt =? rsqlib.DTYPE_NUMERIC then Ok NUMERIC
    else if dt =? rsqlib.DTYPE_FLOAT then Ok FLOAT
    else if dt =? rsqlib.DTYPE_DATE then Ok DATE
    else if dt =? rsqlib.DTYPE_TIME then Ok TIME
    else if dt =? rsqlib.DTYPE_DATETIME then Ok DATETIME
    else Panic "unknown datatype in field %d.").

(** *** What a batch tells about itself *)

Definition String (b : Batch) : string := text b.

Definition Columns (b : Batch) : result (option (list string)) :=
  if negb ((status_ b =? sTATUS_RECORD_LAYOUT_AVAILABLE)
           || (status_ b =? sTATUS_RECORD_AVAILABLE))
  then Err (fmt_Errorf "Column list not available, no recordset found." [])
  else Ok (colnameList b).

Definition RecordCount (b : Batch) : Z := recordCount b.
Definition ExecRecordCount (b : Batch) : Z := execRecordCount b.
Definition Err_ (b : Batch) : option error := err b.
Definition Rc (b : Batch) : Z := rc b.

Definition ExistsNextRecordset (b : Batch) : bool :=
  status_ b =? sTATUS_RECORD_LAYOUT_AVAILABLE.

(** *** Scan

    A destination is a pointer of one of the supported types, or anything
    else. The variables the pointers lead to live in a store indexed by
    address, so that two destinations may point to the same variable. *)
Inductive dest_kind :=
| K_bool | K_bytes | K_string
| K_int8 | K_int16 | K_int32 | K_int64 | K_int
| K_uint8 | K_uint16 | K_uint32 | K_uint64 | K_uint
| K_float64 | K_Time.

Inductive destination :=
| Pointer (k : dest_kind) (addr : nat)
| Unsupported.

Inductive value :=
| V_bool (v : bool)
| V_bytes (v : list byte)
| V_string (v : string)
| V_int (v : Z)
| V_float64 (bits : Z)
| V_Time (v : time.Time).

Definition fst_of {A B} (r : result (A * bool)) (k : A -> result B) : result B :=
  match r with
  | Ok (val, _) => k val
  | Err e => Err e
  | Panic msg => Panic msg
  end.

(** An integer destination: [lo <= val <= hi] or the scan fails. *)
Definition scan_int (b : Batch) (i : Z) (bounds : option Z * option Z) (tname : string)
  : result value :=
  fst_of (ColInt64 b i) (fun val =>
    let below := match fst bounds with Some lo => val <? lo | None => false end in
    let above := match snd bounds with Some hi => val >? hi | None => false end in
    if below || above
    then Err (fmt_Errorf ("scan: column %d to " ++ tname ++ ": overflow.") [i])
    else Ok (V_int val)).

(** One case of the type switch of [Scan]: the value assigned through the
    destination for column [i]. *)
Definition scan_value `{GoRuntime} (b : Batch) (i : Z) (k : dest_kind) : result value :=
  match k with
  | K_bool => fst_of (ColBool b i) (fun val => Ok (V_bool val))
  | K_bytes => fst_of (ColBinary b i) (fun val => Ok (V_bytes val))
  | K_string => fst_of (ColString b i) (fun val => Ok (V_string val))
  | K_int8 => scan_int b i (Some MinInt8, Some MaxInt8) "int8"
  | K_int16 => scan_int b i (Some MinInt16, Some MaxInt16) "int16"
  | K_int32 => scan_int b i (Some MinInt32, Some MaxInt32) "int32"
  | K_int64 => fst_of (ColInt64 b i) (fun val => Ok (V_int val))
  | K_int => fst_of (ColInt b i) (fun val => Ok (V_int val))
  | K_uint8 => scan_int b i (Some 0, Some MaxUint8) "uint8"
  | K_uint16 => scan_int b i (Some 0, Some MaxUint16) "uint16"
  | K_uint32 => scan_int b i (Some 0, Some MaxUint32) "uint32"
  | K_uint64 => scan_int b i (Some 0, None) "uint64"
  | K_uint => scan_int b i (Some 0, None) "uint64"
  | K_float64 => fst_of (ColFloat64 b i) (fun val => Ok (V_float64 val))
  | K_Time => fst_of (ColDatetime b i) (fun val => Ok (V_Time val))
  end.

Definition scan_column `{GoRuntime} (b : Batch) (i : Z) (dt : destination)
  : result (nat * value) :=
  match dt with
  | Pointer k addr =>
      match scan_value b i k with
      | Ok v => Ok (addr, v)
      | Err e => Err e
      | Panic msg => Panic msg
      end
  | Unsupported => Err (fmt_Errorf "scan: destination type not supported." [])
  end.

Fixpoint scan_loop `{GoRuntime} (b : Batch) (i : Z) (dest : list destination)
    (h : gmap nat value) : result unit * gmap nat value :=
  match dest with
  | [] => (Ok tt, h)
  | dt :: tl =>
      match scan_column b i dt with
      | Ok (addr, v) => scan_loop b (i + 1) tl (<[addr := v]> h)
      | Err e => (Err e, h)
      | Panic msg => (Panic msg, h)
      end
  end.

Definition Scan `{GoRuntime} (b : Batch) (dest : list destination) (h : gmap nat value)
  : result unit * gmap nat value :=
  match err b with
  | Some e => (Err e, h)
  | None =>
      if negb (status_ b =? sTATUS_RECORD_AVAILABLE) then
        (Err (fmt_Errorf "scan: record not available." []), h)
      else if negb (len dest =? ColCount b) then
        (Err (fmt_Errorf
                "scan: dest arguments count must be the same as record columns count (%d)."
                [ColCount b]), h)
      else scan_loop b 0 dest h
  end.

End drv.

(** * Specification-side definitions and sample data *)

(** ** Encoding tables and prefix families *)

(** The width the format table of the specification gives for an unsigned
    value. *)
Definition uint_band_width (v : Z) : Z :=
  if v <=? 127 then 1
  else if v <=? 255 then 2
  else if v <=? 65535 then 3
  else if v <=? 4294967295 then 5
  else 9.

(** The width and the leading byte [AppendInt64] gives a value that is not
    negative: a positive fixint up to 127, then the signed formats. *)
Definition int_nonneg_width (v : Z) : Z :=
  if v <=? 127 then 1
  else if v <=? 32767 then 3
  else if v <=? 2147483647 then 5
  else 9.

Definition int_nonneg_prefix (v : Z) : byte :=
  if v <=? 127 then uint8 v
  else if v <=? 32767 then msgp.M_INT16
  else if v <=? 2147483647 then msgp.M_INT32
  else msgp.M_INT64.

Inductive prefix_family :=
| PositiveFixint
| UintPrefix
| NegativeFixint
| IntPrefix.

Definition in_family (fam : prefix_family) (prefix : byte) : Prop :=
  match fam with
  | PositiveFixint => 0 <= u8 prefix <= 0x7f
  | UintPrefix =>
      prefix ∈ [msgp.M_UINT8; msgp.M_UINT16; msgp.M_UINT32; msgp.M_UINT64]
  | NegativeFixint => 0xe0 <= u8 prefix <= 0xff
  | IntPrefix =>
      prefix ∈ [msgp.M_INT8; msgp.M_INT16; msgp.M_INT32; msgp.M_INT64]
  end.

Definition family_type (fam : prefix_family) : msgp.Type_ :=
  match fam with
  | UintPrefix => msgp.UintType
  | PositiveFixint | NegativeFixint | IntPrefix => msgp.IntType
  end.

(** A successful string header means the next type is Str, not Nil. *)
Definition starts_string (prefix : byte) : bool :=
  msgp.byte_eqb (msgp.byte_and prefix msgp.PREFIX_FIXSTR_MASK) msgp.M_FIXSTR_BASE
  || msgp.is_in prefix [msgp.M_STR8; msgp.M_STR16; msgp.M_STR32].

(** ** Strings and the error record on the wire *)

(** A string on the wire, as [AppendString] writes it. *)
Definition wire_string (s : string) : list byte :=
  msgp.AppendStringHeader [] (len (bytes_of_string s)) ++ bytes_of_string s.

(** A pair of the error map whose key is one of the eleven field names. *)
Inductive error_field :=
| E_src_file (v : string)
| E_src_line_no (v : Z)
| E_src_funcname (v : string)
| E_src_backtrace (v : string)
| E_category (v : string)
| E_message (v : string)
| E_severity (v : string)
| E_state (v : Z)
| E_text (v : string)
| E_line_no (v : Z)
| E_line_pos (v : Z).

Definition field_key (f : error_field) : string :=
  match f with
  | E_src_file _ => "src_file"
  | E_src_line_no _ => "src_line_no"
  | E_src_funcname _ => "src_funcname"
  | E_src_backtrace _ => "src_backtrace"
  | E_category _ => "category"
  | E_message _ => "message"
  | E_severity _ => "severity"
  | E_state _ => "state"
  | E_text _ => "text"
  | E_line_no _ => "line_no"
  | E_line_pos _ => "line_pos"
  end.

Definition field_value (f : error_field) : string + Z :=
  match f with
  | E_src_file v | E_src_funcname v | E_src_backtrace v | E_category v
  | E_message v | E_severity v | E_text v => inl v
  | E_src_line_no v | E_state v | E_line_no v | E_line_pos v => inr v
  end.

(** The pair on the wire: the key as a string, then the value as a string
    or as an integer in the signed encoding. *)
Definition wire_field (f : error_field) : list byte :=
  wire_string (field_key f)
    ++ match field_value f with
       | inl v => wire_string v
       | inr v => msgp.AppendInt64 [] v
       end.

Definition field_fits (f : error_field) : Prop :=
  match field_value f with
  | inl v => len (bytes_of_string v) <= MaxUint32
  | inr v => MinInt64 <= v <= MaxInt64
  end.

(** What the pair means for the record. *)
Definition store_field (e : rsqlib.Error_info) (f : error_field) : rsqlib.Error_info :=
  match f with
  | E_src_file v => rsqlib.set_src_file v e
  | E_src_line_no v => rsqlib.set_src_line_no v e
  | E_src_funcname v => rsqlib.set_src_funcname v e
  | E_src_backtrace v => rsqlib.set_src_backtrace v e
  | E_category v => rsqlib.set_category v e
  | E_message v => rsqlib.set_message v e
  | E_severity v => rsqlib.set_severity v e
  | E_state v => rsqlib.set_state v e
  | E_text v => rsqlib.set_text v e
  | E_line_no v => rsqlib.set_line_no v e
  | E_line_pos v => rsqlib.set_line_pos v e
  end.

Definition wire_error_map (fields : list error_field) : list byte :=
  msgp.AppendMapHeader [] (len fields) ++ concat (map wire_field fields).

Definition known_key (key : string) : bool :=
  existsb (String.eqb key)
    ["src_file"; "src_line_no"; "src_funcname"; "src_backtrace"; "category";
     "message"; "severity"; "state"; "text"; "line_no"; "line_pos"].

(** ** Batches and connections *)

(** The connection with its reader advanced to [r]. *)
Definition conn_at (r : msgp.Reader) (conn : drv.Connection) : drv.Connection :=
  drv.set_session
    {| rsqlib.mr := r;
       rsqlib.ticker_running := rsqlib.ticker_running (drv.session conn);
       rsqlib.ticker_done_closed := rsqlib.ticker_done_closed (drv.session conn);
       rsqlib.conn_closed := rsqlib.conn_closed (drv.session conn) |} conn.

Definition reader_of (conn : drv.Connection) : msgp.Reader :=
  rsqlib.mr (drv.session conn).

(** A batch that has just been sent, and a connection on which the server's
    answer [stream] is waiting. *)
Definition batch_sent (text : string) : drv.Batch :=
  {| drv.text := text; drv.status_ := drv.sTATUS_BATCH_SENT; drv.recordsetCount := 0;
     drv.colnameList := None; drv.colnameMap := None; drv.record := None;
     drv.recordCount := 0; drv.execRecordCount := 0; drv.err := None; drv.rc := 0 |}.

Definition conn_with (stream : list byte) : drv.Connection :=
  {| drv.session := rsqlib.new_Session {| msgp.br := stream; msgp.scratch := [] |};
     drv.isDirty := true |}.

(** RecordLayout, the names a, b, a and the empty name, and a layout of four Int
    columns. *)
Definition layout_abae : list byte :=
  [Byte.x03;
   Byte.x94; Byte.xa1; Byte.x61; Byte.xa1; Byte.x62; Byte.xa1; Byte.x61; Byte.xa0;
   Byte.x94; Byte.x91; Byte.x0c; Byte.x91; Byte.x0c; Byte.x91; Byte.x0c;
   Byte.x91; Byte.x0c].

(** What [step] makes of a stored count [n] on RecordFinished. *)
Definition record_finished (n : Z) (b : drv.Batch) : drv.Batch :=
  {| drv.text := drv.text b;
     drv.status_ := drv.sTATUS_RECORD_END;
     drv.recordsetCount := drv.recordsetCount b;
     drv.colnameList := None;
     drv.colnameMap := None;
     drv.record := None;
     drv.recordCount := n;
     drv.execRecordCount := drv.execRecordCount b;
     drv.err := drv.err b;
     drv.rc := drv.rc b |}.

Definition recordcount_mismatch (n : Z) (b : drv.Batch) : drv.Batch :=
  drv.set_err
    (Some (fmt_Errorf "Batch: recordcount mismatch (RSQL bug)." [n; drv.recordCount b])) b.

(** ** Scan: assignments through the destinations *)

(** The assignments [*dt = val] made through the destinations, in order. *)
Definition assign (h : gmap nat drv.value) (w : nat * drv.value) : gmap nat drv.value :=
  <[w.1 := w.2]> h.


(** [Scan] failed before the loop over the destinations: the store [h'] it
    leaves is the store [h] it was given. *)
Definition failed_before_loop
    (b : drv.Batch) (dest : list drv.destination) (e : error)
    (h h' : gmap nat drv.value) : Prop :=
  h' = h
  /\ (drv.err b = Some e
      \/ drv.status_ b <> drv.sTATUS_RECORD_AVAILABLE
      \/ len dest <> drv.ColCount b).


(** A runtime to run examples with: a machine whose local zone is UTC.
    Numbers are printed in decimal, bytes in hexadecimal; floats and times
    are not formatted. *)
Definition hex_digit (n : Z) : string :=
  String.substring (Z.to_nat n) 1 "0123456789abcdef".

Definition sample_runtime : GoRuntime :=
  {| strconv_FormatInt := fun v => NilZero.string_of_int (Z.to_int v);
     strconv_FormatFloat := fun _ => EmptyString;
     fmt_Sprintf_0x := fun v =>
       String.append "0x"
         (String.concat EmptyString
            (map (fun c => String.append (hex_digit (u8 c / 16)) (hex_digit (u8 c mod 16))) v));
     Time_Format := fun _ layout => layout;
     time_Date_Local := fun t =>
       {| time.sec := time.sec t; time.nsec := time.nsec t; time.loc := time.Local |} |}.

(** A row [7, 1000] of two Int columns is available. *)
Definition batch_7_1000 : drv.Batch :=
  {| drv.text := "select"; drv.status_ := drv.sTATUS_RECORD_AVAILABLE;
     drv.recordsetCount := 1;
     drv.colnameList := Some ["x"; "y"]; drv.colnameMap := Some ∅;
     drv.record :=
       Some [rsqlib.F_Int {| rsqlib.Int.Is_Null := false; rsqlib.Int.Val := 7 |};
             rsqlib.F_Int {| rsqlib.Int.Is_Null := false; rsqlib.Int.Val := 1000 |}];
     drv.recordCount := 1; drv.execRecordCount := 0; drv.err := None; drv.rc := 0 |}.

(** ** Progress of the readers and of the message loop *)

Definition shrinks {A} (c : msgp.M A) : Prop :=
  forall m r m', c m = (r, m') -> (length (msgp.br m') <= length (msgp.br m))%nat.

Definition consumes {A} (c : msgp.M A) : Prop :=
  forall m a m', c m = (Ok a, m') -> (length (msgp.br m') < length (msgp.br m))%nat.

Definition steady {A} (c : drv.S_ A) : Prop :=
  forall st o st',
    c st = (o, st') ->
    o <> drv.Diverge /\ (drv.unread (snd st') <= drv.unread (snd st))%nat.

Definition advances {A} (c : drv.S_ A) : Prop :=
  forall st a st', c st = (drv.Next a, st') ->
                   (drv.unread (snd st') < drv.unread (snd st))%nat.

(** The loop has ended: [step] returns or panics. *)
Definition ended {A} (o : drv.outcome A) : Prop :=
  match o with
  | drv.Exit _ | drv.Crash _ => True
  | drv.Next _ | drv.Diverge => False
  end.

(** ** Sample data *)

(** The error record of a division by zero at line 4, column 12. *)
Definition divide_by_zero : list error_field :=
  [E_state 1; E_text "divide by zero"; E_line_no 4; E_line_pos 12].

(** A map of two pairs: [{"zz": "yy", "state": 5}]. *)
Definition map_zz_state : list byte :=
  msgp.AppendMapHeader [] 2
    ++ wire_string "zz" ++ wire_string "yy"
    ++ wire_string "state" ++ msgp.AppendInt64 [] 5.

(** A fixed-length column of 5 characters. *)
Definition char5 : rsqlib.Varchar.t :=
  {| rsqlib.Varchar.Precision := 5; rsqlib.Varchar.Fixlen := true;
     rsqlib.Varchar.Is_Null := true; rsqlib.Varchar.Val := [] |}.

Definition reader_on (stream : list byte) : msgp.Reader :=
  {| msgp.br := stream; msgp.scratch := [] |}.

(** "hi" and "héllo" (the second character takes two bytes) as msgpack
    strings. *)
Definition str_hi : list byte := [Byte.xa2; Byte.x68; Byte.x69].
Definition str_hello : list byte :=
  [Byte.xa6; Byte.x68; Byte.xc3; Byte.xa9; Byte.x6c; Byte.x6c; Byte.x6f].

(** A batch that has counted three rows, and one that holds an error. *)
Definition batch_3_rows : drv.Batch :=
  {| drv.text := "select"; drv.status_ := drv.sTATUS_RECORD_AVAILABLE;
     drv.recordsetCount := 1;
     drv.colnameList := Some ["x"]; drv.colnameMap := Some ∅;
     drv.record := Some [rsqlib.F_Int {| rsqlib.Int.Is_Null := false; rsqlib.Int.Val := 7 |}];
     drv.recordCount := 3; drv.execRecordCount := 0; drv.err := None; drv.rc := 0 |}.

Definition batch_failed : drv.Batch := drv.set_err (Some io_EOF) batch_3_rows.

(** S1: ExecutionFinished(3) and BatchEnd(0). *)
Definition stream_S1 : list byte := [Byte.x07; Byte.x03; Byte.x0e; Byte.x00].

(** S3: the error record of [divide_by_zero], then BatchEnd(0). *)
Definition stream_S3 : list byte :=
  [Byte.x0c] ++ wire_error_map divide_by_zero ++ [Byte.x0e; Byte.x00].

(** S6: a Datetime value [719162 days, 3600 seconds, 500000000 ns]. *)
Definition datetime_S6 : list byte :=
  [Byte.x93] ++ msgp.AppendUint64 [] 719162 ++ msgp.AppendUint64 [] 3600
    ++ msgp.AppendUint64 [] 500000000.

(** ** Values on the wire *)

(** [decodes c wire v]: run on a stream that starts with [wire], the reading
    function [c] returns [v] and leaves the reader just behind [wire],
    whatever follows on the stream and whatever the scratch buffer holds. *)
Definition decodes {A} (c : msgp.M A) (wire : list byte) (v : A) : Prop :=
  forall rest s, exists s',
    c {| msgp.br := wire ++ rest; msgp.scratch := s |}
    = (Ok v, {| msgp.br := rest; msgp.scratch := s' |}).

(** [refuses c wire e]: [c] takes all of [wire] from the stream and returns
    the error [e]. *)
Definition refuses {A} (c : msgp.M A) (wire : list byte) (e : error) : Prop :=
  forall rest s, exists s',
    c {| msgp.br := wire ++ rest; msgp.scratch := s |}
    = (Err e, {| msgp.br := rest; msgp.scratch := s' |}).

(** [stops_at c wire e]: [c] returns the error [e] after the first byte of
    [wire]; the bytes behind it stay on the stream. *)
Definition stops_at {A} (c : msgp.M A) (wire : list byte) (e : error) : Prop :=
  forall rest s, exists s',
    c {| msgp.br := wire ++ rest; msgp.scratch := s |}
    = (Err e, {| msgp.br := tl wire ++ rest; msgp.scratch := s' |}).

(** The width of a signed value on the wire, as the table of [Test_int64]
    has it. *)
Definition int_band_width (v : Z) : Z :=
  if (-32 <=? v) && (v <=? 127) then 1
  else if (-128 <=? v) && (v <? -32) then 2
  else if (-32768 <=? v) && (v <=? 32767) then 3
  else if (-2147483648 <=? v) && (v <=? 2147483647) then 5
  else 9.

(** The widths of the four headers. *)
Definition str_header_width (sz : Z) : Z :=
  if sz <=? 31 then 1 else if sz <=? 255 then 2 else if sz <=? 65535 then 3 else 5.

Definition bin_header_width (sz : Z) : Z :=
  if sz <=? 255 then 2 else if sz <=? 65535 then 3 else 5.

Definition seq_header_width (sz : Z) : Z :=
  if sz <=? 15 then 1 else if sz <=? 65535 then 3 else 5.

(** The prefix byte of an unsigned value above 127. *)
Definition uint_prefix (v : Z) : byte :=
  if v <=? 255 then msgp.M_UINT8
  else if v <=? 65535 then msgp.M_UINT16
  else if v <=? 4294967295 then msgp.M_UINT32
  else msgp.M_UINT64.

(** The prefix byte of a signed value outside the fixint range. *)
Definition int_prefix (v : Z) : byte :=
  if (-128 <=? v) && (v <? -32) then msgp.M_INT8
  else if (-32768 <=? v) && (v <=? 32767) then msgp.M_INT16
  else if (-2147483648 <=? v) && (v <=? 2147483647) then msgp.M_INT32
  else msgp.M_INT64.



(** The first byte of a signed value: the value itself in the fixint range,
    else the prefix of its format. *)
Definition int_first_byte (v : Z) : byte :=
  if (-32 <=? v) && (v <=? 127) then uint8 v else int_prefix v.

(** ** Columns and their values *)

(** What a record layout fixes for a column: its datatype and, where the
    type has them, precision, scale and the fixed-length flag. *)
Definition layout (field : rsqlib.IField) : rsqlib.Dtype_t * Z * Z * bool :=
  match field with
  | rsqlib.F_Varbinary f =>
      (rsqlib.DTYPE_VARBINARY, rsqlib.Varbinary.Precision f, 0, false)
  | rsqlib.F_Varchar f =>
      (rsqlib.DTYPE_VARCHAR, rsqlib.Varchar.Precision f, 0, rsqlib.Varchar.Fixlen f)
  | rsqlib.F_Money f =>
      (rsqlib.DTYPE_MONEY, rsqlib.Money.Precision f, rsqlib.Money.Scale f, false)
  | rsqlib.F_Numeric f =>
      (rsqlib.DTYPE_NUMERIC, rsqlib.Numeric.Precision f, rsqlib.Numeric.Scale f, false)
  | _ => (rsqlib.Datatype field, 0, 0, false)
  end.

(** [panics c wire msg]: on a stream that starts with [wire], [c] panics
    with [msg]. *)
Definition panics {A} (c : msgp.M A) (wire : list byte) (msg : string) : Prop :=
  forall rest s, exists m',
    c {| msgp.br := wire ++ rest; msgp.scratch := s |} = (Panic msg, m').

(** A column, the bytes of a value for it, and the column once it has read
    them. *)
Definition column_reads (col : rsqlib.IField * list byte * rsqlib.IField) : Prop :=
  decodes (rsqlib.read_value col.1.1) col.1.2 col.2.

(** The instant [days] days after January 1 of year 1, [secs] seconds and
    [ns] nanoseconds into the day, in UTC; 719162 days lead to the Unix
    epoch. Nanoseconds beyond a second are carried. *)
Definition instant (days secs ns : Z) : time.Time :=
  {| time.sec := (days - 719162) * 86400 + secs + ns / 1000000000;
     time.nsec := ns mod 1000000000;
     time.loc := time.UTC |}.

(** The instant [secs] seconds and [ns] nanoseconds into January 1, 1900,
    the day a value of type TIME is placed on: day 693595. *)
Definition instant_1900 (secs ns : Z) : time.Time := instant 693595 secs ns.

(** The first byte of [wire] says that the value is not nil. *)
Definition not_nil_wire (wire : list byte) : Prop :=
  exists p w, wire = p :: w /\ msgp.type_of_prefix p <> msgp.NilType.

(** A row of two INT columns and the record [7, NULL]. *)
Definition record_7_NULL : list (rsqlib.IField * list byte * rsqlib.IField) :=
  [(rsqlib.F_Int {| rsqlib.Int.Is_Null := true; rsqlib.Int.Val := 0 |},
    msgp.AppendInt64 [] 7,
    rsqlib.F_Int {| rsqlib.Int.Is_Null := false; rsqlib.Int.Val := 7 |});
   (rsqlib.F_Int {| rsqlib.Int.Is_Null := false; rsqlib.Int.Val := 3 |},
    [msgp.M_NIL],
    rsqlib.F_Int {| rsqlib.Int.Is_Null := true; rsqlib.Int.Val := 0 |})].

(** ** Leaving the message loop *)

(** [wp c Q E st]: run from [st], the step [c] goes on to the next statement
    in a state that satisfies [Q], or leaves the loop with a result and a
    state that satisfy [E]. *)
Definition wp {A} (c : drv.S_ A)
    (Q : A -> drv.Batch * drv.Connection -> Prop)
    (E : bool -> drv.Batch * drv.Connection -> Prop)
    (st : drv.Batch * drv.Connection) : Prop :=
  match c st with
  | (drv.Next a, st') => Q a st'
  | (drv.Exit res, st') => E res st'
  | (drv.Crash _, _) | (drv.Diverge, _) => True
  end.

(** What the caller of [step] finds when it returns [res]: with true a
    record is available; with false an error is recorded, or the batch has
    ended and the connection is free again, or (when stepping record by
    record) the layout of a new recordset is available. *)
Definition left_with (option : drv.stepOption) (res : bool)
    (st : drv.Batch * drv.Connection) : Prop :=
  if res then
    option = drv.sTEP_NEXT_RECORD /\ drv.status_ (fst st) = drv.sTATUS_RECORD_AVAILABLE
  else
    drv.err (fst st) <> None
    \/ (drv.status_ (fst st) = drv.sTATUS_BATCH_END /\ drv.isDirty (snd st) = false)
    \/ (option = drv.sTEP_NEXT_RECORD
        /\ drv.status_ (fst st) = drv.sTATUS_RECORD_LAYOUT_AVAILABLE).

(** What [step] never touches: the text of the batch and the resources of
    the session; the dirty flag is cleared or left alone, never set; an
    error, once recorded, is never removed. *)
Definition untouched (st st' : drv.Batch * drv.Connection) : Prop :=
  drv.text (fst st') = drv.text (fst st)
  /\ rsqlib.ticker_running (drv.session (snd st'))
     = rsqlib.ticker_running (drv.session (snd st))
  /\ rsqlib.ticker_done_closed (drv.session (snd st'))
     = rsqlib.ticker_done_closed (drv.session (snd st))
  /\ rsqlib.conn_closed (drv.session (snd st')) = rsqlib.conn_closed (drv.session (snd st))
  /\ (drv.isDirty (snd st') = true -> drv.isDirty (snd st) = true)
  /\ (drv.err (fst st) <> None -> drv.err (fst st') <> None).

(** ** A batch that fails on the server *)

(** [keeps c]: whatever it comes to, the step [c] leaves alone what [step]
    never touches. *)
Definition keeps {A} (c : drv.S_ A) : Prop :=
  forall st, untouched st (snd (c st)).

(** What the server sends for a batch that fails: the error message with the
    fields of the error, then the end of the batch with its return code. *)
Definition failed_batch_stream (fields : list error_field) (rc : Z) : list byte :=
  msgp.AppendUint8 [] rsqlib.RESTYP_ERROR ++ wire_error_map fields
    ++ msgp.AppendUint8 [] rsqlib.RESTYP_BATCH_END ++ msgp.AppendInt64 [] rc.

(** The batch [b] once that stream has been read. *)
Definition failed_batch (fields : list error_field) (rc : Z) (b : drv.Batch) : drv.Batch :=
  {| drv.text := drv.text b;
     drv.status_ := drv.sTATUS_BATCH_END;
     drv.recordsetCount := drv.recordsetCount b;
     drv.colnameList := drv.colnameList b;
     drv.colnameMap := drv.colnameMap b;
     drv.record := drv.record b;
     drv.recordCount := drv.recordCount b;
     drv.execRecordCount := drv.execRecordCount b;
     drv.err :=
       Some (batch_error
               (drv.newBatchError (fold_left store_field fields rsqlib.Error_info_zero)));
     drv.rc := rc |}.

(** ** Getters and destinations *)

(** A call that returns: it does not panic and gives no error. *)
Definition returns {A} (r : result A) : Prop := exists v, r = Ok v.

(** [field] is column [i] of the current record of [b]. *)
Definition column (b : drv.Batch) (i : Z) (field : rsqlib.IField) : Prop :=
  0 <= i /\ drv.record_fields b !! Z.to_nat i = Some field.

(** A getter accepts the datatypes [types]: its call for column [i] returns
    exactly when the record has a column [i] that is NULL or of one of these
    types. *)
Definition accepts {A} (get : result A) (b : drv.Batch) (i : Z)
    (types : list rsqlib.Dtype_t) : Prop :=
  returns get
  <-> exists field,
        column b i field
        /\ (rsqlib.IsNull field = true \/ In (rsqlib.Datatype field) types).

Definition integer_types : list rsqlib.Dtype_t :=
  [rsqlib.DTYPE_BIT; rsqlib.DTYPE_TINYINT; rsqlib.DTYPE_SMALLINT; rsqlib.DTYPE_INT;
   rsqlib.DTYPE_BIGINT].

(** The zero value of the type a destination points to. *)
Definition zero_value (k : drv.dest_kind) : drv.value :=
  match k with
  | drv.K_bool => drv.V_bool false
  | drv.K_bytes => drv.V_bytes []
  | drv.K_string => drv.V_string EmptyString
  | drv.K_int8 | drv.K_int16 | drv.K_int32 | drv.K_int64 | drv.K_int
  | drv.K_uint8 | drv.K_uint16 | drv.K_uint32 | drv.K_uint64 | drv.K_uint => drv.V_int 0
  | drv.K_float64 => drv.V_float64 0
  | drv.K_Time => drv.V_Time time.zero
  end.


(** The destinations [Scan] is given as pointers of the kinds and to the
    addresses of [ps]. *)
Definition pointers (ps : list (drv.dest_kind * nat)) : list drv.destination :=
  map (fun p => drv.Pointer p.1 p.2) ps.

(** A row of two NULL columns, an INT and a VARCHAR, is available. *)
Definition batch_NULL_row : drv.Batch :=
  {| drv.text := "select"; drv.status_ := drv.sTATUS_RECORD_AVAILABLE;
     drv.recordsetCount := 1;
     drv.colnameList := Some ["x"; "y"]; drv.colnameMap := Some ∅;
     drv.record :=
       Some [rsqlib.F_Int {| rsqlib.Int.Is_Null := true; rsqlib.Int.Val := 0 |};
             rsqlib.F_Varchar {| rsqlib.Varchar.Precision := 10;
                                 rsqlib.Varchar.Fixlen := false;
                                 rsqlib.Varchar.Is_Null := true;
                                 rsqlib.Varchar.Val := [] |}];
     drv.recordCount := 1; drv.execRecordCount := 0; drv.err := None; drv.rc := 0 |}.

(** * Properties *)

(** ** Bytes and machine integers *)

Lemma u8_range (b : byte) : 0 <= u8 b <= 255.
Proof.
  unfold u8. pose proof (Byte.to_N_bounded b). lia.
Qed.

Lemma u8_uint8 (x : Z) : u8 (uint8 x) = x mod 256.
Proof.
  unfold u8, uint8.
  assert (Hr : 0 <= x mod 256 < 256) by (apply Z.mod_pos_bound; lia).
  destruct (Byte.of_N (Z.to_N (x mod 256))) as [b|] eqn:E.
  - apply Byte.to_of_N in E. rewrite E. lia.
  - apply Byte.of_N_None_iff in E. lia.
Qed.

Lemma uint8_u8 (b : byte) : uint8 (u8 b) = b.
Proof.
  unfold uint8. pose proof (u8_range b).
  rewrite Z.mod_small by lia. unfold u8. rewrite N2Z.id.
  now rewrite Byte.of_to_N.
Qed.

Lemma u8_inj (a b : byte) : u8 a = u8 b -> a = b.
Proof.
  intros H. rewrite <- (uint8_u8 a), <- (uint8_u8 b). now rewrite H.
Qed.

Lemma testbit_above (lo n i : Z) :
  0 <= lo < 2 ^ n -> 0 <= n <= i -> Z.testbit lo i = false.
Proof.
  intros Hlo Hi. apply Z.testbit_false; [lia|].
  rewrite Z.div_small; [reflexivity|].
  split; [lia|]. apply Z.lt_le_trans with (2 ^ n); [lia|].
  apply Z.pow_le_mono_r; lia.
Qed.

Lemma lor_shiftl_add (hi lo n : Z) :
  0 <= n -> 0 <= lo < 2 ^ n -> Z.lor (Z.shiftl hi n) lo = hi * 2 ^ n + lo.
Proof.
  intros Hn Hlo.
  assert (Hland : Z.land (Z.shiftl hi n) lo = 0).
  { apply Z.bits_inj'; intros i Hi. rewrite Z.land_spec, Z.bits_0.
    destruct (Z.lt_ge_cases i n) as [Hlt|Hge].
    - now rewrite Z.shiftl_spec_low by lia.
    - rewrite (testbit_above lo n i) by lia. apply andb_false_r. }
  rewrite <- Z.lxor_lor, <- Z.add_nocarry_lxor, Z.shiftl_mul_pow2; trivial.
Qed.

Lemma lor_add (x lo n : Z) :
  0 <= n -> 0 <= lo < 2 ^ n -> x mod 2 ^ n = 0 -> Z.lor x lo = x + lo.
Proof.
  intros Hn Hlo Hx.
  assert (E : x = x / 2 ^ n * 2 ^ n).
  { pose proof (Z.div_mod x (2 ^ n)). lia. }
  rewrite E at 1. rewrite <- Z.shiftl_mul_pow2 by lia.
  rewrite lor_shiftl_add by lia. lia.
Qed.

(** ** Reading from a stream that starts with a known chunk *)

Lemma len_nonneg {A} (l : list A) : 0 <= len l.
Proof. unfold len. lia. Qed.

Lemma ReadNBytes_app (dest chunk rest s : list byte) :
  msgp.ReadNBytes dest (len chunk) {| msgp.br := chunk ++ rest; msgp.scratch := s |}
  = (Ok chunk, {| msgp.br := rest; msgp.scratch := s |}).
Proof.
  unfold msgp.ReadNBytes, len. simpl.
  rewrite length_app, Nat2Z.id, take_app_length, drop_app_length.
  destruct (Z.leb_spec (Z.of_nat (length chunk)) (Z.of_nat (length chunk + length rest)));
    [reflexivity|lia].
Qed.

Lemma read_N_app (n : Z) (chunk rest s : list byte) :
  n = len chunk ->
  msgp.read_N n {| msgp.br := chunk ++ rest; msgp.scratch := s |}
  = (Ok chunk, {| msgp.br := rest; msgp.scratch := chunk |}).
Proof.
  intros ->. unfold msgp.read_N, msgp.bind, msgp.get_scratch. simpl.
  now rewrite ReadNBytes_app.
Qed.

Lemma read_prefix_cons (p : byte) (rest s : list byte) :
  msgp.read_prefix {| msgp.br := p :: rest; msgp.scratch := s |}
  = (Ok p, {| msgp.br := rest; msgp.scratch := [p] |}).
Proof.
  unfold msgp.read_prefix, msgp.bind.
  change (p :: rest) with ([p] ++ rest).
  now rewrite (read_N_app 1 [p] rest s).
Qed.

Lemma read_raw_uint8_cons (a : byte) (rest s : list byte) :
  msgp.read_raw_uint8 {| msgp.br := a :: rest; msgp.scratch := s |}
  = (Ok (u8 a), {| msgp.br := rest; msgp.scratch := [a] |}).
Proof.
  unfold msgp.read_raw_uint8, msgp.bind.
  change (a :: rest) with ([a] ++ rest).
  now rewrite (read_N_app 1 [a] rest s).
Qed.

Ltac byte_bounds :=
  repeat match goal with
         | |- context [u8 ?b] =>
             lazymatch goal with
             | _ : 0 <= u8 b <= 255 |- _ => fail
             | _ => pose proof (u8_range b)
             end
         end.

Ltac lor_to_add :=
  rewrite ?Z.shiftl_mul_pow2 by lia;
  change (2 ^ 8) with 256; change (2 ^ 16) with 65536;
  change (2 ^ 24) with 16777216; change (2 ^ 32) with 4294967296;
  change (2 ^ 40) with 1099511627776; change (2 ^ 48) with 281474976710656;
  change (2 ^ 56) with 72057594037927936;
  repeat match goal with
         | |- context [Z.lor ?x ?y] =>
             first
               [ rewrite (lor_add x y 8) by (simpl; Z.div_mod_to_equations; lia)
               | rewrite (lor_add x y 16) by (simpl; Z.div_mod_to_equations; lia)
               | rewrite (lor_add x y 24) by (simpl; Z.div_mod_to_equations; lia)
               | rewrite (lor_add x y 32) by (simpl; Z.div_mod_to_equations; lia)
               | rewrite (lor_add x y 40) by (simpl; Z.div_mod_to_equations; lia)
               | rewrite (lor_add x y 48) by (simpl; Z.div_mod_to_equations; lia)
               | rewrite (lor_add x y 56) by (simpl; Z.div_mod_to_equations; lia) ]
         end.

Lemma read_raw_uint16_cons (a b : byte) (rest s : list byte) :
  msgp.read_raw_uint16 {| msgp.br := a :: b :: rest; msgp.scratch := s |}
  = (Ok (u8 a * 256 + u8 b), {| msgp.br := rest; msgp.scratch := [a; b] |}).
Proof.
  unfold msgp.read_raw_uint16, msgp.bind.
  change (a :: b :: rest) with ([a; b] ++ rest).
  rewrite (read_N_app 2 [a; b] rest s) by reflexivity.
  unfold msgp.ret, msgp.idx. simpl nth.
  byte_bounds. lor_to_add. reflexivity.
Qed.

Lemma read_raw_uint32_cons (a b c d : byte) (rest s : list byte) :
  msgp.read_raw_uint32 {| msgp.br := a :: b :: c :: d :: rest; msgp.scratch := s |}
  = (Ok (u8 a * 16777216 + u8 b * 65536 + u8 c * 256 + u8 d),
     {| msgp.br := rest; msgp.scratch := [a; b; c; d] |}).
Proof.
  unfold msgp.read_raw_uint32, msgp.bind.
  change (a :: b :: c :: d :: rest) with ([a; b; c; d] ++ rest).
  rewrite (read_N_app 4 [a; b; c; d] rest s) by reflexivity.
  unfold msgp.ret, msgp.idx. simpl nth.
  byte_bounds. lor_to_add. reflexivity.
Qed.

Lemma read_raw_uint64_cons (a b c d e f g h : byte) (rest s : list byte) :
  msgp.read_raw_uint64
    {| msgp.br := a :: b :: c :: d :: e :: f :: g :: h :: rest; msgp.scratch := s |}
  = (Ok (u8 a * 72057594037927936 + u8 b * 281474976710656 + u8 c * 1099511627776
         + u8 d * 4294967296 + u8 e * 16777216 + u8 f * 65536 + u8 g * 256 + u8 h),
     {| msgp.br := rest; msgp.scratch := [a; b; c; d; e; f; g; h] |}).
Proof.
  unfold msgp.read_raw_uint64, msgp.bind.
  change (a :: b :: c :: d :: e :: f :: g :: h :: rest)
    with ([a; b; c; d; e; f; g; h] ++ rest).
  rewrite (read_N_app 8 [a; b; c; d; e; f; g; h] rest s) by reflexivity.
  unfold msgp.ret, msgp.idx. simpl nth.
  byte_bounds. lor_to_add. reflexivity.
Qed.

(** ** Unsigned integers: encoding bands and round trip *)


Ltac bytes_of_value :=
  rewrite ?u8_uint8, ?Z.shiftr_div_pow2 by lia;
  change (2 ^ 8) with 256; change (2 ^ 16) with 65536;
  change (2 ^ 24) with 16777216; change (2 ^ 32) with 4294967296;
  change (2 ^ 40) with 1099511627776; change (2 ^ 48) with 281474976710656;
  change (2 ^ 56) with 72057594037927936.

(** C8: for every uint64 value [v], [ReadUint64] run on the bytes that
    [AppendUint64] produces (whatever follows them on the stream) returns [v]
    and leaves the reader just behind them; the encoding is as long as the
    format table says: 1 byte up to 127, 2 up to 255, 3 up to 65535, 5 up to
    2^32-1, 9 beyond. *)
Theorem ReadUint64_AppendUint64 (v : Z) (rest s : list byte) :
  0 <= v <= MaxUint64 ->
  exists s',
    msgp.ReadUint64 {| msgp.br := msgp.AppendUint64 [] v ++ rest; msgp.scratch := s |}
    = (Ok v, {| msgp.br := rest; msgp.scratch := s' |})
    /\ len (msgp.AppendUint64 [] v) = uint_band_width v.
Proof.
  unfold MaxUint64. intros Hv.
  unfold msgp.AppendUint64, uint_band_width, MaxUint8, MaxUint16, MaxUint32.
  destruct (Z.leb_spec v 127);
    [|destruct (Z.leb_spec v 255);
      [|destruct (Z.leb_spec v 65535); [|destruct (Z.leb_spec v 4294967295)]]];
    eexists; (split; [|reflexivity]); simpl app;
    unfold msgp.ReadUint64, msgp.bind; rewrite read_prefix_cons.
  - rewrite u8_uint8, Z.mod_small by lia.
    destruct (Z.leb_spec v 127); [reflexivity|lia].
  - simpl. rewrite read_raw_uint8_cons. bytes_of_value.
    rewrite Z.mod_small by lia. reflexivity.
  - simpl. rewrite read_raw_uint16_cons. bytes_of_value.
    do 2 f_equal. Z.div_mod_to_equations. lia.
  - simpl. rewrite read_raw_uint32_cons. bytes_of_value.
    do 2 f_equal. Z.div_mod_to_equations. lia.
  - simpl. rewrite read_raw_uint64_cons. bytes_of_value.
    do 2 f_equal. Z.div_mod_to_equations. lia.
Qed.

Lemma ReadUint64_AppendUint64_witness :
  exists s',
    msgp.ReadUint64 {| msgp.br := msgp.AppendUint64 [] 65536 ++ []; msgp.scratch := [] |}
    = (Ok 65536, {| msgp.br := []; msgp.scratch := s' |})
    /\ len (msgp.AppendUint64 [] 65536) = uint_band_width 65536.
Proof.
  apply (ReadUint64_AppendUint64 65536 [] []). unfold MaxUint64. lia.
Defined.

(** ** Signed integers *)

Lemma AppendInt64_dest (dest : list byte) (v : Z) :
  msgp.AppendInt64 dest v = dest ++ msgp.AppendInt64 [] v.
Proof.
  unfold msgp.AppendInt64.
  repeat match goal with |- context [if ?c then _ else _] => destruct c end;
    reflexivity.
Qed.

Lemma read_raw_int8_cons (a : byte) (rest s : list byte) :
  msgp.read_raw_int8 {| msgp.br := a :: rest; msgp.scratch := s |}
  = (Ok (to_int8 (u8 a)), {| msgp.br := rest; msgp.scratch := [a] |}).
Proof.
  unfold msgp.read_raw_int8, msgp.bind. now rewrite read_raw_uint8_cons.
Qed.

Lemma read_raw_int16_cons (a b : byte) (rest s : list byte) :
  msgp.read_raw_int16 {| msgp.br := a :: b :: rest; msgp.scratch := s |}
  = (Ok (to_int16 (u8 a * 256 + u8 b)), {| msgp.br := rest; msgp.scratch := [a; b] |}).
Proof.
  unfold msgp.read_raw_int16, msgp.bind. now rewrite read_raw_uint16_cons.
Qed.

Lemma read_raw_int32_cons (a b c d : byte) (rest s : list byte) :
  msgp.read_raw_int32 {| msgp.br := a :: b :: c :: d :: rest; msgp.scratch := s |}
  = (Ok (to_int32 (u8 a * 16777216 + u8 b * 65536 + u8 c * 256 + u8 d)),
     {| msgp.br := rest; msgp.scratch := [a; b; c; d] |}).
Proof.
  unfold msgp.read_raw_int32, msgp.bind. now rewrite read_raw_uint32_cons.
Qed.

Lemma read_raw_int64_cons (a b c d e f g h : byte) (rest s : list byte) :
  msgp.read_raw_int64
    {| msgp.br := a :: b :: c :: d :: e :: f :: g :: h :: rest; msgp.scratch := s |}
  = (Ok (to_int64 (u8 a * 72057594037927936 + u8 b * 281474976710656
                   + u8 c * 1099511627776 + u8 d * 4294967296 + u8 e * 16777216
                   + u8 f * 65536 + u8 g * 256 + u8 h)),
     {| msgp.br := rest; msgp.scratch := [a; b; c; d; e; f; g; h] |}).
Proof.
  unfold msgp.read_raw_int64, msgp.bind. now rewrite read_raw_uint64_cons.
Qed.

Ltac signed_arith :=
  unfold to_int8, to_int16, to_int32, to_int64, to_signed; simpl Z.sub;
  change (2 ^ 7) with 128; change (2 ^ 8) with 256;
  change (2 ^ 15) with 32768; change (2 ^ 16) with 65536;
  change (2 ^ 31) with 2147483648; change (2 ^ 32) with 4294967296;
  change (2 ^ 63) with 9223372036854775808;
  change (2 ^ 64) with 18446744073709551616;
  Z.div_mod_to_equations; lia.

(** The signed round trip: [ReadInt64] gives back every int64 value that
    [AppendInt64] wrote. *)
Lemma ReadInt64_AppendInt64 (v : Z) (rest s : list byte) :
  MinInt64 <= v <= MaxInt64 ->
  exists s',
    msgp.ReadInt64 {| msgp.br := msgp.AppendInt64 [] v ++ rest; msgp.scratch := s |}
    = (Ok v, {| msgp.br := rest; msgp.scratch := s' |}).
Proof.
  unfold MinInt64, MaxInt64. intros Hv.
  unfold msgp.AppendInt64, MinInt8, MinInt16, MinInt32, MaxInt16, MaxInt32.
  destruct (Z.geb_spec v 0);
    [destruct (Z.leb_spec v 127);
      [|destruct (Z.leb_spec v 32767); [|destruct (Z.leb_spec v 2147483647)]]
    |destruct (Z.geb_spec v (-32));
      [|destruct (Z.geb_spec v (-128));
        [|destruct (Z.geb_spec v (-32768)); [|destruct (Z.geb_spec v (-2147483648))]]]];
    eexists; simpl app;
    unfold msgp.ReadInt64, msgp.bind; rewrite read_prefix_cons.
  - rewrite u8_uint8, Z.mod_small by lia.
    destruct (Z.leb_spec v 127); [reflexivity|lia].
  - simpl. rewrite read_raw_int16_cons. bytes_of_value. do 2 f_equal. signed_arith.
  - simpl. rewrite read_raw_int32_cons. bytes_of_value. do 2 f_equal. signed_arith.
  - simpl. rewrite read_raw_int64_cons. bytes_of_value. do 2 f_equal. signed_arith.
  - rewrite u8_uint8.
    destruct (Z.leb_spec (v mod 256) 127); [exfalso; Z.div_mod_to_equations; lia|].
    change (u8 msgp.M_NEGATIVE_FIXINT_BASE) with 224.
    destruct (Z.geb_spec (v mod 256) 224); [|exfalso; Z.div_mod_to_equations; lia].
    unfold msgp.ret. do 2 f_equal. signed_arith.
  - simpl. rewrite read_raw_int8_cons. bytes_of_value. do 2 f_equal. signed_arith.
  - simpl. rewrite read_raw_int16_cons. bytes_of_value. do 2 f_equal. signed_arith.
  - simpl. rewrite read_raw_int32_cons. bytes_of_value. do 2 f_equal. signed_arith.
  - simpl. rewrite read_raw_int64_cons. bytes_of_value. do 2 f_equal. signed_arith.
Qed.

(** C4, as the code has it: a value from 0 to 127 is one positive fixint
    byte; above that the signed formats are used, int16 in 3 bytes up to
    32767, int32 in 5 bytes up to 2^31-1, int64 in 9 bytes beyond. *)
Theorem AppendInt64_nonneg_bands (dest : list byte) (v : Z) :
  0 <= v <= MaxInt64 ->
  exists payload,
    msgp.AppendInt64 dest v = dest ++ int_nonneg_prefix v :: payload
    /\ 1 + len payload = int_nonneg_width v.
Proof.
  intros Hv. rewrite AppendInt64_dest.
  unfold msgp.AppendInt64, int_nonneg_prefix, int_nonneg_width, MaxInt16, MaxInt32.
  destruct (Z.geb_spec v 0); [|lia].
  destruct (Z.leb_spec v 127);
    [|destruct (Z.leb_spec v 32767); [|destruct (Z.leb_spec v 2147483647)]];
    eexists; split; reflexivity.
Qed.

Lemma AppendInt64_nonneg_bands_witness :
  exists payload,
    msgp.AppendInt64 [] 40000 = [] ++ int_nonneg_prefix 40000 :: payload
    /\ 1 + len payload = int_nonneg_width 40000.
Proof.
  apply (AppendInt64_nonneg_bands [] 40000). unfold MaxInt64. lia.
Defined.

(** C4 as the specification words it (the unsigned table for every value
    that is not negative) fails at 128, which takes 3 bytes. *)
Lemma AppendInt64_not_unsigned_table :
  ~ (forall v, 0 <= v <= MaxInt64 ->
               len (msgp.AppendInt64 [] v) = uint_band_width v).
Proof.
  intros H. specialize (H 128). vm_compute in H.
  assert (3 = 2) by (apply H; split; discriminate). discriminate.
Qed.

(** ** NextType *)

(** C3, as the code has it: a positive fixint is classified Int, like the
    negative fixints and the int8..int64 prefixes; only the uint8..uint64
    prefixes give Uint. The reader is left as it was. *)
Theorem NextType_integer_families
    (fam : prefix_family) (prefix : byte) (rest s : list byte) :
  in_family fam prefix ->
  msgp.NextType {| msgp.br := prefix :: rest; msgp.scratch := s |}
  = (Ok (family_type fam), {| msgp.br := prefix :: rest; msgp.scratch := s |}).
Proof.
  intros Hin.
  unfold msgp.NextType, msgp.bind, msgp.peek_byte, msgp.ret. simpl msgp.br.
  cbv beta iota. f_equal. f_equal. unfold msgp.type_of_prefix.
  destruct fam; simpl in Hin.
  - destruct (Z.leb_spec (u8 prefix) 127); [reflexivity|lia].
  - repeat (apply elem_of_cons in Hin as [->|Hin]; [reflexivity|]).
    now apply elem_of_nil in Hin.
  - destruct (Z.leb_spec (u8 prefix) 127); [lia|].
    change (u8 msgp.M_NEGATIVE_FIXINT_BASE) with 224.
    destruct (Z.geb_spec (u8 prefix) 224); [reflexivity|lia].
  - repeat (apply elem_of_cons in Hin as [->|Hin]; [reflexivity|]).
    now apply elem_of_nil in Hin.
Qed.

Lemma NextType_integer_families_witness :
  msgp.NextType {| msgp.br := [Byte.x05]; msgp.scratch := [] |}
  = (Ok (family_type PositiveFixint), {| msgp.br := [Byte.x05]; msgp.scratch := [] |}).
Proof.
  apply (NextType_integer_families PositiveFixint Byte.x05 [] []).
  simpl. vm_compute. split; discriminate.
Defined.

(** C3 as the specification words it fails: the positive fixint 0x05 is
    classified Int, not Uint. *)
Lemma NextType_positive_fixint_not_Uint :
  ~ (forall (prefix : byte) (rest s : list byte),
       0 <= u8 prefix <= 0x7f ->
       fst (msgp.NextType {| msgp.br := prefix :: rest; msgp.scratch := s |})
       = Ok msgp.UintType).
Proof.
  intros H. specialize (H Byte.x05 [] []). vm_compute in H.
  assert (E : @Ok msgp.Type_ msgp.IntType = Ok msgp.UintType)
    by (apply H; split; discriminate).
  discriminate E.
Qed.

(** ** Rune counting and blank padding *)

Lemma first_cases (c : Z) :
  128 <= c ->
  utf8.first c ∈ [utf8.xx; utf8.s1; utf8.s2; utf8.s3; utf8.s4; utf8.s5; utf8.s6; utf8.s7].
Proof.
  intros Hc. unfold utf8.first.
  repeat match goal with
         | |- context [if ?a <? ?b then _ else _] => destruct (Z.ltb_spec a b); [try lia|]
         | |- context [if ?a =? ?b then _ else _] => destruct (Z.eqb_spec a b)
         end; set_solver.
Qed.

Ltac split_tests :=
  repeat match goal with
         | |- context [?a <? ?b] => destruct (Z.ltb_spec a b)
         | |- context [?a =? ?b] => destruct (Z.eqb_spec a b)
         end.

Ltac first_byte_cases c :=
  let Hf := fresh "Hf" in
  pose proof (first_cases (u8 c) ltac:(lia)) as Hf;
  repeat (apply elem_of_cons in Hf as [->|Hf]); [..|now apply elem_of_nil in Hf];
  unfold utf8.xx, utf8.s1, utf8.s2, utf8.s3, utf8.s4, utf8.s5, utf8.s6, utf8.s7,
    utf8.acceptRanges, utf8.locb, utf8.hicb;
  repeat match goal with
         | |- context [Z.land ?a ?b] =>
             let v := eval vm_compute in (Z.land a b) in change (Z.land a b) with v
         | |- context [Z.shiftr ?a ?b] =>
             let v := eval vm_compute in (Z.shiftr a b) in change (Z.shiftr a b) with v
         end;
  simpl.

Lemma rune_size_bounds (c : byte) (rest : list byte) :
  1 <= utf8.rune_size c rest <= 1 + len rest.
Proof.
  pose proof (len_nonneg rest) as Hl.
  unfold utf8.rune_size, utf8.RuneSelf.
  destruct (Z.ltb_spec (u8 c) 128); [lia|].
  first_byte_cases c.
  all: split_tests; simpl; lia.
Qed.

Lemma rune_size_app_blanks (c : byte) (rest : list byte) (n : nat) :
  utf8.rune_size c (rest ++ repeat Byte.x20 n) = utf8.rune_size c rest.
Proof.
  unfold utf8.rune_size, utf8.RuneSelf.
  destruct (Z.ltb_spec (u8 c) 128); [reflexivity|].
  assert (Hlen : len (rest ++ repeat Byte.x20 n) = len rest + Z.of_nat n).
  { unfold len. rewrite length_app, repeat_length. lia. }
  rewrite Hlen. clear Hlen.
  first_byte_cases c; try reflexivity.
  all: destruct rest as [|c1 [|c2 [|c3 r]]]; destruct n as [|[|[|n]]];
    unfold len, msgp.idx; simpl;
    split_tests; simpl; try reflexivity; try lia.
Qed.

Lemma count_blanks (n : nat) : utf8.count 0 (repeat Byte.x20 n) = Z.of_nat n.
Proof.
  induction n as [|n IH]; [reflexivity|].
  simpl repeat. cbn [utf8.count].
  change (utf8.rune_size Byte.x20 (repeat Byte.x20 n)) with 1.
  change (Z.to_nat (1 - 1)) with 0%nat. rewrite IH. lia.
Qed.

Lemma count_app_blanks (p : list byte) (n skip : nat) :
  (skip <= length p)%nat ->
  utf8.count skip (p ++ repeat Byte.x20 n) = utf8.count skip p + Z.of_nat n.
Proof.
  revert skip. induction p as [|c rest IH]; intros skip Hskip.
  - simpl in Hskip. assert (skip = 0%nat) as -> by lia.
    simpl app. rewrite count_blanks. reflexivity.
  - simpl app. cbn [utf8.count]. destruct skip as [|k].
    + rewrite rune_size_app_blanks.
      pose proof (rune_size_bounds c rest) as Hb. unfold len in Hb.
      rewrite IH by lia. lia.
    + simpl in Hskip. apply IH. lia.
Qed.

Lemma RuneCount_app_blanks (p : list byte) (n : nat) :
  utf8.RuneCount (p ++ repeat Byte.x20 n) = utf8.RuneCount p + Z.of_nat n.
Proof. unfold utf8.RuneCount. apply count_app_blanks. lia. Qed.

Lemma set_blanks_padding (val : list byte) (n : nat) :
  rsqlib.Varchar.set_blanks (val ++ repeat Byte.x00 n) (len val)
  = val ++ repeat Byte.x20 n.
Proof.
  unfold rsqlib.Varchar.set_blanks, len.
  rewrite Nat2Z.id, take_app_length, length_app, repeat_length.
  do 2 f_equal. lia.
Qed.

Lemma pad_short (precision : Z) (val : list byte) :
  utf8.RuneCount val < precision ->
  rsqlib.Varchar.pad precision val
  = val ++ repeat Byte.x20 (Z.to_nat (precision - utf8.RuneCount val)).
Proof.
  intros H. unfold rsqlib.Varchar.pad.
  destruct (Z.ltb_spec (utf8.RuneCount val) precision); [|lia].
  apply set_blanks_padding.
Qed.

Lemma pad_full (precision : Z) (val : list byte) :
  precision <= utf8.RuneCount val -> rsqlib.Varchar.pad precision val = val.
Proof.
  intros H. unfold rsqlib.Varchar.pad.
  destruct (Z.ltb_spec (utf8.RuneCount val) precision); [lia|reflexivity].
Qed.

Lemma starts_string_type (prefix : byte) :
  starts_string prefix = true -> msgp.type_of_prefix prefix = msgp.StrType.
Proof. destruct prefix; vm_compute; intros H; first [reflexivity|discriminate H]. Qed.

Lemma ReadStringHeader_starts_string (m m' : msgp.Reader) (sz : Z) :
  msgp.ReadStringHeader m = (Ok sz, m') ->
  exists prefix rest, msgp.br m = prefix :: rest /\ starts_string prefix = true.
Proof.
  destruct m as [[|prefix rest] s]; intros H.
  - discriminate H.
  - exists prefix, rest. split; [reflexivity|].
    unfold msgp.ReadStringHeader, msgp.bind in H. rewrite read_prefix_cons in H.
    unfold starts_string, msgp.is_in. simpl existsb.
    destruct (msgp.byte_eqb (msgp.byte_and prefix msgp.PREFIX_FIXSTR_MASK) msgp.M_FIXSTR_BASE);
      [reflexivity|].
    destruct (msgp.byte_eqb prefix msgp.M_STR8); [reflexivity|].
    destruct (msgp.byte_eqb prefix msgp.M_STR16); [reflexivity|].
    destruct (msgp.byte_eqb prefix msgp.M_STR32); [reflexivity|].
    discriminate H.
Qed.

(** C9: a Varchar field with [Fixlen] set decodes a string value [val] of
    [r] runes. If [r] is less than the precision [p], exactly [p - r] blanks
    (0x20) are appended and the stored value has [p] runes; if [r] is [p] or
    more, the value is stored as it came. The count is in runes, not bytes. *)
Theorem Varchar_read_value_fixlen
    (field : rsqlib.Varchar.t) (m m' : msgp.Reader) (val : list byte) :
  rsqlib.Varchar.Fixlen field = true ->
  msgp.ReadStringAsBytes [] m = (Ok val, m') ->
  let p := rsqlib.Varchar.Precision field in
  let r := utf8.RuneCount val in
  exists stored,
    rsqlib.Varchar.read_value field m
    = (Ok {| rsqlib.Varchar.Precision := p; rsqlib.Varchar.Fixlen := true;
             rsqlib.Varchar.Is_Null := false; rsqlib.Varchar.Val := stored |}, m')
    /\ (r < p ->
        stored = val ++ repeat Byte.x20 (Z.to_nat (p - r)) /\ utf8.RuneCount stored = p)
    /\ (p <= r -> stored = val).
Proof.
  intros Hfix Hread p r.
  exists (rsqlib.Varchar.pad p val). split; [|split].
  - unfold rsqlib.Varchar.read_value, rsqlib.read_nullable, msgp.bind.
    assert (Hty : msgp.NextType m = (Ok msgp.StrType, m)).
    { unfold msgp.ReadStringAsBytes, msgp.bind in Hread.
      destruct (msgp.ReadStringHeader m) as [[sz| |] m1] eqn:Hh; try discriminate Hread.
      apply ReadStringHeader_starts_string in Hh as (prefix & rest & Hbr & Hs).
      unfold msgp.NextType, msgp.bind, msgp.peek_byte. rewrite Hbr.
      unfold msgp.ret. now rewrite (starts_string_type prefix Hs). }
    rewrite Hty. cbv beta iota delta [rsqlib.is_NilType].
    change (firstn 0 (rsqlib.Varchar.Val field)) with (@nil byte).
    rewrite Hread, Hfix. reflexivity.
  - intros Hlt. rewrite pad_short by exact Hlt. split; [reflexivity|].
    rewrite RuneCount_app_blanks. fold r. lia.
  - intros Hge. now apply pad_full.
Qed.

Lemma Varchar_read_value_fixlen_witness :
  let p := rsqlib.Varchar.Precision char5 in
  let r := utf8.RuneCount [Byte.x68; Byte.x69] in
  exists stored,
    rsqlib.Varchar.read_value char5 (reader_on str_hi)
    = (Ok {| rsqlib.Varchar.Precision := p; rsqlib.Varchar.Fixlen := true;
             rsqlib.Varchar.Is_Null := false; rsqlib.Varchar.Val := stored |},
       {| msgp.br := []; msgp.scratch := [Byte.xa2] |})
    /\ (r < p ->
        stored = [Byte.x68; Byte.x69] ++ repeat Byte.x20 (Z.to_nat (p - r))
        /\ utf8.RuneCount stored = p)
    /\ (p <= r -> stored = [Byte.x68; Byte.x69]).
Proof.
  apply (Varchar_read_value_fixlen char5 (reader_on str_hi)); reflexivity.
Defined.

(** Scenario S5: "hi" is stored as "hi" and three blanks; "héllo" has 5
    runes in 6 bytes and is stored as it is. *)
Example Varchar_char5_examples :
  fst (rsqlib.Varchar.read_value char5 (reader_on str_hi))
  = Ok {| rsqlib.Varchar.Precision := 5; rsqlib.Varchar.Fixlen := true;
          rsqlib.Varchar.Is_Null := false;
          rsqlib.Varchar.Val := [Byte.x68; Byte.x69; Byte.x20; Byte.x20; Byte.x20] |}
  /\ fst (rsqlib.Varchar.read_value char5 (reader_on str_hello))
     = Ok {| rsqlib.Varchar.Precision := 5; rsqlib.Varchar.Fixlen := true;
             rsqlib.Varchar.Is_Null := false;
             rsqlib.Varchar.Val :=
               [Byte.x68; Byte.xc3; Byte.xa9; Byte.x6c; Byte.x6c; Byte.x6f] |}.
Proof. split; reflexivity. Qed.

(** ** Headers and strings: round trips *)

Lemma small_cases (P : Z -> bool) (n : nat) :
  forallb (fun k => P (Z.of_nat k)) (seq 0 n) = true ->
  forall z, 0 <= z < Z.of_nat n -> P z = true.
Proof.
  intros H z Hz. rewrite forallb_forall in H.
  specialize (H (Z.to_nat z)).
  rewrite Z2Nat.id in H by lia.
  apply H. apply in_seq. lia.
Qed.

Lemma fixstr_prefix (sz : Z) :
  0 <= sz <= 31 ->
  let prefix := msgp.byte_or msgp.M_FIXSTR_BASE (uint8 sz) in
  msgp.byte_eqb (msgp.byte_and prefix msgp.PREFIX_FIXSTR_MASK) msgp.M_FIXSTR_BASE = true
  /\ u8 (msgp.first_bits_5 prefix) = sz.
Proof.
  intros H prefix. subst prefix.
  pose proof (small_cases
    (fun sz =>
       msgp.byte_eqb (msgp.byte_and (msgp.byte_or msgp.M_FIXSTR_BASE (uint8 sz))
                                    msgp.PREFIX_FIXSTR_MASK) msgp.M_FIXSTR_BASE
       && (u8 (msgp.first_bits_5 (msgp.byte_or msgp.M_FIXSTR_BASE (uint8 sz))) =? sz))
    32 ltac:(vm_compute; reflexivity) sz ltac:(lia)) as Hc.
  apply andb_true_iff in Hc as [H1 H2]. split; [exact H1|now apply Z.eqb_eq].
Qed.

Lemma fixmap_prefix (sz : Z) :
  0 <= sz <= 15 ->
  let prefix := msgp.byte_or msgp.M_FIXMAP_BASE (uint8 sz) in
  msgp.byte_eqb (msgp.byte_and prefix msgp.PREFIX_FIXMAP_MASK) msgp.M_FIXMAP_BASE = true
  /\ u8 (msgp.first_bits_4 prefix) = sz.
Proof.
  intros H prefix. subst prefix.
  pose proof (small_cases
    (fun sz =>
       msgp.byte_eqb (msgp.byte_and (msgp.byte_or msgp.M_FIXMAP_BASE (uint8 sz))
                                    msgp.PREFIX_FIXMAP_MASK) msgp.M_FIXMAP_BASE
       && (u8 (msgp.first_bits_4 (msgp.byte_or msgp.M_FIXMAP_BASE (uint8 sz))) =? sz))
    16 ltac:(vm_compute; reflexivity) sz ltac:(lia)) as Hc.
  apply andb_true_iff in Hc as [H1 H2]. split; [exact H1|now apply Z.eqb_eq].
Qed.

Lemma ReadStringHeader_AppendStringHeader (sz : Z) (rest s : list byte) :
  0 <= sz <= MaxUint32 ->
  exists s',
    msgp.ReadStringHeader
      {| msgp.br := msgp.AppendStringHeader [] sz ++ rest; msgp.scratch := s |}
    = (Ok sz, {| msgp.br := rest; msgp.scratch := s' |}).
Proof.
  unfold MaxUint32. intros Hsz.
  unfold msgp.AppendStringHeader, MaxUint8, MaxUint16.
  destruct (Z.leb_spec sz 31);
    [|destruct (Z.leb_spec sz 255); [|destruct (Z.leb_spec sz 65535)]];
    eexists; simpl app;
    unfold msgp.ReadStringHeader, msgp.bind; rewrite read_prefix_cons.
  - destruct (fixstr_prefix sz ltac:(lia)) as [-> ->]. reflexivity.
  - simpl. rewrite read_raw_uint8_cons. bytes_of_value.
    rewrite Z.mod_small by lia. reflexivity.
  - simpl. rewrite read_raw_uint16_cons. bytes_of_value.
    do 2 f_equal. Z.div_mod_to_equations. lia.
  - simpl. rewrite read_raw_uint32_cons. bytes_of_value.
    do 2 f_equal. Z.div_mod_to_equations. lia.
Qed.

Lemma ReadMapHeader_AppendMapHeader (sz : Z) (rest s : list byte) :
  0 <= sz <= MaxUint32 ->
  exists s',
    msgp.ReadMapHeader
      {| msgp.br := msgp.AppendMapHeader [] sz ++ rest; msgp.scratch := s |}
    = (Ok sz, {| msgp.br := rest; msgp.scratch := s' |}).
Proof.
  unfold MaxUint32. intros Hsz.
  unfold msgp.AppendMapHeader, MaxUint16.
  destruct (Z.leb_spec sz 15); [|destruct (Z.leb_spec sz 65535)];
    eexists; simpl app;
    unfold msgp.ReadMapHeader, msgp.bind; rewrite read_prefix_cons.
  - destruct (fixmap_prefix sz ltac:(lia)) as [-> ->]. reflexivity.
  - simpl. rewrite read_raw_uint16_cons. bytes_of_value.
    do 2 f_equal. Z.div_mod_to_equations. lia.
  - simpl. rewrite read_raw_uint32_cons. bytes_of_value.
    do 2 f_equal. Z.div_mod_to_equations. lia.
Qed.

Lemma string_of_bytes_of_string (s : string) : string_of_bytes (bytes_of_string s) = s.
Proof. apply string_of_list_byte_of_string. Qed.

Lemma AppendString_wire_string (v : string) :
  len (bytes_of_string v) <= MaxUint32 ->
  msgp.AppendString [] v = Some (wire_string v).
Proof.
  intros H. unfold msgp.AppendString.
  destruct (Z.gtb_spec (len (bytes_of_string v)) MaxUint32); [lia|reflexivity].
Qed.

Lemma ReadString_wire_string (v : string) (rest s : list byte) :
  len (bytes_of_string v) <= MaxUint32 ->
  exists s',
    msgp.ReadString {| msgp.br := wire_string v ++ rest; msgp.scratch := s |}
    = (Ok v, {| msgp.br := rest; msgp.scratch := s' |}).
Proof.
  intros Hlen. pose proof (len_nonneg (bytes_of_string v)) as H0.
  unfold wire_string. rewrite <- app_assoc.
  destruct (ReadStringHeader_AppendStringHeader (len (bytes_of_string v))
              (bytes_of_string v ++ rest) s ltac:(lia)) as [s1 Hh].
  eexists.
  unfold msgp.ReadString, msgp.ReadStringAsBytes, msgp.bind, msgp.get_scratch.
  cbn [msgp.scratch]. rewrite Hh, ReadNBytes_app.
  unfold msgp.set_scratch, msgp.ret. cbn [msgp.br].
  now rewrite string_of_bytes_of_string.
Qed.

(** ** The error record *)

Lemma read_error_entry_known (f : error_field) (e : rsqlib.Error_info) (rest s : list byte) :
  field_fits f ->
  exists s',
    rsqlib.read_error_entry e {| msgp.br := wire_field f ++ rest; msgp.scratch := s |}
    = (Ok (store_field e f), {| msgp.br := rest; msgp.scratch := s' |}).
Proof.
  intros Hfit. unfold wire_field. rewrite <- app_assoc.
  destruct (ReadString_wire_string (field_key f)
              ((match field_value f with
                | inl v => wire_string v
                | inr v => msgp.AppendInt64 [] v
                end) ++ rest) s) as [s1 Hkey].
  { destruct f; vm_compute; discriminate. }
  unfold rsqlib.read_error_entry, msgp.bind. rewrite Hkey.
  destruct f; simpl in Hfit |- *; unfold field_fits in Hfit; simpl in Hfit.
  all: first
    [ destruct (ReadString_wire_string v rest s1 Hfit) as [s2 ->]
    | destruct (ReadInt64_AppendInt64 v rest s1 Hfit) as [s2 ->] ];
    eexists; reflexivity.
Qed.

Lemma read_error_entries_known (fields : list error_field) :
  Forall field_fits fields ->
  forall (e : rsqlib.Error_info) (rest s : list byte),
  exists s',
    rsqlib.read_error_entries (length fields) e
      {| msgp.br := concat (map wire_field fields) ++ rest; msgp.scratch := s |}
    = (Ok (fold_left store_field fields e), {| msgp.br := rest; msgp.scratch := s' |}).
Proof.
  induction 1 as [|f fields Hf Hfs IH]; intros e rest s.
  - exists s. reflexivity.
  - simpl map. simpl concat. rewrite <- app_assoc.
    destruct (read_error_entry_known f e (concat (map wire_field fields) ++ rest) s Hf)
      as [s1 H1].
    destruct (IH (store_field e f) rest s1) as [s2 H2].
    exists s2. simpl length. cbn [rsqlib.read_error_entries].
    unfold msgp.bind at 1. rewrite H1. exact H2.
Qed.

Lemma read_error_entry_unknown (key : string) (e : rsqlib.Error_info) (rest s : list byte) :
  known_key key = false ->
  len (bytes_of_string key) <= MaxUint32 ->
  exists s',
    rsqlib.read_error_entry e {| msgp.br := wire_string key ++ rest; msgp.scratch := s |}
    = (Ok e, {| msgp.br := rest; msgp.scratch := s' |}).
Proof.
  intros Hk Hlen.
  destruct (ReadString_wire_string key rest s Hlen) as [s1 Hkey].
  exists s1. unfold rsqlib.read_error_entry, msgp.bind. rewrite Hkey.
  unfold known_key in Hk. simpl in Hk.
  repeat (apply orb_false_iff in Hk as [-> Hk]). reflexivity.
Qed.

(** C5, as the code has it: a map all of whose keys are among the eleven
    field names is read pair by pair into the fields of the returned record
    (a later pair for a key overrides an earlier one), and the reader is left
    just behind the map. *)
Theorem Read_Error_info_known_keys (fields : list error_field) (rest s : list byte) :
  Forall field_fits fields ->
  len fields <= MaxUint32 ->
  exists s',
    rsqlib.Read_Error_info {| msgp.br := wire_error_map fields ++ rest; msgp.scratch := s |}
    = (Ok (fold_left store_field fields rsqlib.Error_info_zero),
       {| msgp.br := rest; msgp.scratch := s' |}).
Proof.
  intros Hfit Hlen. pose proof (len_nonneg fields) as H0.
  unfold wire_error_map. rewrite <- app_assoc.
  destruct (ReadMapHeader_AppendMapHeader (len fields)
              (concat (map wire_field fields) ++ rest) s ltac:(lia)) as [s1 Hh].
  destruct (read_error_entries_known fields Hfit rsqlib.Error_info_zero rest s1)
    as [s2 Hr].
  exists s2. unfold rsqlib.Read_Error_info, msgp.bind. rewrite Hh.
  unfold len. rewrite Nat2Z.id. exact Hr.
Qed.

Lemma Read_Error_info_known_keys_witness :
  exists s',
    rsqlib.Read_Error_info
      {| msgp.br := wire_error_map divide_by_zero ++ []; msgp.scratch := [] |}
    = (Ok (fold_left store_field divide_by_zero rsqlib.Error_info_zero),
       {| msgp.br := []; msgp.scratch := s' |}).
Proof.
  apply (Read_Error_info_known_keys divide_by_zero [] []).
  - repeat constructor; vm_compute; discriminate.
  - vm_compute. discriminate.
Defined.

(** C5 as the specification words it fails on a map with an unknown key:
    of [{"zz": "yy", "state": 5}] the reader takes "zz" and "yy" for the two
    keys, leaves the pair for state unread and returns a record whose state
    is 0. *)
Lemma Read_Error_info_unknown_key_counterexample :
  known_key "zz" = false
  /\ exists e m',
      rsqlib.Read_Error_info (reader_on map_zz_state) = (Ok e, m')
      /\ rsqlib.state e = 0
      /\ rsqlib.state e <> 5
      /\ msgp.br m' = wire_string "state" ++ msgp.AppendInt64 [] 5.
Proof.
  split; [reflexivity|].
  eexists. eexists. split; [reflexivity|].
  split; [reflexivity|]. split; [discriminate|reflexivity].
Qed.

(** ** The batch state machine *)

Lemma colnameMap_loop_empty (names : list string) (i : Z) :
  drv.colnameMap_loop i names ∅ = ∅.
Proof.
  revert i. induction names as [|name tl IH]; intros i; [reflexivity|].
  cbn [drv.colnameMap_loop]. rewrite lookup_empty, delete_empty.
  destruct (String.eqb name EmptyString); apply IH.
Qed.

Lemma make_colnameMap_empty (colnameList : list string) :
  drv.make_colnameMap colnameList = ∅.
Proof. apply colnameMap_loop_empty. Qed.

(** C1: on a RecordLayout message with the column names
    a, b, a and the empty name the state machine stores the name list and a column
    name map that has no entry for "b": the map the code builds is empty
    (see [make_colnameMap_empty]), where the claim wants exactly "b" in it. *)
Theorem step_layout_colnameMap_lacks_b :
  let st := snd (drv.step drv.sTEP_NEXT_RECORD
                   (batch_sent "select", conn_with layout_abae)) in
  drv.err (fst st) = None
  /\ drv.colnameList (fst st) = Some ["a"; "b"; "a"; EmptyString]
  /\ exists m, drv.colnameMap (fst st) = Some m /\ m !! "b" = None.
Proof.
  split; [reflexivity|]. split; [reflexivity|].
  exists ∅. split; reflexivity.
Qed.

Lemma Connect_new_Session (stream : list byte) (s : rsqlib.Session) :
  rsqlib.Connect stream = Ok s -> exists r, s = rsqlib.new_Session r.
Proof.
  unfold rsqlib.Connect.
  destruct (msgp.ReadUint8 _) as [[u| |] r]; try discriminate.
  destruct (u =? rsqlib.RESTYP_LOGIN_SUCCESS); [|discriminate].
  intros [= <-]. now exists r.
Qed.

(** C2: on a session as [Connect] creates it, the first [Close] returns
    without error; the second [Close] does not return: it panics, closing the
    channel [ticker_done] a second time. *)
Theorem Close_twice_panics (r : msgp.Reader) :
  let first := rsqlib.Close (rsqlib.new_Session r) in
  fst first = Ok None
  /\ fst (rsqlib.Close (snd first)) = Panic "close of closed channel".
Proof. split; reflexivity. Qed.

Lemma try_read_Ok {A} (c : msgp.M A) (b : drv.Batch) (conn : drv.Connection)
    (a : A) (r : msgp.Reader) :
  c (reader_of conn) = (Ok a, r) ->
  drv.try_read c (b, conn) = (drv.Next a, (b, conn_at r conn)).
Proof.
  intros H. unfold drv.try_read, rsqlib.with_mr, reader_of in *. now rewrite H.
Qed.

Lemma step_loop_exit (fuel : nat) (option : drv.stepOption)
    (st st' : drv.Batch * drv.Connection) (res : bool) :
  drv.step_iter option st = (drv.Exit res, st') ->
  drv.step_loop (S fuel) option st = (drv.Exit res, st').
Proof.
  intros H. cbn [drv.step_loop]. unfold drv.bindS at 1. now rewrite H.
Qed.

Lemma step_iter_RecordFinished_cases
    (option : drv.stepOption) (b : drv.Batch) (conn : drv.Connection)
    (r1 r2 : msgp.Reader) (n : Z) :
  rsqlib.Read_response_type (reader_of conn) = (Ok rsqlib.RESTYP_RECORD_FINISHED, r1) ->
  rsqlib.Read_int64 r1 = (Ok n, r2) ->
  drv.step_iter option (b, conn)
  = if n =? drv.recordCount b
    then (drv.Next tt, (record_finished n b, conn_at r2 conn))
    else (drv.Exit false, (recordcount_mismatch n b, conn_at r2 conn)).
Proof.
  intros Htag Hcount.
  unfold drv.step_iter. unfold drv.bindS at 1.
  rewrite (try_read_Ok _ b conn _ r1 Htag).
  change (rsqlib.RESTYP_RECORD_FINISHED =? rsqlib.RESTYP_RECORD_LAYOUT) with false.
  change (rsqlib.RESTYP_RECORD_FINISHED =? rsqlib.RESTYP_RECORD) with false.
  change (rsqlib.RESTYP_RECORD_FINISHED =? rsqlib.RESTYP_RECORD_FINISHED) with true.
  cbv iota. unfold drv.bindS at 1.
  assert (Hr1 : rsqlib.Read_int64 (reader_of (conn_at r1 conn)) = (Ok n, r2)) by exact Hcount.
  rewrite (try_read_Ok _ b (conn_at r1 conn) _ r2 Hr1).
  unfold drv.bindS at 1, drv.get_batch. cbn [fst].
  destruct (n =? drv.recordCount b); reflexivity.
Qed.

(** C6: the state machine reads a RecordFinished tag and then the int64
    [n]. If [n] differs from the row count of the batch, the mismatch error
    is recorded in [err] and the loop is left with result false, however
    much fuel it has. If [n] equals it, the column name list, the column name
    map and the row buffer are nil, the recorded count is [n], the status is
    RecordEnd and every other field is as before; the loop goes on. *)
Theorem step_iter_RecordFinished
    (option : drv.stepOption) (b : drv.Batch) (conn : drv.Connection)
    (r1 r2 : msgp.Reader) (n : Z) :
  rsqlib.Read_response_type (reader_of conn) = (Ok rsqlib.RESTYP_RECORD_FINISHED, r1) ->
  rsqlib.Read_int64 r1 = (Ok n, r2) ->
  (n <> drv.recordCount b ->
   forall fuel,
     drv.step_loop (S fuel) option (b, conn)
     = (drv.Exit false,
        (drv.set_err
           (Some (fmt_Errorf "Batch: recordcount mismatch (RSQL bug)."
                             [n; drv.recordCount b])) b,
         conn_at r2 conn)))
  /\ (n = drv.recordCount b ->
      drv.step_iter option (b, conn)
      = (drv.Next tt,
         ({| drv.text := drv.text b;
             drv.status_ := drv.sTATUS_RECORD_END;
             drv.recordsetCount := drv.recordsetCount b;
             drv.colnameList := None;
             drv.colnameMap := None;
             drv.record := None;
             drv.recordCount := n;
             drv.execRecordCount := drv.execRecordCount b;
             drv.err := drv.err b;
             drv.rc := drv.rc b |},
          conn_at r2 conn))).
Proof.
  intros Htag Hcount.
  pose proof (step_iter_RecordFinished_cases option b conn r1 r2 n Htag Hcount) as Hiter.
  split.
  - intros Hne fuel. apply step_loop_exit. rewrite Hiter.
    destruct (Z.eqb_spec n (drv.recordCount b)); [contradiction|reflexivity].
  - intros Heq. rewrite Hiter.
    destruct (Z.eqb_spec n (drv.recordCount b)); [reflexivity|contradiction].
Qed.

Lemma step_iter_RecordFinished_witness :
  let conn := conn_with [Byte.x05; Byte.x03] in
  let b := batch_3_rows in
  let r2 := {| msgp.br := []; msgp.scratch := [Byte.x03] |} in
  (3 <> drv.recordCount b ->
   forall fuel,
     drv.step_loop (S fuel) drv.sTEP_FINALIZE (b, conn)
     = (drv.Exit false,
        (drv.set_err
           (Some (fmt_Errorf "Batch: recordcount mismatch (RSQL bug)."
                             [3; drv.recordCount b])) b,
         conn_at r2 conn)))
  /\ (3 = drv.recordCount b ->
      drv.step_iter drv.sTEP_FINALIZE (b, conn)
      = (drv.Next tt,
         ({| drv.text := drv.text b;
             drv.status_ := drv.sTATUS_RECORD_END;
             drv.recordsetCount := drv.recordsetCount b;
             drv.colnameList := None;
             drv.colnameMap := None;
             drv.record := None;
             drv.recordCount := 3;
             drv.execRecordCount := drv.execRecordCount b;
             drv.err := drv.err b;
             drv.rc := drv.rc b |},
          conn_at r2 conn))).
Proof.
  intros conn b r2.
  apply (step_iter_RecordFinished drv.sTEP_FINALIZE b conn
           {| msgp.br := [Byte.x03]; msgp.scratch := [Byte.x05] |} r2 3);
    reflexivity.
Defined.

(** Seen from the caller: on a batch without error whose next message is a
    RecordFinished with a count that differs, [step] returns false and the
    batch holds the mismatch error. *)
Lemma step_RecordFinished_mismatch
    (option : drv.stepOption) (b : drv.Batch) (conn : drv.Connection)
    (r1 r2 : msgp.Reader) (n : Z) :
  drv.err b = None ->
  rsqlib.Read_response_type (reader_of conn) = (Ok rsqlib.RESTYP_RECORD_FINISHED, r1) ->
  rsqlib.Read_int64 r1 = (Ok n, r2) ->
  n <> drv.recordCount b ->
  drv.step option (b, conn)
  = (drv.Returned false, (recordcount_mismatch n b, conn_at r2 conn)).
Proof.
  intros Herr Htag Hcount Hne.
  unfold drv.step. cbn [fst snd]. rewrite Herr.
  rewrite (step_loop_exit _ option (b, conn)
             (recordcount_mismatch n b, conn_at r2 conn) false); [reflexivity|].
  rewrite (step_iter_RecordFinished_cases option b conn r1 r2 n Htag Hcount).
  destruct (Z.eqb_spec n (drv.recordCount b)); [contradiction|reflexivity].
Qed.

(** C7: once [err] holds an error [e], [step] (and so [Next]) returns false
    and leaves the batch, the connection and its reader as they are;
    [Finalize] returns [e] and changes nothing; [Scan] returns [e] and
    assigns to no destination. *)
Theorem recorded_error_is_sticky `{GoRuntime}
    (e : error) (b : drv.Batch) (conn : drv.Connection) (option : drv.stepOption)
    (dest : list drv.destination) (h : gmap nat drv.value) :
  drv.err b = Some e ->
  drv.step option (b, conn) = (drv.Returned false, (b, conn))
  /\ drv.Finalize (b, conn) = (drv.Returned (Some e), (b, conn))
  /\ drv.Scan b dest h = (Err e, h).
Proof.
  intros He. unfold drv.step, drv.Finalize, drv.Scan. cbn [fst]. rewrite He.
  repeat split.
Qed.

Lemma recorded_error_is_sticky_witness :
  let conn := conn_with [Byte.x04; Byte.x91; Byte.x07] in
  let dest := [drv.Pointer drv.K_int64 0] in
  drv.step drv.sTEP_NEXT_RECORD (batch_failed, conn)
  = (drv.Returned false, (batch_failed, conn))
  /\ drv.Finalize (batch_failed, conn)
     = (drv.Returned (Some io_EOF), (batch_failed, conn))
  /\ @drv.Scan sample_runtime batch_failed dest ∅ = (Err io_EOF, ∅).
Proof.
  intros conn dest.
  apply (@recorded_error_is_sticky sample_runtime io_EOF batch_failed conn
           drv.sTEP_NEXT_RECORD dest ∅).
  reflexivity.
Defined.

(** ** Scan *)

Section Scan.
Context `{GoRuntime}.















End Scan.



(** In that scan the failure is in the loop: the first variable has been
    assigned although [Scan] returned an error. *)
Lemma Scan_int64_int8_in_loop :
  let dest := [drv.Pointer drv.K_int64 0; drv.Pointer drv.K_int8 1] in
  let e := fmt_Errorf "scan: column %d to int8: overflow." [1] in
  let h' := <[0%nat := drv.V_int 7]> (∅ : gmap nat drv.value) in
  @drv.Scan sample_runtime batch_7_1000 dest ∅ = (Err e, h')
  /\ ~ failed_before_loop batch_7_1000 dest e ∅ h'
  /\ h' !! 0%nat = Some (drv.V_int 7).
Proof.
  intros dest e h'. split; [reflexivity|]. split; [|reflexivity].
  intros [Hh _]. assert (Hl : h' !! 0%nat = (∅ : gmap nat drv.value) !! 0%nat) by now rewrite Hh.
  discriminate Hl.
Qed.


(** ** The message loop ends

    A reading function never gives bytes back to the stream, and reading a
    response tag takes at least one. *)

Create HintDb shrink.

Lemma shrinks_ret {A} (a : A) : shrinks (msgp.ret a).
Proof. intros m r m' [= <- <-]. lia. Qed.

Lemma shrinks_fail {A} (e : error) : shrinks (@msgp.fail A e).
Proof. intros m r m' [= <- <-]. lia. Qed.

Lemma shrinks_panic {A} (msg : string) : shrinks (@msgp.panic A msg).
Proof. intros m r m' [= <- <-]. lia. Qed.

Lemma shrinks_bind {A B} (c : msgp.M A) (k : A -> msgp.M B) :
  shrinks c -> (forall a, shrinks (k a)) -> shrinks (msgp.bind c k).
Proof.
  intros Hc Hk m r m' H. unfold msgp.bind in H.
  destruct (c m) as [[a|e|msg] m1] eqn:E; apply Hc in E.
  - apply Hk in H. lia.
  - injection H as <- <-. lia.
  - injection H as <- <-. lia.
Qed.

Lemma shrinks_if {A} (t : bool) (c1 c2 : msgp.M A) :
  shrinks c1 -> shrinks c2 -> shrinks (if t then c1 else c2).
Proof. destruct t; trivial. Qed.

Lemma shrinks_ReadNBytes (dest : list byte) (n : Z) : shrinks (msgp.ReadNBytes dest n).
Proof.
  intros m r m' H. unfold msgp.ReadNBytes in H.
  destruct (n <=? len (msgp.br m)); injection H as <- <-; cbn [msgp.br].
  - rewrite length_skipn. lia.
  - simpl. lia.
Qed.

Lemma shrinks_peek_byte : shrinks msgp.peek_byte.
Proof.
  intros m r m' H. unfold msgp.peek_byte in H.
  destruct (msgp.br m) eqn:E; injection H as <- <-; rewrite E; lia.
Qed.

Lemma shrinks_get_scratch : shrinks msgp.get_scratch.
Proof. intros m r m' [= <- <-]. lia. Qed.

Lemma shrinks_set_scratch (buff : list byte) : shrinks (msgp.set_scratch buff).
Proof. intros m r m' [= <- <-]. simpl. lia. Qed.

#[local] Hint Resolve shrinks_ret shrinks_fail shrinks_panic shrinks_ReadNBytes
  shrinks_peek_byte shrinks_get_scratch shrinks_set_scratch : shrink.

Ltac shrink :=
  repeat first
    [ progress auto with shrink
    | apply shrinks_bind; [|intro]
    | apply shrinks_if
    | match goal with |- shrinks (let '(_, _) := ?p in _) => destruct p end ].

Lemma shrinks_read_N (n : Z) : shrinks (msgp.read_N n).
Proof. unfold msgp.read_N. shrink. Qed.
#[local] Hint Resolve shrinks_read_N : shrink.

Lemma shrinks_read_prefix : shrinks msgp.read_prefix.
Proof. unfold msgp.read_prefix. shrink. Qed.

Lemma shrinks_read_raw_uint8 : shrinks msgp.read_raw_uint8.
Proof. unfold msgp.read_raw_uint8. shrink. Qed.

Lemma shrinks_read_raw_uint16 : shrinks msgp.read_raw_uint16.
Proof. unfold msgp.read_raw_uint16. shrink. Qed.

Lemma shrinks_read_raw_uint32 : shrinks msgp.read_raw_uint32.
Proof. unfold msgp.read_raw_uint32. shrink. Qed.

Lemma shrinks_read_raw_uint64 : shrinks msgp.read_raw_uint64.
Proof. unfold msgp.read_raw_uint64. shrink. Qed.
#[local] Hint Resolve shrinks_read_prefix shrinks_read_raw_uint8 shrinks_read_raw_uint16
  shrinks_read_raw_uint32 shrinks_read_raw_uint64 : shrink.

Lemma shrinks_read_raw_int8 : shrinks msgp.read_raw_int8.
Proof. unfold msgp.read_raw_int8. shrink. Qed.

Lemma shrinks_read_raw_int16 : shrinks msgp.read_raw_int16.
Proof. unfold msgp.read_raw_int16. shrink. Qed.

Lemma shrinks_read_raw_int32 : shrinks msgp.read_raw_int32.
Proof. unfold msgp.read_raw_int32. shrink. Qed.

Lemma shrinks_read_raw_int64 : shrinks msgp.read_raw_int64.
Proof. unfold msgp.read_raw_int64. shrink. Qed.
#[local] Hint Resolve shrinks_read_raw_int8 shrinks_read_raw_int16 shrinks_read_raw_int32
  shrinks_read_raw_int64 : shrink.

Lemma shrinks_NextType : shrinks msgp.NextType.
Proof. unfold msgp.NextType. shrink. Qed.

Lemma shrinks_ReadNil : shrinks msgp.ReadNil.
Proof. unfold msgp.ReadNil. shrink. Qed.

Lemma shrinks_ReadBool : shrinks msgp.ReadBool.
Proof. unfold msgp.ReadBool. shrink. Qed.

Lemma shrinks_ReadUint64 : shrinks msgp.ReadUint64.
Proof. unfold msgp.ReadUint64. shrink. Qed.

Lemma shrinks_ReadInt64 : shrinks msgp.ReadInt64.
Proof. unfold msgp.ReadInt64. shrink. Qed.
#[local] Hint Resolve shrinks_NextType shrinks_ReadNil shrinks_ReadBool shrinks_ReadUint64
  shrinks_ReadInt64 : shrink.

Lemma shrinks_ReadUint8 : shrinks msgp.ReadUint8.
Proof. unfold msgp.ReadUint8. shrink. Qed.

Lemma shrinks_ReadUint16 : shrinks msgp.ReadUint16.
Proof. unfold msgp.ReadUint16. shrink. Qed.

Lemma shrinks_ReadUint32 : shrinks msgp.ReadUint32.
Proof. unfold msgp.ReadUint32. shrink. Qed.

Lemma shrinks_ReadInt8 : shrinks msgp.ReadInt8.
Proof. unfold msgp.ReadInt8. shrink. Qed.

Lemma shrinks_ReadInt16 : shrinks msgp.ReadInt16.
Proof. unfold msgp.ReadInt16. shrink. Qed.

Lemma shrinks_ReadInt32 : shrinks msgp.ReadInt32.
Proof. unfold msgp.ReadInt32. shrink. Qed.

Lemma shrinks_ReadFloat64 : shrinks msgp.ReadFloat64.
Proof. unfold msgp.ReadFloat64. shrink. Qed.

Lemma shrinks_ReadStringHeader : shrinks msgp.ReadStringHeader.
Proof. unfold msgp.ReadStringHeader. shrink. Qed.

Lemma shrinks_ReadBytesHeader : shrinks msgp.ReadBytesHeader.
Proof. unfold msgp.ReadBytesHeader. shrink. Qed.

Lemma shrinks_ReadArrayHeader : shrinks msgp.ReadArrayHeader.
Proof. unfold msgp.ReadArrayHeader. shrink. Qed.

Lemma shrinks_ReadMapHeader : shrinks msgp.ReadMapHeader.
Proof. unfold msgp.ReadMapHeader. shrink. Qed.
#[local] Hint Resolve shrinks_ReadUint8 shrinks_ReadUint16 shrinks_ReadUint32
  shrinks_ReadInt8 shrinks_ReadInt16 shrinks_ReadInt32 shrinks_ReadFloat64
  shrinks_ReadStringHeader shrinks_ReadBytesHeader shrinks_ReadArrayHeader
  shrinks_ReadMapHeader : shrink.

Lemma shrinks_ReadStringAsBytes (dest : list byte) : shrinks (msgp.ReadStringAsBytes dest).
Proof. unfold msgp.ReadStringAsBytes. shrink. Qed.

Lemma shrinks_ReadBytes (dest : list byte) : shrinks (msgp.ReadBytes dest).
Proof. unfold msgp.ReadBytes. shrink. Qed.
#[local] Hint Resolve shrinks_ReadStringAsBytes shrinks_ReadBytes : shrink.

Lemma shrinks_ReadString : shrinks msgp.ReadString.
Proof. unfold msgp.ReadString. shrink. Qed.
#[local] Hint Resolve shrinks_ReadString : shrink.

Lemma shrinks_assert (val : bool) : shrinks (rsqlib.assert val).
Proof. unfold rsqlib.assert. shrink. Qed.

Lemma shrinks_ReadNil_dropped : shrinks rsqlib.ReadNil_dropped.
Proof.
  intros m r m' H. unfold rsqlib.ReadNil_dropped in H.
  destruct (msgp.ReadNil m) as [[a|e|msg] m1] eqn:E; apply shrinks_ReadNil in E;
    injection H as <- <-; exact E.
Qed.
#[local] Hint Resolve shrinks_assert shrinks_ReadNil_dropped : shrink.

Lemma shrinks_read_nullable {T} (null : T) (value : msgp.M T) :
  shrinks value -> shrinks (rsqlib.read_nullable null value).
Proof. intros Hv. unfold rsqlib.read_nullable. shrink. Qed.

Lemma shrinks_fmap_M {A B} (g : A -> B) (c : msgp.M A) :
  shrinks c -> shrinks (rsqlib.fmap_M g c).
Proof. intros Hc. unfold rsqlib.fmap_M. shrink. Qed.
#[local] Hint Resolve shrinks_read_nullable shrinks_fmap_M : shrink.

Lemma shrinks_read_value (field : rsqlib.IField) : shrinks (rsqlib.read_value field).
Proof.
  destruct field; unfold rsqlib.read_value;
    unfold rsqlib.Void.read_value, rsqlib.Boolean.read_value, rsqlib.Varbinary.read_value,
      rsqlib.Varchar.read_value, rsqlib.Bit.read_value, rsqlib.Tinyint.read_value,
      rsqlib.Smallint.read_value, rsqlib.Int.read_value, rsqlib.Bigint.read_value,
      rsqlib.Money.read_value, rsqlib.Numeric.read_value, rsqlib.Float.read_value,
      rsqlib.Date.read_value, rsqlib.Time.read_value, rsqlib.Datetime.read_value;
    shrink.
Qed.

Lemma shrinks_read_colnames (n : nat) :
  forall colname_list, shrinks (rsqlib.read_colnames n colname_list).
Proof. induction n; intros l; cbn [rsqlib.read_colnames]; shrink. Qed.

Lemma shrinks_new_field : shrinks rsqlib.new_field.
Proof. unfold rsqlib.new_field. shrink. Qed.
#[local] Hint Resolve shrinks_read_value shrinks_read_colnames shrinks_new_field : shrink.

Lemma shrinks_new_fields (n : nat) : shrinks (rsqlib.new_fields n).
Proof. induction n; cbn [rsqlib.new_fields]; shrink. Qed.

Lemma shrinks_read_error_entry (e : rsqlib.Error_info) : shrinks (rsqlib.read_error_entry e).
Proof. unfold rsqlib.read_error_entry. shrink. Qed.
#[local] Hint Resolve shrinks_new_fields shrinks_read_error_entry : shrink.

Lemma shrinks_read_error_entries (n : nat) :
  forall e, shrinks (rsqlib.read_error_entries n e).
Proof. induction n; intros e; cbn [rsqlib.read_error_entries]; shrink. Qed.
#[local] Hint Resolve shrinks_read_error_entries : shrink.

Lemma shrinks_Create_colname_list : shrinks rsqlib.Create_colname_list.
Proof. unfold rsqlib.Create_colname_list. shrink. Qed.

Lemma shrinks_Create_row : shrinks rsqlib.Create_row.
Proof. unfold rsqlib.Create_row. shrink. Qed.

Lemma shrinks_Read_Error_info : shrinks rsqlib.Read_Error_info.
Proof. unfold rsqlib.Read_Error_info. shrink. Qed.

Lemma fill_fields_shrinks (row : list rsqlib.IField) :
  forall m r row' m',
    rsqlib.fill_fields row m = (r, row', m') ->
    (length (msgp.br m') <= length (msgp.br m))%nat.
Proof.
  induction row as [|field tl IH]; intros m r row' m' H; cbn [rsqlib.fill_fields] in H.
  - injection H as <- <- <-. lia.
  - destruct (rsqlib.read_value field m) as [[f|e|msg] m1] eqn:E;
      apply shrinks_read_value in E.
    + destruct (rsqlib.fill_fields tl m1) as [[r1 tl1] m2] eqn:E2.
      apply IH in E2. injection H as <- <- <-. lia.
    + injection H as <- <- <-. lia.
    + injection H as <- <- <-. lia.
Qed.

Lemma Fill_row_with_values_shrinks (row : list rsqlib.IField) :
  forall m r row' m',
    rsqlib.Fill_row_with_values row m = (r, row', m') ->
    (length (msgp.br m') <= length (msgp.br m))%nat.
Proof.
  intros m r row' m' H. unfold rsqlib.Fill_row_with_values in H.
  destruct (msgp.ReadArrayHeader m) as [[sz|e|msg] m1] eqn:E;
    apply shrinks_ReadArrayHeader in E.
  - destruct (len row =? sz).
    + apply fill_fields_shrinks in H. lia.
    + injection H as <- <- <-. lia.
  - injection H as <- <- <-. lia.
  - injection H as <- <- <-. lia.
Qed.

Lemma consumes_read_prefix : consumes msgp.read_prefix.
Proof.
  intros m a m' H. destruct m as [[|p rest] s].
  - discriminate H.
  - rewrite read_prefix_cons in H. injection H as <- <-. simpl. lia.
Qed.

Lemma consumes_bind {A B} (c : msgp.M A) (k : A -> msgp.M B) :
  consumes c -> (forall a, shrinks (k a)) -> consumes (msgp.bind c k).
Proof.
  intros Hc Hk m b m' H. unfold msgp.bind in H.
  destruct (c m) as [[a|e|msg] m1] eqn:E; try discriminate H.
  apply Hc in E. apply Hk in H. lia.
Qed.

Lemma consumes_Read_response_type : consumes rsqlib.Read_response_type.
Proof.
  unfold rsqlib.Read_response_type, msgp.ReadUint8, msgp.ReadUint64.
  apply consumes_bind; [apply consumes_bind; [exact consumes_read_prefix|]|];
    intro; shrink.
Qed.

Lemma steady_next {A} (a : A) : steady (drv.next a).
Proof. intros st o st' [= <- <-]. split; [discriminate|lia]. Qed.

Lemma steady_exit {A} (res : bool) : steady (@drv.exit A res).
Proof. intros st o st' [= <- <-]. split; [discriminate|lia]. Qed.

Lemma steady_crash {A} (msg : string) : steady (@drv.crash A msg).
Proof. intros st o st' [= <- <-]. split; [discriminate|lia]. Qed.

Lemma steady_get_batch : steady drv.get_batch.
Proof. intros st o st' [= <- <-]. split; [discriminate|lia]. Qed.

Lemma steady_modify_batch (f : drv.Batch -> drv.Batch) : steady (drv.modify_batch f).
Proof. intros st o st' [= <- <-]. split; [discriminate|simpl; lia]. Qed.

Lemma steady_set_isDirty (v : bool) : steady (drv.modify_conn (drv.set_isDirty v)).
Proof. intros st o st' [= <- <-]. split; [discriminate|unfold drv.unread; simpl; lia]. Qed.

Lemma steady_bindS {A B} (c : drv.S_ A) (k : A -> drv.S_ B) :
  steady c -> (forall a, steady (k a)) -> steady (drv.bindS c k).
Proof.
  intros Hc Hk st o st' H. unfold drv.bindS in H.
  destruct (c st) as [[a|res|msg|] st1] eqn:E; apply Hc in E as [Hnd Hle].
  - apply Hk in H as [H1 H2]. split; [exact H1|lia].
  - injection H as <- <-. split; [discriminate|lia].
  - injection H as <- <-. split; [discriminate|lia].
  - contradiction.
Qed.

Lemma steady_if {A} (t : bool) (c1 c2 : drv.S_ A) :
  steady c1 -> steady c2 -> steady (if t then c1 else c2).
Proof. destruct t; trivial. Qed.

Lemma steady_try_read {A} (c : msgp.M A) : shrinks c -> steady (drv.try_read c).
Proof.
  intros Hc [b conn] o st' H. unfold drv.try_read, rsqlib.with_mr in H.
  destruct (c (rsqlib.mr (drv.session conn))) as [[a|e|msg] m1] eqn:E;
    apply Hc in E; injection H as <- <-;
    (split; [discriminate|unfold drv.unread; simpl; lia]).
Qed.

Lemma steady_try_fill (row : list rsqlib.IField)
    (keep : list rsqlib.IField -> drv.Batch -> drv.Batch) :
  steady (drv.try_fill row keep).
Proof.
  intros [b conn] o st' H. unfold drv.try_fill in H.
  destruct (rsqlib.Fill_row_with_values row (rsqlib.mr (drv.session conn)))
    as [[r row'] m1] eqn:E.
  apply Fill_row_with_values_shrinks in E.
  destruct r; injection H as <- <-;
    (split; [discriminate|unfold drv.unread; simpl; lia]).
Qed.

Lemma advances_try_read {A} (c : msgp.M A) : consumes c -> advances (drv.try_read c).
Proof.
  intros Hc [b conn] a st' H. unfold drv.try_read, rsqlib.with_mr in H.
  destruct (c (rsqlib.mr (drv.session conn))) as [[a'|e|msg] m1] eqn:E;
    try discriminate H.
  apply Hc in E. injection H as <- <-. unfold drv.unread. simpl. lia.
Qed.

Lemma advances_bindS {A B} (c : drv.S_ A) (k : A -> drv.S_ B) :
  advances c -> (forall a, steady (k a)) -> advances (drv.bindS c k).
Proof.
  intros Hc Hk st b st' H. unfold drv.bindS in H.
  destruct (c st) as [[a|res|msg|] st1] eqn:E; try discriminate H.
  apply Hc in E. apply Hk in H as [_ H]. lia.
Qed.

Ltac steady_steps :=
  repeat first
    [ apply steady_next | apply steady_exit | apply steady_crash
    | apply steady_get_batch | apply steady_modify_batch | apply steady_set_isDirty
    | apply steady_try_fill
    | apply steady_try_read;
        first [ apply shrinks_Create_colname_list | apply shrinks_Create_row
              | apply shrinks_Read_Error_info | apply shrinks_ReadInt64
              | apply shrinks_ReadString | apply shrinks_ReadUint8 ]
    | apply steady_bindS; [|intro]
    | apply steady_if ].

Lemma steady_step_iter (option : drv.stepOption) : steady (drv.step_iter option).
Proof. unfold drv.step_iter. steady_steps. Qed.

Lemma advances_step_iter (option : drv.stepOption) : advances (drv.step_iter option).
Proof.
  unfold drv.step_iter.
  apply advances_bindS; [apply advances_try_read, consumes_Read_response_type|].
  intro resp. steady_steps.
Qed.

Lemma step_loop_ends (option : drv.stepOption) (fuel : nat) :
  forall st,
    (drv.unread (snd st) < fuel)%nat ->
    ended (fst (drv.step_loop fuel option st)).
Proof.
  induction fuel as [|fuel IH]; intros st Hfuel; [lia|].
  cbn [drv.step_loop]. unfold drv.bindS.
  destruct (drv.step_iter option st) as [[[]|res|msg|] st1] eqn:E.
  - apply advances_step_iter in E. apply IH. lia.
  - exact I.
  - exact I.
  - apply steady_step_iter in E as [E _]. contradiction.
Qed.

(** [step] always returns or panics: the fuel of the loop never runs out. *)
Theorem step_returns (option : drv.stepOption) (st : drv.Batch * drv.Connection) :
  fst (drv.step option st) <> drv.OutOfFuel.
Proof.
  unfold drv.step. destruct (drv.err (fst st)); [discriminate|].
  pose proof (step_loop_ends option (S (drv.unread (snd st))) st ltac:(lia)) as H.
  destruct (drv.step_loop (S (drv.unread (snd st))) option st) as [[a|res|msg|] st'];
    simpl in H; try contradiction; discriminate.
Qed.

(** And so does [Finalize]. *)
Theorem Finalize_returns (st : drv.Batch * drv.Connection) :
  fst (drv.Finalize st) <> drv.OutOfFuel.
Proof.
  unfold drv.Finalize. destruct (drv.err (fst st)); [discriminate|].
  destruct (negb _); [|discriminate].
  pose proof (step_returns drv.sTEP_FINALIZE st) as H.
  destruct (drv.step drv.sTEP_FINALIZE st) as [[res|msg|] st'];
    simpl in H |- *; try discriminate. contradiction.
Qed.

(** Scenarios S1, S3 and S6 of the specification, run on the model. *)

Example scenario_S1 :
  let out := drv.Finalize (batch_sent "insert", conn_with stream_S1) in
  fst out = drv.Returned None
  /\ drv.execRecordCount (fst (snd out)) = 3
  /\ drv.rc (fst (snd out)) = 0
  /\ drv.status_ (fst (snd out)) = drv.sTATUS_BATCH_END
  /\ drv.isDirty (snd (snd out)) = false.
Proof. vm_compute. repeat split. Qed.

Example scenario_S3 :
  let out := drv.Finalize (batch_sent "select 1/0", conn_with stream_S3) in
  fst out
  = drv.Returned
      (Some (batch_error
               (drv.newBatchError (fold_left store_field divide_by_zero
                                              rsqlib.Error_info_zero))))
  /\ drv.status_ (fst (snd out)) = drv.sTATUS_BATCH_END
  /\ drv.isDirty (snd (snd out)) = false.
Proof. vm_compute. repeat split. Qed.

Example scenario_S6 :
  fst (rsqlib.Datetime.read_value
         {| rsqlib.Datetime.Is_Null := true; rsqlib.Datetime.Val := time.zero |}
         (reader_on datetime_S6))
  = Ok {| rsqlib.Datetime.Is_Null := false;
          rsqlib.Datetime.Val :=
            {| time.sec := 3600; time.nsec := 500000000; time.loc := time.UTC |} |}.
Proof. vm_compute. reflexivity. Qed.

(** ** The codec: every encoder against its reader *)

(** *** Composition of readers *)

Lemma decodes_ret {A} (v : A) : decodes (msgp.ret v) [] v.
Proof. intros rest s. exists s. reflexivity. Qed.

Lemma decodes_bind {A B} (c : msgp.M A) (k : A -> msgp.M B)
    (w1 w2 : list byte) (a : A) (b : B) :
  decodes c w1 a -> decodes (k a) w2 b -> decodes (msgp.bind c k) (w1 ++ w2) b.
Proof.
  intros H1 H2 rest s.
  destruct (H1 (w2 ++ rest) s) as [s1 E1].
  destruct (H2 rest s1) as [s2 E2].
  exists s2. unfold msgp.bind. rewrite <- app_assoc, E1. exact E2.
Qed.

Lemma refuses_bind {A B} (c : msgp.M A) (k : A -> msgp.M B)
    (w1 w2 : list byte) (a : A) (e : error) :
  decodes c w1 a -> refuses (k a) w2 e -> refuses (msgp.bind c k) (w1 ++ w2) e.
Proof.
  intros H1 H2 rest s.
  destruct (H1 (w2 ++ rest) s) as [s1 E1].
  destruct (H2 rest s1) as [s2 E2].
  exists s2. unfold msgp.bind. rewrite <- app_assoc, E1. exact E2.
Qed.

Lemma decodes_fmap {A B} (c : msgp.M A) (g : A -> B) (w : list byte) (a : A) :
  decodes c w a -> decodes (msgp.bind c (fun x => msgp.ret (g x))) w (g a).
Proof.
  intros H. rewrite <- (app_nil_r w).
  apply (decodes_bind c _ w [] a); [exact H|apply decodes_ret].
Qed.

Lemma decodes_read_prefix (p : byte) : decodes msgp.read_prefix [p] p.
Proof. intros rest s. eexists. apply read_prefix_cons. Qed.

Lemma decodes_ReadNBytes (dest chunk : list byte) :
  decodes (msgp.ReadNBytes dest (len chunk)) chunk chunk.
Proof. intros rest s. exists s. apply ReadNBytes_app. Qed.

(** *** Integers *)

Lemma decodes_ReadUint64 (v : Z) :
  0 <= v <= MaxUint64 -> decodes msgp.ReadUint64 (msgp.AppendUint64 [] v) v.
Proof.
  unfold MaxUint64. intros Hv rest s.
  unfold msgp.AppendUint64, MaxUint8, MaxUint16, MaxUint32.
  destruct (Z.leb_spec v 127);
    [|destruct (Z.leb_spec v 255);
      [|destruct (Z.leb_spec v 65535); [|destruct (Z.leb_spec v 4294967295)]]];
    eexists; simpl app;
    unfold msgp.ReadUint64, msgp.bind; rewrite read_prefix_cons.
  - rewrite u8_uint8, Z.mod_small by lia.
    destruct (Z.leb_spec v 127); [reflexivity|lia].
  - simpl. rewrite read_raw_uint8_cons. bytes_of_value.
    rewrite Z.mod_small by lia. reflexivity.
  - simpl. rewrite read_raw_uint16_cons. bytes_of_value.
    do 2 f_equal. Z.div_mod_to_equations. lia.
  - simpl. rewrite read_raw_uint32_cons. bytes_of_value.
    do 2 f_equal. Z.div_mod_to_equations. lia.
  - simpl. rewrite read_raw_uint64_cons. bytes_of_value.
    do 2 f_equal. Z.div_mod_to_equations. lia.
Qed.

Lemma decodes_ReadInt64 (v : Z) :
  MinInt64 <= v <= MaxInt64 -> decodes msgp.ReadInt64 (msgp.AppendInt64 [] v) v.
Proof. intros Hv rest s. now apply ReadInt64_AppendInt64. Qed.

Lemma int_band_width_spec (v : Z) :
  len (msgp.AppendInt64 [] v) = int_band_width v.
Proof.
  unfold msgp.AppendInt64, int_band_width, MinInt8, MinInt16, MinInt32, MaxInt16, MaxInt32.
  destruct (Z.geb_spec v 0);
    [destruct (Z.leb_spec v 127);
      [|destruct (Z.leb_spec v 32767); [|destruct (Z.leb_spec v 2147483647)]]
    |destruct (Z.geb_spec v (-32));
      [|destruct (Z.geb_spec v (-128));
        [|destruct (Z.geb_spec v (-32768)); [|destruct (Z.geb_spec v (-2147483648))]]]];
    repeat match goal with
           | |- context [?a <=? ?b] => destruct (Z.leb_spec a b); try lia
           | |- context [?a <? ?b] => destruct (Z.ltb_spec a b); try lia
           end; reflexivity.
Qed.

(** X1: the signed round trip with its widths. [ReadInt64] gives back every
    int64 value written by [AppendInt64], and the encoding takes 1 byte from
    -32 to 127, 2 bytes down to -128, 3 bytes within int16, 5 bytes within
    int32 and 9 bytes beyond. *)
Theorem AppendInt64_ReadInt64_widths (v : Z) :
  MinInt64 <= v <= MaxInt64 ->
  decodes msgp.ReadInt64 (msgp.AppendInt64 [] v) v
  /\ len (msgp.AppendInt64 [] v) = int_band_width v.
Proof.
  intros Hv. split; [now apply decodes_ReadInt64|apply int_band_width_spec].
Qed.

Lemma AppendInt64_ReadInt64_widths_witness :
  decodes msgp.ReadInt64 (msgp.AppendInt64 [] (-129)) (-129)
  /\ len (msgp.AppendInt64 [] (-129)) = int_band_width (-129).
Proof.
  apply (AppendInt64_ReadInt64_widths (-129)). unfold MinInt64, MaxInt64. lia.
Defined.

Lemma refuses_fail {A} (e : error) : refuses (@msgp.fail A e) [] e.
Proof. intros rest s. exists s. reflexivity. Qed.

Lemma narrow_unsigned_cases (v : Z) :
  0 <= v <= MaxUint64 ->
  let wire := msgp.AppendUint64 [] v in
  (if v <=? MaxUint8 then decodes msgp.ReadUint8 wire v
   else refuses msgp.ReadUint8 wire (fmt_Errorf "msgp: ReadUint8 overflow, read %d" [v]))
  /\ (if v <=? MaxUint16 then decodes msgp.ReadUint16 wire v
      else refuses msgp.ReadUint16 wire (fmt_Errorf "msgp: ReadUint16 overflow, read %d" [v]))
  /\ (if v <=? MaxUint32 then decodes msgp.ReadUint32 wire v
      else refuses msgp.ReadUint32 wire (fmt_Errorf "msgp: ReadUint32 overflow, read %d" [v])).
Proof.
  intros Hv wire. pose proof (decodes_ReadUint64 v Hv) as H. fold wire in H.
  unfold MaxUint64 in Hv. unfold MaxUint8, MaxUint16, MaxUint32.
  rewrite <- (app_nil_r wire).
  repeat split.
  - destruct (Z.leb_spec v 255).
    + unfold msgp.ReadUint8. eapply decodes_bind; [exact H|].
      unfold MaxUint8. destruct (Z.gtb_spec v 255); [lia|].
      rewrite u8_uint8, Z.mod_small by lia. apply decodes_ret.
    + unfold msgp.ReadUint8. eapply refuses_bind; [exact H|].
      unfold MaxUint8. destruct (Z.gtb_spec v 255); [|lia]. apply refuses_fail.
  - destruct (Z.leb_spec v 65535).
    + unfold msgp.ReadUint16. eapply decodes_bind; [exact H|].
      unfold MaxUint16. destruct (Z.gtb_spec v 65535); [lia|].
      change (2 ^ 16) with 65536. rewrite Z.mod_small by lia. apply decodes_ret.
    + unfold msgp.ReadUint16. eapply refuses_bind; [exact H|].
      unfold MaxUint16. destruct (Z.gtb_spec v 65535); [|lia]. apply refuses_fail.
  - destruct (Z.leb_spec v 4294967295).
    + unfold msgp.ReadUint32. eapply decodes_bind; [exact H|].
      unfold MaxUint32. destruct (Z.gtb_spec v 4294967295); [lia|].
      change (2 ^ 32) with 4294967296. rewrite Z.mod_small by lia. apply decodes_ret.
    + unfold msgp.ReadUint32. eapply refuses_bind; [exact H|].
      unfold MaxUint32. destruct (Z.gtb_spec v 4294967295); [|lia]. apply refuses_fail.
Qed.

(** X2: the narrow unsigned readers on the encoding of any uint64 value: a
    value that fits the width is returned, a larger one is read in full and
    reported as an overflow that names the value. *)
Theorem narrow_unsigned_readers (v : Z) :
  0 <= v <= MaxUint64 ->
  let wire := msgp.AppendUint64 [] v in
  (if v <=? MaxUint8 then decodes msgp.ReadUint8 wire v
   else refuses msgp.ReadUint8 wire (fmt_Errorf "msgp: ReadUint8 overflow, read %d" [v]))
  /\ (if v <=? MaxUint16 then decodes msgp.ReadUint16 wire v
      else refuses msgp.ReadUint16 wire (fmt_Errorf "msgp: ReadUint16 overflow, read %d" [v]))
  /\ (if v <=? MaxUint32 then decodes msgp.ReadUint32 wire v
      else refuses msgp.ReadUint32 wire (fmt_Errorf "msgp: ReadUint32 overflow, read %d" [v])).
Proof. exact (narrow_unsigned_cases v). Qed.

Lemma narrow_unsigned_readers_witness :
  let wire := msgp.AppendUint64 [] 256 in
  (if 256 <=? MaxUint8 then decodes msgp.ReadUint8 wire 256
   else refuses msgp.ReadUint8 wire (fmt_Errorf "msgp: ReadUint8 overflow, read %d" [256]))
  /\ (if 256 <=? MaxUint16 then decodes msgp.ReadUint16 wire 256
      else refuses msgp.ReadUint16 wire
             (fmt_Errorf "msgp: ReadUint16 overflow, read %d" [256]))
  /\ (if 256 <=? MaxUint32 then decodes msgp.ReadUint32 wire 256
      else refuses msgp.ReadUint32 wire
             (fmt_Errorf "msgp: ReadUint32 overflow, read %d" [256])).
Proof.
  apply (narrow_unsigned_readers 256). unfold MaxUint64. lia.
Defined.

Lemma narrow_signed_cases (v : Z) :
  MinInt64 <= v <= MaxInt64 ->
  let wire := msgp.AppendInt64 [] v in
  (if (MinInt8 <=? v) && (v <=? MaxInt8) then decodes msgp.ReadInt8 wire v
   else refuses msgp.ReadInt8 wire (fmt_Errorf "msgp: ReadInt8 overflow, read %d" [v]))
  /\ (if (MinInt16 <=? v) && (v <=? MaxInt16) then decodes msgp.ReadInt16 wire v
      else refuses msgp.ReadInt16 wire (fmt_Errorf "msgp: ReadInt16 overflow, read %d" [v]))
  /\ (if (MinInt32 <=? v) && (v <=? MaxInt32) then decodes msgp.ReadInt32 wire v
      else refuses msgp.ReadInt32 wire (fmt_Errorf "msgp: ReadInt32 overflow, read %d" [v])).
Proof.
  intros Hv wire. pose proof (decodes_ReadInt64 v Hv) as H. fold wire in H.
  unfold MinInt64, MaxInt64 in Hv.
  unfold MinInt8, MaxInt8, MinInt16, MaxInt16, MinInt32, MaxInt32.
  rewrite <- (app_nil_r wire).
  repeat split.
  - unfold msgp.ReadInt8, MinInt8, MaxInt8.
    destruct (Z.leb_spec (-128) v), (Z.leb_spec v 127); simpl andb;
      (eapply decodes_bind || eapply refuses_bind); try exact H;
      destruct (Z.ltb_spec v (-128)), (Z.gtb_spec v 127); try lia; simpl orb;
      try apply refuses_fail.
    replace (to_int8 v) with v by signed_arith. apply decodes_ret.
  - unfold msgp.ReadInt16, MinInt16, MaxInt16.
    destruct (Z.leb_spec (-32768) v), (Z.leb_spec v 32767); simpl andb;
      (eapply decodes_bind || eapply refuses_bind); try exact H;
      destruct (Z.ltb_spec v (-32768)), (Z.gtb_spec v 32767); try lia; simpl orb;
      try apply refuses_fail.
    replace (to_int16 v) with v by signed_arith. apply decodes_ret.
  - unfold msgp.ReadInt32, MinInt32, MaxInt32.
    destruct (Z.leb_spec (-2147483648) v), (Z.leb_spec v 2147483647); simpl andb;
      (eapply decodes_bind || eapply refuses_bind); try exact H;
      destruct (Z.ltb_spec v (-2147483648)), (Z.gtb_spec v 2147483647); try lia;
      simpl orb; try apply refuses_fail.
    replace (to_int32 v) with v by signed_arith. apply decodes_ret.
Qed.

(** X3: the narrow signed readers on the encoding of any int64 value: a
    value within the width is returned, any other is read in full and
    reported as an overflow that names the value. *)
Theorem narrow_signed_readers (v : Z) :
  MinInt64 <= v <= MaxInt64 ->
  let wire := msgp.AppendInt64 [] v in
  (if (MinInt8 <=? v) && (v <=? MaxInt8) then decodes msgp.ReadInt8 wire v
   else refuses msgp.ReadInt8 wire (fmt_Errorf "msgp: ReadInt8 overflow, read %d" [v]))
  /\ (if (MinInt16 <=? v) && (v <=? MaxInt16) then decodes msgp.ReadInt16 wire v
      else refuses msgp.ReadInt16 wire (fmt_Errorf "msgp: ReadInt16 overflow, read %d" [v]))
  /\ (if (MinInt32 <=? v) && (v <=? MaxInt32) then decodes msgp.ReadInt32 wire v
      else refuses msgp.ReadInt32 wire (fmt_Errorf "msgp: ReadInt32 overflow, read %d" [v])).
Proof. exact (narrow_signed_cases v). Qed.

Lemma narrow_signed_readers_witness :
  let wire := msgp.AppendInt64 [] (-129) in
  (if (MinInt8 <=? -129) && (-129 <=? MaxInt8) then decodes msgp.ReadInt8 wire (-129)
   else refuses msgp.ReadInt8 wire (fmt_Errorf "msgp: ReadInt8 overflow, read %d" [-129]))
  /\ (if (MinInt16 <=? -129) && (-129 <=? MaxInt16) then decodes msgp.ReadInt16 wire (-129)
      else refuses msgp.ReadInt16 wire
             (fmt_Errorf "msgp: ReadInt16 overflow, read %d" [-129]))
  /\ (if (MinInt32 <=? -129) && (-129 <=? MaxInt32) then decodes msgp.ReadInt32 wire (-129)
      else refuses msgp.ReadInt32 wire
             (fmt_Errorf "msgp: ReadInt32 overflow, read %d" [-129])).
Proof.
  apply (narrow_signed_readers (-129)). unfold MinInt64, MaxInt64. lia.
Defined.

(** *** Nil, booleans and floats *)

Lemma decodes_ReadNil : decodes msgp.ReadNil (msgp.AppendNil []) tt.
Proof. intros rest s. eexists. unfold msgp.ReadNil, msgp.bind. simpl app.
  rewrite read_prefix_cons. reflexivity. Qed.

Lemma decodes_ReadBool (b : bool) : decodes msgp.ReadBool (msgp.AppendBool [] b) b.
Proof. intros rest s. unfold msgp.ReadBool, msgp.bind.
  destruct b; eexists; simpl app; rewrite read_prefix_cons; reflexivity. Qed.

Lemma decodes_ReadFloat32 (fbits : Z) :
  0 <= fbits < 2 ^ 32 -> decodes msgp.ReadFloat32 (msgp.AppendFloat32 [] fbits) fbits.
Proof.
  change (2 ^ 32) with 4294967296. intros H rest s. eexists.
  unfold msgp.ReadFloat32, msgp.AppendFloat32, msgp.bind. simpl app.
  rewrite read_prefix_cons. simpl. rewrite read_raw_uint32_cons. bytes_of_value.
  do 2 f_equal. Z.div_mod_to_equations. lia.
Qed.

Lemma decodes_ReadFloat64 (fbits : Z) :
  0 <= fbits < 2 ^ 64 -> decodes msgp.ReadFloat64 (msgp.AppendFloat64 [] fbits) fbits.
Proof.
  change (2 ^ 64) with 18446744073709551616. intros H rest s. eexists.
  unfold msgp.ReadFloat64, msgp.AppendFloat64, msgp.bind. simpl app.
  rewrite read_prefix_cons. simpl. rewrite read_raw_uint64_cons. bytes_of_value.
  do 2 f_equal. Z.div_mod_to_equations. lia.
Qed.

(** X4: the values of fixed size. Nil and the booleans take one byte and
    come back through [ReadNil] and [ReadBool]; each of the two readers
    refuses the other's byte with a bad-prefix error. A float32 takes 5 bytes
    and a float64 9, and [ReadFloat32], [ReadFloat64] give back the bit
    pattern that was written. *)
Theorem fixed_size_values_roundtrip (b : bool) (f32 f64 : Z) :
  0 <= f32 < 2 ^ 32 ->
  0 <= f64 < 2 ^ 64 ->
  decodes msgp.ReadNil (msgp.AppendNil []) tt
  /\ decodes msgp.ReadBool (msgp.AppendBool [] b) b
  /\ refuses msgp.ReadBool (msgp.AppendNil []) (error_bad_prefix "read bool" msgp.M_NIL)
  /\ refuses msgp.ReadNil (msgp.AppendBool [] b)
       (error_bad_prefix "read nil" (if b then msgp.M_TRUE else msgp.M_FALSE))
  /\ decodes msgp.ReadFloat32 (msgp.AppendFloat32 [] f32) f32
  /\ len (msgp.AppendFloat32 [] f32) = 5
  /\ decodes msgp.ReadFloat64 (msgp.AppendFloat64 [] f64) f64
  /\ len (msgp.AppendFloat64 [] f64) = 9.
Proof.
  intros H32 H64.
  split; [apply decodes_ReadNil|].
  split; [apply decodes_ReadBool|].
  split.
  { intros rest s. eexists. unfold msgp.ReadBool, msgp.bind. simpl app.
    rewrite read_prefix_cons. reflexivity. }
  split.
  { intros rest s. unfold msgp.ReadNil, msgp.bind.
    destruct b; eexists; simpl app; rewrite read_prefix_cons; reflexivity. }
  split; [now apply decodes_ReadFloat32|].
  split; [reflexivity|].
  split; [now apply decodes_ReadFloat64|reflexivity].
Qed.

Lemma fixed_size_values_roundtrip_witness :
  decodes msgp.ReadNil (msgp.AppendNil []) tt
  /\ decodes msgp.ReadBool (msgp.AppendBool [] true) true
  /\ refuses msgp.ReadBool (msgp.AppendNil []) (error_bad_prefix "read bool" msgp.M_NIL)
  /\ refuses msgp.ReadNil (msgp.AppendBool [] true)
       (error_bad_prefix "read nil" (if true then msgp.M_TRUE else msgp.M_FALSE))
  /\ decodes msgp.ReadFloat32 (msgp.AppendFloat32 [] 1065353216) 1065353216
  /\ len (msgp.AppendFloat32 [] 1065353216) = 5
  /\ decodes msgp.ReadFloat64 (msgp.AppendFloat64 [] 4607182418800017408)
       4607182418800017408
  /\ len (msgp.AppendFloat64 [] 4607182418800017408) = 9.
Proof.
  apply (fixed_size_values_roundtrip true 1065353216 4607182418800017408); lia.
Defined.

(** *** Headers *)

Lemma fixarray_prefix (sz : Z) :
  0 <= sz <= 15 ->
  let prefix := msgp.byte_or msgp.M_FIXARRAY_BASE (uint8 sz) in
  msgp.byte_eqb (msgp.byte_and prefix msgp.PREFIX_FIXARRAY_MASK) msgp.M_FIXARRAY_BASE = true
  /\ u8 (msgp.first_bits_4 prefix) = sz.
Proof.
  intros H prefix. subst prefix.
  pose proof (small_cases
    (fun sz =>
       msgp.byte_eqb (msgp.byte_and (msgp.byte_or msgp.M_FIXARRAY_BASE (uint8 sz))
                                    msgp.PREFIX_FIXARRAY_MASK) msgp.M_FIXARRAY_BASE
       && (u8 (msgp.first_bits_4 (msgp.byte_or msgp.M_FIXARRAY_BASE (uint8 sz))) =? sz))
    16 ltac:(vm_compute; reflexivity) sz ltac:(lia)) as Hc.
  apply andb_true_iff in Hc as [H1 H2]. split; [exact H1|now apply Z.eqb_eq].
Qed.

Lemma decodes_ReadStringHeader (sz : Z) :
  0 <= sz <= MaxUint32 ->
  decodes msgp.ReadStringHeader (msgp.AppendStringHeader [] sz) sz.
Proof. intros H rest s. now apply ReadStringHeader_AppendStringHeader. Qed.

Lemma decodes_ReadMapHeader (sz : Z) :
  0 <= sz <= MaxUint32 -> decodes msgp.ReadMapHeader (msgp.AppendMapHeader [] sz) sz.
Proof. intros H rest s. now apply ReadMapHeader_AppendMapHeader. Qed.

Lemma decodes_ReadBytesHeader (sz : Z) :
  0 <= sz <= MaxUint32 -> decodes msgp.ReadBytesHeader (msgp.AppendBytesHeader [] sz) sz.
Proof.
  unfold MaxUint32. intros Hsz rest s.
  unfold msgp.AppendBytesHeader, MaxUint8, MaxUint16.
  destruct (Z.leb_spec sz 255); [|destruct (Z.leb_spec sz 65535)];
    eexists; simpl app;
    unfold msgp.ReadBytesHeader, msgp.bind; rewrite read_prefix_cons.
  - simpl. rewrite read_raw_uint8_cons. bytes_of_value.
    rewrite Z.mod_small by lia. reflexivity.
  - simpl. rewrite read_raw_uint16_cons. bytes_of_value.
    do 2 f_equal. Z.div_mod_to_equations. lia.
  - simpl. rewrite read_raw_uint32_cons. bytes_of_value.
    do 2 f_equal. Z.div_mod_to_equations. lia.
Qed.

Lemma decodes_ReadArrayHeader (sz : Z) :
  0 <= sz <= MaxUint32 -> decodes msgp.ReadArrayHeader (msgp.AppendArrayHeader [] sz) sz.
Proof.
  unfold MaxUint32. intros Hsz rest s.
  unfold msgp.AppendArrayHeader, MaxUint16.
  destruct (Z.leb_spec sz 15); [|destruct (Z.leb_spec sz 65535)];
    eexists; simpl app;
    unfold msgp.ReadArrayHeader, msgp.bind; rewrite read_prefix_cons.
  - destruct (fixarray_prefix sz ltac:(lia)) as [-> ->]. reflexivity.
  - simpl. rewrite read_raw_uint16_cons. bytes_of_value.
    do 2 f_equal. Z.div_mod_to_equations. lia.
  - simpl. rewrite read_raw_uint32_cons. bytes_of_value.
    do 2 f_equal. Z.div_mod_to_equations. lia.
Qed.

Ltac width_cases :=
  repeat match goal with
         | |- context [?a <=? ?b] => destruct (Z.leb_spec a b); try lia
         end; try reflexivity.

Lemma str_header_width_spec (sz : Z) :
  len (msgp.AppendStringHeader [] sz) = str_header_width sz.
Proof.
  unfold msgp.AppendStringHeader, str_header_width, MaxUint8, MaxUint16. width_cases.
Qed.

Lemma bin_header_width_spec (sz : Z) :
  len (msgp.AppendBytesHeader [] sz) = bin_header_width sz.
Proof.
  unfold msgp.AppendBytesHeader, bin_header_width, MaxUint8, MaxUint16. width_cases.
Qed.

(** X5: the four headers. For every size that fits a uint32 each header
    reader gives back the size its encoder wrote; a string header takes 1 byte
    up to 31, 2 up to 255, 3 up to 65535, else 5; a binary header 2, 3 or 5;
    an array or a map header 1 byte up to 15, 3 up to 65535, else 5. *)
Theorem header_roundtrips (sz : Z) :
  0 <= sz <= MaxUint32 ->
  (decodes msgp.ReadStringHeader (msgp.AppendStringHeader [] sz) sz
   /\ len (msgp.AppendStringHeader [] sz) = str_header_width sz)
  /\ (decodes msgp.ReadBytesHeader (msgp.AppendBytesHeader [] sz) sz
      /\ len (msgp.AppendBytesHeader [] sz) = bin_header_width sz)
  /\ (decodes msgp.ReadArrayHeader (msgp.AppendArrayHeader [] sz) sz
      /\ len (msgp.AppendArrayHeader [] sz) = seq_header_width sz)
  /\ (decodes msgp.ReadMapHeader (msgp.AppendMapHeader [] sz) sz
      /\ len (msgp.AppendMapHeader [] sz) = seq_header_width sz).
Proof.
  intros H. repeat split.
  - now apply decodes_ReadStringHeader.
  - apply str_header_width_spec.
  - now apply decodes_ReadBytesHeader.
  - apply bin_header_width_spec.
  - now apply decodes_ReadArrayHeader.
  - unfold msgp.AppendArrayHeader, seq_header_width, MaxUint16. width_cases.
  - now apply decodes_ReadMapHeader.
  - unfold msgp.AppendMapHeader, seq_header_width, MaxUint16. width_cases.
Qed.

Lemma header_roundtrips_witness :
  (decodes msgp.ReadStringHeader (msgp.AppendStringHeader [] 32) 32
   /\ len (msgp.AppendStringHeader [] 32) = str_header_width 32)
  /\ (decodes msgp.ReadBytesHeader (msgp.AppendBytesHeader [] 32) 32
      /\ len (msgp.AppendBytesHeader [] 32) = bin_header_width 32)
  /\ (decodes msgp.ReadArrayHeader (msgp.AppendArrayHeader [] 32) 32
      /\ len (msgp.AppendArrayHeader [] 32) = seq_header_width 32)
  /\ (decodes msgp.ReadMapHeader (msgp.AppendMapHeader [] 32) 32
      /\ len (msgp.AppendMapHeader [] 32) = seq_header_width 32).
Proof.
  apply (header_roundtrips 32). unfold MaxUint32. lia.
Defined.

(** *** Strings and byte strings *)

Lemma bytes_of_string_of_bytes (b : list byte) : bytes_of_string (string_of_bytes b) = b.
Proof. apply list_byte_of_string_of_list_byte. Qed.

Lemma len_app {A} (l1 l2 : list A) : len (l1 ++ l2) = len l1 + len l2.
Proof. unfold len. rewrite length_app. lia. Qed.

Lemma AppendStringHeader_dest (dest : list byte) (sz : Z) :
  msgp.AppendStringHeader dest sz = dest ++ msgp.AppendStringHeader [] sz.
Proof.
  unfold msgp.AppendStringHeader.
  repeat match goal with |- context [if ?c then _ else _] => destruct c end;
    now rewrite <- ?app_assoc.
Qed.

Lemma AppendBytesHeader_dest (dest : list byte) (sz : Z) :
  msgp.AppendBytesHeader dest sz = dest ++ msgp.AppendBytesHeader [] sz.
Proof.
  unfold msgp.AppendBytesHeader.
  repeat match goal with |- context [if ?c then _ else _] => destruct c end;
    now rewrite <- ?app_assoc.
Qed.

Lemma decodes_ReadStringAsBytes (dest b : list byte) :
  len b <= MaxUint32 ->
  decodes (msgp.ReadStringAsBytes dest) (msgp.AppendStringHeader [] (len b) ++ b) b.
Proof.
  intros H. pose proof (len_nonneg b).
  unfold msgp.ReadStringAsBytes. eapply decodes_bind.
  - apply decodes_ReadStringHeader. lia.
  - apply decodes_ReadNBytes.
Qed.

Lemma decodes_ReadBytes (dest b : list byte) :
  len b <= MaxUint32 ->
  decodes (msgp.ReadBytes dest) (msgp.AppendBytesHeader [] (len b) ++ b) b.
Proof.
  intros H. pose proof (len_nonneg b).
  unfold msgp.ReadBytes. eapply decodes_bind.
  - apply decodes_ReadBytesHeader. lia.
  - apply decodes_ReadNBytes.
Qed.

Lemma decodes_ReadString (v : string) :
  len (bytes_of_string v) <= MaxUint32 -> decodes msgp.ReadString (wire_string v) v.
Proof. intros H rest s. now apply ReadString_wire_string. Qed.

(** X6: strings. A string of at most 2^32-1 bytes is written as its header
    and its bytes, by [AppendString] and by [AppendStringFromBytes] alike;
    [ReadString] gives back the string and [ReadStringAsBytes] its bytes,
    whatever buffer it is handed. A longer string makes both encoders
    panic. *)
Theorem string_roundtrip (b dest buf : list byte) :
  let s := string_of_bytes b in
  if len b <=? MaxUint32 then
    exists wire,
      msgp.AppendString dest s = Some (dest ++ wire)
      /\ msgp.AppendStringFromBytes dest b = Some (dest ++ wire)
      /\ decodes msgp.ReadString wire s
      /\ decodes (msgp.ReadStringAsBytes buf) wire b
      /\ len wire = str_header_width (len b) + len b
  else
    msgp.AppendString dest s = None /\ msgp.AppendStringFromBytes dest b = None.
Proof.
  cbv zeta. unfold msgp.AppendString, msgp.AppendStringFromBytes.
  rewrite bytes_of_string_of_bytes.
  destruct (Z.leb_spec (len b) MaxUint32), (Z.gtb_spec (len b) MaxUint32); try lia.
  - exists (msgp.AppendStringHeader [] (len b) ++ b).
    rewrite (AppendStringHeader_dest dest), <- app_assoc.
    repeat split.
    + pose proof (decodes_ReadString (string_of_bytes b)) as Hd.
      unfold wire_string in Hd. rewrite bytes_of_string_of_bytes in Hd. now apply Hd.
    + now apply decodes_ReadStringAsBytes.
    + now rewrite len_app, str_header_width_spec.
  - split; reflexivity.
Qed.

(** X7: byte strings. A slice of at most 2^32-1 bytes is written by
    [AppendBytes] as a binary header (2, 3 or 5 bytes) and the bytes, and
    [ReadBytes] gives the bytes back whatever buffer it is handed; a longer
    slice makes [AppendBytes] panic. [ReadString] refuses a byte string and
    [ReadBytes] a string: each stops at the other's header byte. *)
Theorem bytes_roundtrip (b dest buf : list byte) :
  if len b <=? MaxUint32 then
    exists wire,
      msgp.AppendBytes dest b = Some (dest ++ wire)
      /\ decodes (msgp.ReadBytes buf) wire b
      /\ len wire = bin_header_width (len b) + len b
      /\ stops_at msgp.ReadString wire
           (error_bad_prefix "read string" (hd Byte.x00 wire))
      /\ (let str := msgp.AppendStringHeader [] (len b) ++ b in
          stops_at (msgp.ReadBytes buf) str (error_bad_prefix "read bin" (hd Byte.x00 str)))
  else msgp.AppendBytes dest b = None.
Proof.
  unfold msgp.AppendBytes. pose proof (len_nonneg b) as H0.
  destruct (Z.leb_spec (len b) MaxUint32), (Z.gtb_spec (len b) MaxUint32); try lia;
    [|reflexivity].
  exists (msgp.AppendBytesHeader [] (len b) ++ b).
  rewrite (AppendBytesHeader_dest dest), <- app_assoc.
  split; [reflexivity|]. split; [now apply decodes_ReadBytes|].
  split; [now rewrite len_app, bin_header_width_spec|].
  split.
  - unfold msgp.AppendBytesHeader, MaxUint8, MaxUint16.
    destruct (Z.leb_spec (len b) 255); [|destruct (Z.leb_spec (len b) 65535)];
      intros rest s; eexists;
      unfold msgp.ReadString, msgp.ReadStringAsBytes, msgp.ReadStringHeader,
        msgp.bind, msgp.get_scratch; simpl app; rewrite read_prefix_cons; reflexivity.
  - cbv zeta. unfold msgp.AppendStringHeader, MaxUint8, MaxUint16, MaxUint32 in *.
    destruct (Z.leb_spec (len b) 31);
      [|destruct (Z.leb_spec (len b) 255); [|destruct (Z.leb_spec (len b) 65535)]];
      intros rest s; eexists;
      unfold msgp.ReadBytes, msgp.ReadBytesHeader, msgp.bind; simpl app;
      rewrite read_prefix_cons.
    2-4: reflexivity.
    pose proof (small_cases
      (fun sz =>
         let p := msgp.byte_or msgp.M_FIXSTR_BASE (uint8 sz) in
         negb (msgp.byte_eqb p msgp.M_BIN8) && negb (msgp.byte_eqb p msgp.M_BIN16)
         && negb (msgp.byte_eqb p msgp.M_BIN32))
      32 ltac:(vm_compute; reflexivity) (len b) ltac:(lia)) as Hc.
    cbv zeta in Hc.
    apply andb_true_iff in Hc as [Hc Hb3]. apply andb_true_iff in Hc as [Hb1 Hb2].
    apply negb_true_iff in Hb1, Hb2, Hb3. rewrite Hb1, Hb2, Hb3. reflexivity.
Qed.

(** *** Signed against unsigned *)

Lemma AppendInt64_first_byte (v : Z) :
  exists payload, msgp.AppendInt64 [] v = int_first_byte v :: payload.
Proof.
  unfold msgp.AppendInt64, int_first_byte, int_prefix,
    MinInt8, MinInt16, MinInt32, MaxInt16, MaxInt32.
  destruct (Z.geb_spec v 0);
    [destruct (Z.leb_spec v 127);
      [|destruct (Z.leb_spec v 32767); [|destruct (Z.leb_spec v 2147483647)]]
    |destruct (Z.geb_spec v (-32));
      [|destruct (Z.geb_spec v (-128));
        [|destruct (Z.geb_spec v (-32768)); [|destruct (Z.geb_spec v (-2147483648))]]]];
    repeat match goal with
           | |- context [?a <=? ?b] => destruct (Z.leb_spec a b); try lia
           | |- context [?a <? ?b] => destruct (Z.ltb_spec a b); try lia
           end; eexists; reflexivity.
Qed.

Lemma AppendUint64_first_byte (v : Z) :
  127 < v -> exists payload, msgp.AppendUint64 [] v = uint_prefix v :: payload.
Proof.
  intros H. unfold msgp.AppendUint64, uint_prefix, MaxUint8, MaxUint16, MaxUint32.
  destruct (Z.leb_spec v 127); [lia|].
  destruct (Z.leb_spec v 255);
    [|destruct (Z.leb_spec v 65535); [|destruct (Z.leb_spec v 4294967295)]];
    eexists; reflexivity.
Qed.

Lemma int_first_byte_cases (v : Z) :
  ~ 0 <= v <= 127 ->
  (-32 <= v < 0 /\ int_first_byte v = uint8 v)
  \/ int_first_byte v ∈ [msgp.M_INT8; msgp.M_INT16; msgp.M_INT32; msgp.M_INT64].
Proof.
  intros H. unfold int_first_byte, int_prefix.
  destruct (Z.leb_spec (-32) v), (Z.leb_spec v 127); simpl andb;
    [left; split; [lia|reflexivity]|right..];
    repeat match goal with
           | |- context [?a <=? ?b] => destruct (Z.leb_spec a b)
           | |- context [?a <? ?b] => destruct (Z.ltb_spec a b)
           end; simpl; set_solver.
Qed.

Lemma uint_prefix_cases (v : Z) :
  uint_prefix v ∈ [msgp.M_UINT8; msgp.M_UINT16; msgp.M_UINT32; msgp.M_UINT64].
Proof.
  unfold uint_prefix.
  repeat match goal with
         | |- context [?a <=? ?b] => destruct (Z.leb_spec a b)
         end; set_solver.
Qed.

Lemma negative_fixint_byte (v : Z) :
  -32 <= v < 0 -> 224 <= u8 (uint8 v) <= 255.
Proof. intros H. rewrite u8_uint8. Z.div_mod_to_equations. lia. Qed.

(** X8: the two integer readers do not read each other's formats. Values
    from 0 to 127 are one and the same byte in both encodings and both
    readers take it. Any other signed value makes [ReadUint64] stop at its
    first byte with a bad-prefix error, and any unsigned value above 127
    makes [ReadInt64] stop at the uint prefix; the payload is left on the
    stream. *)
Theorem integer_readers_do_not_mix (i u : Z) :
  MinInt64 <= i <= MaxInt64 ->
  0 <= u <= MaxUint64 ->
  (if (0 <=? i) && (i <=? 127)
   then msgp.AppendInt64 [] i = msgp.AppendUint64 [] i
        /\ decodes msgp.ReadUint64 (msgp.AppendInt64 [] i) i
   else stops_at msgp.ReadUint64 (msgp.AppendInt64 [] i)
          (error_bad_prefix "read uint" (int_first_byte i)))
  /\ (if u <=? 127
      then decodes msgp.ReadInt64 (msgp.AppendUint64 [] u) u
      else stops_at msgp.ReadInt64 (msgp.AppendUint64 [] u)
             (error_bad_prefix "read int" (uint_prefix u))).
Proof.
  intros Hi Hu. unfold MinInt64, MaxInt64 in Hi. split.
  - destruct ((0 <=? i) && (i <=? 127)) eqn:Hband.
    + apply andb_true_iff in Hband as [H1 H2]. apply Z.leb_le in H1, H2.
      assert (E : msgp.AppendInt64 [] i = msgp.AppendUint64 [] i).
      { unfold msgp.AppendInt64, msgp.AppendUint64.
        destruct (Z.geb_spec i 0); [|lia]. destruct (Z.leb_spec i 127); [reflexivity|lia]. }
      split; [exact E|]. rewrite E. apply decodes_ReadUint64. unfold MaxUint64. lia.
    + assert (Hout : ~ 0 <= i <= 127).
      { intros [H1 H2]. apply Z.leb_le in H1, H2. rewrite H1, H2 in Hband. discriminate. }
      destruct (AppendInt64_first_byte i) as [payload ->].
      intros rest s. exists [int_first_byte i].
      unfold msgp.ReadUint64, msgp.bind. simpl app.
      rewrite read_prefix_cons. simpl tl.
      destruct (int_first_byte_cases i Hout) as [[Hr E]|Hin].
      * rewrite E. pose proof (negative_fixint_byte i Hr) as Hb.
        destruct (Z.leb_spec (u8 (uint8 i)) 127); [lia|].
        assert (Hne : forall p, u8 p < 224 -> msgp.byte_eqb (uint8 i) p = false).
        { intros p Hp. unfold msgp.byte_eqb.
          destruct (Byte.eqb (uint8 i) p) eqn:Hq; [|reflexivity].
          apply Byte.byte_dec_bl in Hq. rewrite Hq in Hb. lia. }
        rewrite !Hne by (vm_compute; reflexivity). reflexivity.
      * repeat (apply elem_of_cons in Hin as [->|Hin]; [reflexivity|]).
        now apply elem_of_nil in Hin.
  - destruct (Z.leb_spec u 127).
    + replace (msgp.AppendUint64 [] u) with (msgp.AppendInt64 [] u).
      * apply decodes_ReadInt64. unfold MinInt64, MaxInt64. lia.
      * unfold msgp.AppendInt64, msgp.AppendUint64.
        destruct (Z.geb_spec u 0); [|lia]. destruct (Z.leb_spec u 127); [reflexivity|lia].
    + destruct (AppendUint64_first_byte u ltac:(lia)) as [payload ->].
      intros rest s. exists [uint_prefix u].
      unfold msgp.ReadInt64, msgp.bind. simpl app.
      rewrite read_prefix_cons. simpl tl.
      pose proof (uint_prefix_cases u) as Hin.
      repeat (apply elem_of_cons in Hin as [->|Hin]; [reflexivity|]).
      now apply elem_of_nil in Hin.
Qed.

Lemma integer_readers_do_not_mix_witness :
  (if (0 <=? 128) && (128 <=? 127)
   then msgp.AppendInt64 [] 128 = msgp.AppendUint64 [] 128
        /\ decodes msgp.ReadUint64 (msgp.AppendInt64 [] 128) 128
   else stops_at msgp.ReadUint64 (msgp.AppendInt64 [] 128)
          (error_bad_prefix "read uint" (int_first_byte 128)))
  /\ (if 128 <=? 127
      then decodes msgp.ReadInt64 (msgp.AppendUint64 [] 128) 128
      else stops_at msgp.ReadInt64 (msgp.AppendUint64 [] 128)
             (error_bad_prefix "read int" (uint_prefix 128))).
Proof.
  apply (integer_readers_do_not_mix 128 128); unfold MinInt64, MaxInt64, MaxUint64; lia.
Defined.

(** *** Values of dynamic type *)


Lemma type_of_int_first_byte (v : Z) :
  msgp.type_of_prefix (int_first_byte v) = msgp.IntType.
Proof.
  destruct (Z.le_gt_cases 0 v) as [H0|H0]; [destruct (Z.le_gt_cases v 127) as [H1|H1]|].
  - unfold int_first_byte.
    destruct (Z.leb_spec (-32) v); [|lia]. destruct (Z.leb_spec v 127); [|lia]. simpl andb.
    unfold msgp.type_of_prefix. rewrite u8_uint8, Z.mod_small by lia.
    destruct (Z.leb_spec v 127); [reflexivity|lia].
  - destruct (int_first_byte_cases v ltac:(lia)) as [[Hr E]|Hin]; [lia|].
    repeat (apply elem_of_cons in Hin as [->|Hin]; [reflexivity|]).
    now apply elem_of_nil in Hin.
  - destruct (int_first_byte_cases v ltac:(lia)) as [[Hr E]|Hin].
    + rewrite E. pose proof (negative_fixint_byte v Hr) as Hb.
      unfold msgp.type_of_prefix.
      destruct (Z.leb_spec (u8 (uint8 v)) 127); [lia|].
      change (u8 msgp.M_NEGATIVE_FIXINT_BASE) with 224.
      destruct (Z.geb_spec (u8 (uint8 v)) 224); [reflexivity|lia].
    + repeat (apply elem_of_cons in Hin as [->|Hin]; [reflexivity|]).
      now apply elem_of_nil in Hin.
Qed.

Lemma type_of_uint_prefix (v : Z) : msgp.type_of_prefix (uint_prefix v) = msgp.UintType.
Proof.
  pose proof (uint_prefix_cases v) as Hin.
  repeat (apply elem_of_cons in Hin as [->|Hin]; [reflexivity|]).
  now apply elem_of_nil in Hin.
Qed.

Lemma type_of_string_header (sz : Z) :
  0 <= sz ->
  exists p w, msgp.AppendStringHeader [] sz = p :: w /\ msgp.type_of_prefix p = msgp.StrType.
Proof.
  intros H. unfold msgp.AppendStringHeader.
  destruct (Z.leb_spec sz 31);
    [|destruct (sz <=? MaxUint8); [|destruct (sz <=? MaxUint16)]];
    eexists; eexists; (split; [reflexivity|]); try reflexivity.
  apply starts_string_type. unfold starts_string.
  destruct (fixstr_prefix sz ltac:(lia)) as [-> _]. reflexivity.
Qed.

Lemma type_of_bytes_header (sz : Z) :
  exists p w, msgp.AppendBytesHeader [] sz = p :: w /\ msgp.type_of_prefix p = msgp.BinType.
Proof.
  unfold msgp.AppendBytesHeader.
  destruct (sz <=? MaxUint8); [|destruct (sz <=? MaxUint16)];
    eexists; eexists; split; reflexivity.
Qed.

Lemma starts_with_app (wire tail_ : list byte) (T : msgp.Type_) :
  (exists p w, wire = p :: w /\ msgp.type_of_prefix p = T) ->
  exists p w, wire ++ tail_ = p :: w /\ msgp.type_of_prefix p = T.
Proof. intros (p & w & -> & H). exists p, (w ++ tail_). split; [reflexivity|exact H]. Qed.





Lemma AppendString_dest (dest : list byte) (v : string) :
  len (bytes_of_string v) <= MaxUint32 ->
  msgp.AppendString dest v = Some (dest ++ wire_string v).
Proof.
  intros H. unfold msgp.AppendString, wire_string.
  destruct (Z.gtb_spec (len (bytes_of_string v)) MaxUint32); [lia|].
  now rewrite (AppendStringHeader_dest dest), <- app_assoc.
Qed.



(** *** A map given as a list of keys and values *)

Lemma AppendMapHeader_dest (dest : list byte) (sz : Z) :
  msgp.AppendMapHeader dest sz = dest ++ msgp.AppendMapHeader [] sz.
Proof.
  unfold msgp.AppendMapHeader.
  repeat match goal with |- context [if ?c then _ else _] => destruct c end;
    now rewrite <- ?app_assoc.
Qed.

Lemma append_pairs_wire (n : nat) :
  forall (args : list string) (dest : list byte),
    length args = (2 * n)%nat ->
    Forall (fun s => len (bytes_of_string s) <= MaxUint32) args ->
    msgp.append_pairs dest args = Ok (dest ++ concat (map wire_string args)).
Proof.
  induction n as [|n IH]; intros args dest Hlen Hfit.
  - destruct args; [|discriminate Hlen]. simpl. now rewrite app_nil_r.
  - destruct args as [|key [|val tl]]; simpl in Hlen; try lia.
    inversion Hfit as [|? ? Hk Hfit1]; subst.
    inversion Hfit1 as [|? ? Hv Hfit2]; subst.
    cbn [msgp.append_pairs]. rewrite (AppendString_dest dest key Hk).
    rewrite (AppendString_dest _ val Hv).
    rewrite IH; [|lia|exact Hfit2].
    simpl map. simpl concat. now rewrite <- !app_assoc.
Qed.

Lemma land_1_even (n : Z) : (Z.land n 1 =? 0) = Z.even n.
Proof.
  change 1 with (Z.ones 1). rewrite Z.land_ones by lia. change (2 ^ 1) with 2.
  rewrite Zeven_mod. reflexivity.
Qed.

(** X10: [AppendMapStrStrFromList] on a list of strings that each fit a
    uint32 length. An odd number of arguments makes it panic; an even number
    gives a map header for half that number, which [ReadMapHeader] reads
    back, followed by every argument in order as [AppendString] writes
    it. *)
Theorem AppendMapStrStrFromList_wire (dest : list byte) (args : list string) :
  Forall (fun s => len (bytes_of_string s) <= MaxUint32) args ->
  len args / 2 <= MaxUint32 ->
  if Z.even (len args) then
    msgp.AppendMapStrStrFromList dest args
    = Ok (dest ++ msgp.AppendMapHeader [] (len args / 2) ++ concat (map wire_string args))
    /\ decodes msgp.ReadMapHeader (msgp.AppendMapHeader [] (len args / 2)) (len args / 2)
  else msgp.AppendMapStrStrFromList dest args = Panic "msgp: args count must be even".
Proof.
  intros Hfit Hsz. pose proof (len_nonneg args) as H0.
  unfold msgp.AppendMapStrStrFromList. rewrite land_1_even.
  destruct (Z.even (len args)) eqn:Hev; [|reflexivity].
  simpl negb. cbv iota.
  destruct (Z.gtb_spec (len args / 2) MaxUint32); [lia|].
  split.
  - apply Z.even_spec in Hev as [k Hk].
    rewrite AppendMapHeader_dest.
    rewrite (append_pairs_wire (Z.to_nat k)); [now rewrite <- app_assoc| |exact Hfit].
    unfold len in Hk. lia.
  - apply decodes_ReadMapHeader. split; [|exact Hsz]. apply Z.div_pos; lia.
Qed.

Lemma AppendMapStrStrFromList_wire_witness :
  if Z.even (len ["login"; "sa"]) then
    msgp.AppendMapStrStrFromList [] ["login"; "sa"]
    = Ok ([] ++ msgp.AppendMapHeader [] (len ["login"; "sa"] / 2)
             ++ concat (map wire_string ["login"; "sa"]))
    /\ decodes msgp.ReadMapHeader (msgp.AppendMapHeader [] (len ["login"; "sa"] / 2))
         (len ["login"; "sa"] / 2)
  else msgp.AppendMapStrStrFromList [] ["login"; "sa"]
       = Panic "msgp: args count must be even".
Proof.
  apply (AppendMapStrStrFromList_wire [] ["login"; "sa"]).
  - repeat constructor; vm_compute; discriminate.
  - vm_compute. discriminate.
Defined.

(** ** Rows: layouts and values *)

(** *** Inversion of the reader monad *)

Lemma bind_Ok {A B} (c : msgp.M A) (k : A -> msgp.M B) (m m' : msgp.Reader) (b : B) :
  msgp.bind c k m = (Ok b, m') ->
  exists a m1, c m = (Ok a, m1) /\ k a m1 = (Ok b, m').
Proof.
  unfold msgp.bind. destruct (c m) as [[a|e|msg] m1]; intros H; try discriminate H.
  now exists a, m1.
Qed.

Lemma assert_Ok (val : bool) (m m' : msgp.Reader) (u : unit) :
  rsqlib.assert val m = (Ok u, m') -> val = true /\ m' = m.
Proof. destruct val; intros H; [now injection H|discriminate H]. Qed.

Lemma ret_Ok {A} (a b : A) (m m' : msgp.Reader) :
  msgp.ret a m = (Ok b, m') -> b = a /\ m' = m.
Proof. intros H. now injection H. Qed.

(** *** Column names *)

Lemma read_colnames_decodes (names : list string) :
  Forall (fun s => len (bytes_of_string s) <= MaxUint32) names ->
  forall acc,
    decodes (rsqlib.read_colnames (length names) acc)
            (concat (map wire_string names)) (acc ++ names).
Proof.
  induction 1 as [|name names Hn Hns IH]; intros acc.
  - simpl. rewrite app_nil_r. apply decodes_ret.
  - simpl length. cbn [rsqlib.read_colnames]. simpl map. simpl concat.
    eapply decodes_bind; [now apply decodes_ReadString|].
    replace (acc ++ name :: names) with ((acc ++ [name]) ++ names)
      by now rewrite <- app_assoc.
    apply IH.
Qed.

(** X11: the list of column names. An array header for [n] names followed
    by the [n] names as strings is read by [Create_colname_list] into the list
    of these names, in order, whatever the names are (empty and repeated
    names included). *)
Theorem Create_colname_list_roundtrip (names : list string) :
  Forall (fun s => len (bytes_of_string s) <= MaxUint32) names ->
  len names <= MaxUint32 ->
  decodes rsqlib.Create_colname_list
    (msgp.AppendArrayHeader [] (len names) ++ concat (map wire_string names)) names.
Proof.
  intros Hfit Hlen. pose proof (len_nonneg names) as H0.
  unfold rsqlib.Create_colname_list.
  eapply decodes_bind; [apply decodes_ReadArrayHeader; lia|].
  unfold len. rewrite Nat2Z.id. apply (read_colnames_decodes names Hfit []).
Qed.

Lemma Create_colname_list_roundtrip_witness :
  decodes rsqlib.Create_colname_list
    (msgp.AppendArrayHeader [] (len ["a"; EmptyString; "a"])
       ++ concat (map wire_string ["a"; EmptyString; "a"]))
    ["a"; EmptyString; "a"].
Proof.
  apply (Create_colname_list_roundtrip ["a"; EmptyString; "a"]).
  - repeat constructor; vm_compute; discriminate.
  - vm_compute. discriminate.
Defined.

(** *** Fresh rows *)

Lemma u8_nonneg (b : byte) : 0 <= u8 b.
Proof. pose proof (u8_range b). lia. Qed.

Lemma idx_nonneg (buff : list byte) (i : nat) : 0 <= msgp.idx buff i.
Proof. apply u8_nonneg. Qed.

Lemma read_raw_uint16_nonneg (m m' : msgp.Reader) (v : Z) :
  msgp.read_raw_uint16 m = (Ok v, m') -> 0 <= v.
Proof.
  intros H. apply bind_Ok in H as (buff & m1 & _ & H). apply ret_Ok in H as [-> _].
  rewrite Z.lor_nonneg, Z.shiftl_nonneg. split; apply idx_nonneg.
Qed.

Lemma read_raw_uint32_nonneg (m m' : msgp.Reader) (v : Z) :
  msgp.read_raw_uint32 m = (Ok v, m') -> 0 <= v.
Proof.
  intros H. apply bind_Ok in H as (buff & m1 & _ & H). apply ret_Ok in H as [-> _].
  rewrite !Z.lor_nonneg, !Z.shiftl_nonneg. repeat split; apply idx_nonneg.
Qed.

Lemma ReadArrayHeader_nonneg (m m' : msgp.Reader) (n : Z) :
  msgp.ReadArrayHeader m = (Ok n, m') -> 0 <= n.
Proof.
  intros H. apply bind_Ok in H as (prefix & m1 & _ & H).
  destruct (msgp.byte_eqb (msgp.byte_and prefix msgp.PREFIX_FIXARRAY_MASK)
              msgp.M_FIXARRAY_BASE).
  { apply ret_Ok in H as [-> _]. apply u8_nonneg. }
  destruct (msgp.byte_eqb prefix msgp.M_ARRAY16).
  { now apply read_raw_uint16_nonneg in H. }
  destruct (msgp.byte_eqb prefix msgp.M_ARRAY32).
  { now apply read_raw_uint32_nonneg in H. }
  discriminate H.
Qed.

Ltac invert_reads H :=
  repeat first
    [ apply ret_Ok in H as [-> _]
    | let a := fresh "a" in let m1 := fresh "m" in let E := fresh "E" in
      apply bind_Ok in H as (a & m1 & E & H) ].

Lemma new_field_null (m m' : msgp.Reader) (field : rsqlib.IField) :
  rsqlib.new_field m = (Ok field, m') -> rsqlib.IsNull field = true.
Proof.
  intros H. unfold rsqlib.new_field in H.
  apply bind_Ok in H as (sz & m1 & _ & H).
  apply bind_Ok in H as (u & m2 & _ & H).
  repeat match type of H with
         | (if ?c then _ else _) _ = _ =>
             destruct c; [invert_reads H; reflexivity|]
         end.
  discriminate H.
Qed.

Lemma new_fields_fresh (n : nat) :
  forall (m m' : msgp.Reader) (row : list rsqlib.IField),
    rsqlib.new_fields n m = (Ok row, m') ->
    length row = n /\ Forall (fun f => rsqlib.IsNull f = true) row.
Proof.
  induction n as [|n IH]; intros m m' row H.
  - apply ret_Ok in H as [-> _]. split; [reflexivity|constructor].
  - cbn [rsqlib.new_fields] in H.
    apply bind_Ok in H as (field & m1 & Hf & H).
    apply bind_Ok in H as (tl & m2 & Htl & H).
    apply ret_Ok in H as [-> _].
    apply IH in Htl as [Hlen Hnull]. apply new_field_null in Hf.
    split; [simpl; lia|now constructor].
Qed.

(** X12: a row made by [Create_row] has as many fields as its array header
    announces, and every one of them is NULL until a record is read into
    it. *)
Theorem Create_row_fresh (m m' : msgp.Reader) (row : list rsqlib.IField) :
  rsqlib.Create_row m = (Ok row, m') ->
  (exists n m1, msgp.ReadArrayHeader m = (Ok n, m1) /\ len row = n)
  /\ Forall (fun f => rsqlib.IsNull f = true) row.
Proof.
  intros H. apply bind_Ok in H as (n & m1 & Hh & H).
  apply new_fields_fresh in H as [Hlen Hnull].
  split; [|exact Hnull]. exists n, m1. split; [exact Hh|].
  apply ReadArrayHeader_nonneg in Hh. unfold len. lia.
Qed.

Lemma Create_row_fresh_witness :
  (exists n m1,
      msgp.ReadArrayHeader (reader_on [Byte.x92; Byte.x91; Byte.x0c; Byte.x91; Byte.x11])
      = (Ok n, m1)
      /\ len [rsqlib.F_Int {| rsqlib.Int.Is_Null := true; rsqlib.Int.Val := 0 |};
              rsqlib.F_Float {| rsqlib.Float.Is_Null := true; rsqlib.Float.Val := 0 |}] = n)
  /\ Forall (fun f => rsqlib.IsNull f = true)
       [rsqlib.F_Int {| rsqlib.Int.Is_Null := true; rsqlib.Int.Val := 0 |};
        rsqlib.F_Float {| rsqlib.Float.Is_Null := true; rsqlib.Float.Val := 0 |}].
Proof.
  apply (Create_row_fresh
           (reader_on [Byte.x92; Byte.x91; Byte.x0c; Byte.x91; Byte.x11])
           {| msgp.br := []; msgp.scratch := [Byte.x11] |}).
  reflexivity.
Defined.

(** *** Values keep the layout *)

Lemma read_nullable_Ok {T} (null : T) (value : msgp.M T) (m m' : msgp.Reader) (v : T) :
  rsqlib.read_nullable null value m = (Ok v, m') ->
  v = null \/ exists m1, value m1 = (Ok v, m').
Proof.
  intros H. apply bind_Ok in H as (objtype & m1 & _ & H).
  destruct (rsqlib.is_NilType objtype).
  - left. apply bind_Ok in H as (u & m2 & _ & H). now apply ret_Ok in H as [-> _].
  - right. now exists m1.
Qed.

Ltac read_value_cases H :=
  apply bind_Ok in H as (? & ? & H & ?);
  match goal with E : msgp.ret _ _ = (Ok _, _) |- _ => apply ret_Ok in E as [-> _] end;
  first
    [ apply read_nullable_Ok in H as [->|[? H]]; [reflexivity|];
      invert_reads H; reflexivity
    | invert_reads H; reflexivity ].

Lemma read_value_layout (field field' : rsqlib.IField) (m m' : msgp.Reader) :
  rsqlib.read_value field m = (Ok field', m') -> layout field' = layout field.
Proof.
  intros H. destruct field; cbn [rsqlib.read_value] in H; unfold rsqlib.fmap_M in H;
    read_value_cases H.
Qed.

Lemma fill_fields_layout (row : list rsqlib.IField) :
  forall (m m' : msgp.Reader) (r : result unit) (row' : list rsqlib.IField),
    rsqlib.fill_fields row m = (r, row', m') -> map layout row' = map layout row.
Proof.
  induction row as [|field tl IH]; intros m m' r row' H.
  - injection H as <- <- <-. reflexivity.
  - cbn [rsqlib.fill_fields] in H.
    destruct (rsqlib.read_value field m) as [[field'| |] m1] eqn:E.
    + destruct (rsqlib.fill_fields tl m1) as [[r1 tl'] m2] eqn:E2.
      injection H as <- <- <-. apply IH in E2. apply read_value_layout in E.
      simpl. now rewrite E, E2.
    + injection H as <- <- <-. reflexivity.
    + injection H as <- <- <-. reflexivity.
Qed.

(** X13: reading a record never changes the shape of the row. Whatever
    [Fill_row_with_values] comes to (the record read, an error, a panic on a
    count that does not match), the row holds the same number of fields
    after it, each of the datatype, precision, scale and fixed-length flag it
    had. *)
Theorem Fill_row_with_values_keeps_layout
    (row row' : list rsqlib.IField) (m m' : msgp.Reader) (r : result unit) :
  rsqlib.Fill_row_with_values row m = (r, row', m') ->
  map layout row' = map layout row
  /\ len row' = len row
  /\ map rsqlib.Datatype row' = map rsqlib.Datatype row.
Proof.
  intros H.
  assert (Hl : map layout row' = map layout row).
  { unfold rsqlib.Fill_row_with_values in H.
    destruct (msgp.ReadArrayHeader m) as [[n| |] m1].
    - destruct (len row =? n).
      + now apply fill_fields_layout in H.
      + injection H as <- <- <-. reflexivity.
    - injection H as <- <- <-. reflexivity.
    - injection H as <- <- <-. reflexivity. }
  split; [exact Hl|]. split.
  - unfold len. f_equal. rewrite <- (length_map layout row'), Hl. apply length_map.
  - assert (Hd : forall f, rsqlib.Datatype f = (layout f).1.1.1) by (intros []; reflexivity).
    rewrite !(map_ext _ _ Hd). rewrite <- !(map_map layout (fun x => x.1.1.1)).
    now rewrite Hl.
Qed.

Lemma Fill_row_with_values_keeps_layout_witness :
  let row := [rsqlib.F_Int {| rsqlib.Int.Is_Null := true; rsqlib.Int.Val := 0 |}] in
  let row' := [rsqlib.F_Int {| rsqlib.Int.Is_Null := false; rsqlib.Int.Val := 7 |}] in
  map layout row' = map layout row
  /\ len row' = len row
  /\ map rsqlib.Datatype row' = map rsqlib.Datatype row.
Proof.
  apply (Fill_row_with_values_keeps_layout
           [rsqlib.F_Int {| rsqlib.Int.Is_Null := true; rsqlib.Int.Val := 0 |}]
           [rsqlib.F_Int {| rsqlib.Int.Is_Null := false; rsqlib.Int.Val := 7 |}]
           (reader_on [Byte.x91; Byte.x07])
           {| msgp.br := []; msgp.scratch := [Byte.x07] |} (Ok tt)).
  reflexivity.
Defined.

(** *** NULL *)

Lemma ReadNil_dropped_cons (p : byte) (rest s : list byte) :
  rsqlib.ReadNil_dropped {| msgp.br := p :: rest; msgp.scratch := s |}
  = (Ok tt, {| msgp.br := rest; msgp.scratch := [p] |}).
Proof.
  unfold rsqlib.ReadNil_dropped, msgp.ReadNil, msgp.bind. rewrite read_prefix_cons.
  destruct (msgp.byte_eqb p msgp.M_NIL); reflexivity.
Qed.

Lemma read_nullable_nil {T} (null : T) (value : msgp.M T) :
  decodes (rsqlib.read_nullable null value) [msgp.M_NIL] null.
Proof.
  intros rest s. eexists. unfold rsqlib.read_nullable. unfold msgp.bind at 1.
  simpl app.
  change (msgp.NextType {| msgp.br := msgp.M_NIL :: rest; msgp.scratch := s |})
    with (@Ok msgp.Type_ msgp.NilType, {| msgp.br := msgp.M_NIL :: rest; msgp.scratch := s |}).
  cbv iota beta. cbn [rsqlib.is_NilType]. unfold msgp.bind.
  rewrite ReadNil_dropped_cons. reflexivity.
Qed.

Lemma read_value_nil (field : rsqlib.IField) :
  exists field',
    decodes (rsqlib.read_value field) [msgp.M_NIL] field'
    /\ rsqlib.IsNull field' = true
    /\ layout field' = layout field.
Proof.
  destruct field; cbn [rsqlib.read_value]; unfold rsqlib.fmap_M.
  1: { exists (rsqlib.F_Void {| rsqlib.Void.Is_Null := true |}).
       split; [|split; reflexivity].
       apply (decodes_fmap _ rsqlib.F_Void _ {| rsqlib.Void.Is_Null := true |}).
       intros rest s. eexists. unfold rsqlib.Void.read_value. unfold msgp.bind at 1.
       simpl app.
       change (msgp.NextType {| msgp.br := msgp.M_NIL :: rest; msgp.scratch := s |})
         with (@Ok msgp.Type_ msgp.NilType,
               {| msgp.br := msgp.M_NIL :: rest; msgp.scratch := s |}).
       cbv iota beta. cbn [rsqlib.is_NilType rsqlib.assert]. unfold msgp.bind, msgp.ret.
       rewrite ReadNil_dropped_cons. reflexivity. }
  all: eexists; (split; [|split]);
    [ match goal with
      | |- decodes (msgp.bind _ (fun a => msgp.ret (?g a))) _ _ =>
          eapply (decodes_fmap _ g); apply read_nullable_nil
      end
    | reflexivity | reflexivity ].
Qed.

(** X14: NULL. On the nil byte every column, whatever its type and
    whatever it held, becomes NULL and keeps its layout; exactly that one
    byte is taken from the stream. *)
Theorem read_value_NULL (field : rsqlib.IField) :
  exists field',
    decodes (rsqlib.read_value field) (msgp.AppendNil []) field'
    /\ rsqlib.IsNull field' = true
    /\ layout field' = layout field.
Proof. exact (read_value_nil field). Qed.

Lemma read_value_NULL_example :
  fst (rsqlib.read_value
         (rsqlib.F_Int {| rsqlib.Int.Is_Null := false; rsqlib.Int.Val := 7 |})
         (reader_on [Byte.xc0]))
  = Ok (rsqlib.F_Int {| rsqlib.Int.Is_Null := true; rsqlib.Int.Val := 0 |}).
Proof. reflexivity. Qed.

(** *** Values that are not NULL *)

Lemma read_nullable_not_nil {T} (null : T) (value : msgp.M T) (wire : list byte) :
  not_nil_wire wire ->
  forall rest s,
    rsqlib.read_nullable null value {| msgp.br := wire ++ rest; msgp.scratch := s |}
    = value {| msgp.br := wire ++ rest; msgp.scratch := s |}.
Proof.
  intros (p & w & -> & Hp) rest s.
  unfold rsqlib.read_nullable. unfold msgp.bind at 1. simpl app.
  change (msgp.NextType {| msgp.br := p :: w ++ rest; msgp.scratch := s |})
    with (@Ok msgp.Type_ (msgp.type_of_prefix p),
          {| msgp.br := p :: w ++ rest; msgp.scratch := s |}).
  cbv iota beta.
  destruct (msgp.type_of_prefix p); try reflexivity. now contradiction Hp.
Qed.

Lemma decodes_read_nullable {T} (null : T) (value : msgp.M T) (wire : list byte) (v : T) :
  not_nil_wire wire -> decodes value wire v -> decodes (rsqlib.read_nullable null value) wire v.
Proof. intros Hn H rest s. rewrite read_nullable_not_nil by exact Hn. apply H. Qed.

Lemma refuses_read_nullable {T} (null : T) (value : msgp.M T) (wire : list byte) (e : error) :
  not_nil_wire wire -> refuses value wire e -> refuses (rsqlib.read_nullable null value) wire e.
Proof. intros Hn H rest s. rewrite read_nullable_not_nil by exact Hn. apply H. Qed.

Lemma panics_read_nullable {T} (null : T) (value : msgp.M T) (wire : list byte) (msg : string) :
  not_nil_wire wire -> panics value wire msg -> panics (rsqlib.read_nullable null value) wire msg.
Proof. intros Hn H rest s. rewrite read_nullable_not_nil by exact Hn. apply H. Qed.

Lemma not_nil_wire_app (wire tail_ : list byte) :
  not_nil_wire wire -> not_nil_wire (wire ++ tail_).
Proof. intros (p & w & -> & H). exists p, (w ++ tail_). split; [reflexivity|exact H]. Qed.

Lemma not_nil_of_type (wire : list byte) (T : msgp.Type_) :
  (exists p w, wire = p :: w /\ msgp.type_of_prefix p = T) -> T <> msgp.NilType ->
  not_nil_wire wire.
Proof. intros (p & w & -> & <-) H. now exists p, w. Qed.

Lemma not_nil_int (v : Z) : not_nil_wire (msgp.AppendInt64 [] v).
Proof.
  apply (not_nil_of_type _ msgp.IntType); [|discriminate].
  destruct (AppendInt64_first_byte v) as [w Hw]. eexists. eexists.
  split; [exact Hw|apply type_of_int_first_byte].
Qed.

Lemma not_nil_uint (v : Z) : 0 <= v -> not_nil_wire (msgp.AppendUint64 [] v).
Proof.
  intros H. destruct (Z.le_gt_cases v 127).
  - replace (msgp.AppendUint64 [] v) with (msgp.AppendInt64 [] v); [apply not_nil_int|].
    unfold msgp.AppendInt64, msgp.AppendUint64.
    destruct (Z.geb_spec v 0); [|lia]. destruct (Z.leb_spec v 127); [reflexivity|lia].
  - apply (not_nil_of_type _ msgp.UintType); [|discriminate].
    destruct (AppendUint64_first_byte v ltac:(lia)) as [w Hw]. eexists. eexists.
    split; [exact Hw|apply type_of_uint_prefix].
Qed.

Lemma not_nil_string (b : list byte) :
  not_nil_wire (msgp.AppendStringHeader [] (len b) ++ b).
Proof.
  apply (not_nil_of_type _ msgp.StrType); [|discriminate].
  apply starts_with_app, type_of_string_header, len_nonneg.
Qed.

Lemma not_nil_bytes (b : list byte) :
  not_nil_wire (msgp.AppendBytesHeader [] (len b) ++ b).
Proof.
  apply (not_nil_of_type _ msgp.BinType); [|discriminate].
  apply starts_with_app, type_of_bytes_header.
Qed.

Lemma decodes_ReadUint8 (v : Z) :
  0 <= v <= MaxUint8 -> decodes msgp.ReadUint8 (msgp.AppendUint64 [] v) v.
Proof.
  intros H. pose proof (narrow_unsigned_cases v) as (H8 & _ & _).
  { unfold MaxUint8, MaxUint64 in *. lia. }
  destruct (Z.leb_spec v MaxUint8); [exact H8|lia].
Qed.

Lemma decodes_ReadUint32 (v : Z) :
  0 <= v <= MaxUint32 -> decodes msgp.ReadUint32 (msgp.AppendUint64 [] v) v.
Proof.
  intros H. pose proof (narrow_unsigned_cases v) as (_ & _ & H32).
  { unfold MaxUint32, MaxUint64 in *. lia. }
  destruct (Z.leb_spec v MaxUint32); [exact H32|lia].
Qed.

(** *** Dates and times *)

Lemma Unix_instant (days secs ns : Z) :
  0 <= days <= MaxUint32 -> 0 <= secs <= MaxUint32 -> 0 <= ns <= MaxUint32 ->
  time.In_UTC (time.Unix ((rsqlib.UNIX_SEC_LOWEST + days * rsqlib.SECONDS_PER_DAY) + secs) ns)
  = instant days secs ns.
Proof.
  unfold MaxUint32, rsqlib.UNIX_SEC_LOWEST, rsqlib.SECONDS_PER_DAY. intros Hd Hs Hn.
  change (24 * 3600) with 86400.
  unfold time.Unix, instant, time.In_UTC.
  destruct (Z.ltb_spec ns 0); [lia|]. simpl orb.
  destruct (Z.geb_spec ns 1000000000).
  - rewrite Z.quot_div_nonneg by lia.
    assert (Hq : 0 <= ns / 1000000000 <= 4) by (Z.div_mod_to_equations; lia).
    assert (Hw : to_int64 (-62135596800 + days * 86400 + secs + ns / 1000000000)
                 = -62135596800 + days * 86400 + secs + ns / 1000000000)
      by signed_arith.
    rewrite Hw.
    destruct (Z.ltb_spec (ns - ns / 1000000000 * 1000000000) 0);
      [exfalso; Z.div_mod_to_equations; lia|].
    cbn [time.sec time.nsec]. f_equal; Z.div_mod_to_equations; lia.
  - cbn [time.sec time.nsec]. f_equal; Z.div_mod_to_equations; lia.
Qed.

Lemma not_nil_array_2 (tail_ : list byte) :
  not_nil_wire (msgp.AppendArrayHeader [] 2 ++ tail_).
Proof.
  apply not_nil_wire_app. exists Byte.x92, []. split; [reflexivity|discriminate].
Qed.

Lemma not_nil_array_3 (tail_ : list byte) :
  not_nil_wire (msgp.AppendArrayHeader [] 3 ++ tail_).
Proof.
  apply not_nil_wire_app. exists Byte.x93, []. split; [reflexivity|discriminate].
Qed.

Lemma decodes_assert (c : bool) : c = true -> decodes (rsqlib.assert c) [] tt.
Proof. intros ->. intros rest s. exists s. reflexivity. Qed.

(** X15: dates and times. A DATE column reads a day count, a TIME column
    an array of seconds and nanoseconds, a DATETIME column an array of days,
    seconds and nanoseconds (each a uint32). The value stored is the instant
    that many days after January 1 of year 1 (day 719162 is the Unix epoch; a
    TIME is placed on January 1, 1900), that many seconds and nanoseconds
    into the day, in UTC; a nanosecond count of a second or more is carried
    into the seconds. *)
Theorem temporal_columns
    (days secs ns : Z)
    (fd : rsqlib.Date.t) (ft : rsqlib.Time.t) (fdt : rsqlib.Datetime.t) :
  0 <= days <= MaxUint32 ->
  0 <= secs <= MaxUint32 ->
  0 <= ns <= MaxUint32 ->
  decodes (rsqlib.Date.read_value fd) (msgp.AppendUint64 [] days)
    {| rsqlib.Date.Is_Null := false; rsqlib.Date.Val := instant days 0 0 |}
  /\ decodes (rsqlib.Time.read_value ft)
       (msgp.AppendArrayHeader [] 2 ++ msgp.AppendUint64 [] secs ++ msgp.AppendUint64 [] ns)
       {| rsqlib.Time.Is_Null := false; rsqlib.Time.Val := instant_1900 secs ns |}
  /\ decodes (rsqlib.Datetime.read_value fdt)
       (msgp.AppendArrayHeader [] 3 ++ msgp.AppendUint64 [] days
          ++ msgp.AppendUint64 [] secs ++ msgp.AppendUint64 [] ns)
       {| rsqlib.Datetime.Is_Null := false; rsqlib.Datetime.Val := instant days secs ns |}.
Proof.
  intros Hd Hs Hn. split; [|split].
  - unfold rsqlib.Date.read_value.
    apply decodes_read_nullable; [apply not_nil_uint; lia|].
    rewrite <- (app_nil_r (msgp.AppendUint64 [] days)).
    eapply decodes_bind; [now apply decodes_ReadUint32|].
    pose proof (Unix_instant days 0 0 Hd) as E. rewrite Z.add_0_r in E.
    rewrite E by (unfold MaxUint32; lia). apply decodes_ret.
  - unfold rsqlib.Time.read_value.
    apply decodes_read_nullable; [apply not_nil_array_2|].
    eapply decodes_bind; [apply decodes_ReadArrayHeader; unfold MaxUint32; lia|].
    rewrite <- (app_nil_l (msgp.AppendUint64 [] secs ++ _)).
    eapply decodes_bind; [now apply decodes_assert|].
    eapply decodes_bind; [now apply decodes_ReadUint32|].
    rewrite <- (app_nil_r (msgp.AppendUint64 [] ns)).
    eapply decodes_bind; [now apply decodes_ReadUint32|].
    pose proof (Unix_instant 693595 secs ns) as E.
    unfold instant_1900. rewrite <- E by (unfold MaxUint32 in *; lia).
    apply decodes_ret.
  - unfold rsqlib.Datetime.read_value.
    apply decodes_read_nullable; [apply not_nil_array_3|].
    eapply decodes_bind; [apply decodes_ReadArrayHeader; unfold MaxUint32; lia|].
    rewrite <- (app_nil_l (msgp.AppendUint64 [] days ++ _)).
    eapply decodes_bind; [now apply decodes_assert|].
    eapply decodes_bind; [now apply decodes_ReadUint32|].
    eapply decodes_bind; [now apply decodes_ReadUint32|].
    rewrite <- (app_nil_r (msgp.AppendUint64 [] ns)).
    eapply decodes_bind; [now apply decodes_ReadUint32|].
    rewrite Unix_instant by assumption. apply decodes_ret.
Qed.

Lemma temporal_columns_witness :
  decodes (rsqlib.Date.read_value {| rsqlib.Date.Is_Null := true; rsqlib.Date.Val := time.zero |})
    (msgp.AppendUint64 [] 719162)
    {| rsqlib.Date.Is_Null := false; rsqlib.Date.Val := instant 719162 0 0 |}
  /\ decodes
       (rsqlib.Time.read_value {| rsqlib.Time.Is_Null := true; rsqlib.Time.Val := time.zero |})
       (msgp.AppendArrayHeader [] 2 ++ msgp.AppendUint64 [] 3600
          ++ msgp.AppendUint64 [] 500000000)
       {| rsqlib.Time.Is_Null := false; rsqlib.Time.Val := instant_1900 3600 500000000 |}
  /\ decodes
       (rsqlib.Datetime.read_value
          {| rsqlib.Datetime.Is_Null := true; rsqlib.Datetime.Val := time.zero |})
       (msgp.AppendArrayHeader [] 3 ++ msgp.AppendUint64 [] 719162
          ++ msgp.AppendUint64 [] 3600 ++ msgp.AppendUint64 [] 500000000)
       {| rsqlib.Datetime.Is_Null := false;
          rsqlib.Datetime.Val := instant 719162 3600 500000000 |}.
Proof.
  apply (temporal_columns 719162 3600 500000000); unfold MaxUint32; lia.
Defined.

(** *** Integer columns *)

Lemma refuses_fmap {A B} (c : msgp.M A) (k : A -> msgp.M B) (w : list byte) (e : error) :
  refuses c w e -> refuses (msgp.bind c k) w e.
Proof.
  intros H rest s. destruct (H rest s) as [s' E]. exists s'.
  unfold msgp.bind. now rewrite E.
Qed.

Lemma integer_column_cases
    (u i : Z)
    (fb : rsqlib.Bit.t) (ft : rsqlib.Tinyint.t) (fs : rsqlib.Smallint.t)
    (fi : rsqlib.Int.t) (fg : rsqlib.Bigint.t) :
  0 <= u <= MaxUint64 ->
  MinInt64 <= i <= MaxInt64 ->
  let uw := msgp.AppendUint64 [] u in
  let iw := msgp.AppendInt64 [] i in
  (if u <=? 1 then
     decodes (rsqlib.Bit.read_value fb) uw
       {| rsqlib.Bit.Is_Null := false; rsqlib.Bit.Val := u |}
   else if u <=? MaxUint8 then panics (rsqlib.Bit.read_value fb) uw "assertion failed"
   else refuses (rsqlib.Bit.read_value fb) uw
          (fmt_Errorf "msgp: ReadUint8 overflow, read %d" [u]))
  /\ (if u <=? MaxUint8 then
        decodes (rsqlib.Tinyint.read_value ft) uw
          {| rsqlib.Tinyint.Is_Null := false; rsqlib.Tinyint.Val := u |}
      else refuses (rsqlib.Tinyint.read_value ft) uw
             (fmt_Errorf "msgp: ReadUint8 overflow, read %d" [u]))
  /\ (if (MinInt16 <=? i) && (i <=? MaxInt16) then
        decodes (rsqlib.Smallint.read_value fs) iw
          {| rsqlib.Smallint.Is_Null := false; rsqlib.Smallint.Val := i |}
      else refuses (rsqlib.Smallint.read_value fs) iw
             (fmt_Errorf "msgp: ReadInt16 overflow, read %d" [i]))
  /\ (if (MinInt32 <=? i) && (i <=? MaxInt32) then
        decodes (rsqlib.Int.read_value fi) iw
          {| rsqlib.Int.Is_Null := false; rsqlib.Int.Val := i |}
      else refuses (rsqlib.Int.read_value fi) iw
             (fmt_Errorf "msgp: ReadInt32 overflow, read %d" [i]))
  /\ decodes (rsqlib.Bigint.read_value fg) iw
       {| rsqlib.Bigint.Is_Null := false; rsqlib.Bigint.Val := i |}.
Proof.
  intros Hu Hi uw iw.
  pose proof (narrow_unsigned_cases u Hu) as (H8 & _ & _).
  pose proof (narrow_signed_cases i Hi) as (_ & H16 & H32).
  fold uw in H8. fold iw in H16, H32.
  assert (Hnu : not_nil_wire uw) by (apply not_nil_uint; lia).
  assert (Hni : not_nil_wire iw) by apply not_nil_int.
  split; [|split; [|split; [|split]]].
  - unfold rsqlib.Bit.read_value. unfold MaxUint8 in *.
    destruct (Z.leb_spec u 1).
    + destruct (Z.leb_spec u 255); [|lia].
      apply decodes_read_nullable; [exact Hnu|].
      rewrite <- (app_nil_r uw). eapply decodes_bind; [exact H8|].
      rewrite <- (app_nil_r []). eapply decodes_bind.
      * apply decodes_assert. now apply Z.leb_le.
      * apply decodes_ret.
    + destruct (Z.leb_spec u 255).
      * apply panics_read_nullable; [exact Hnu|].
        intros rest s. destruct (H8 rest s) as [s' E].
        eexists. unfold msgp.bind at 1. rewrite E.
        unfold msgp.bind. destruct (Z.leb_spec u 1); [lia|]. reflexivity.
      * apply refuses_read_nullable; [exact Hnu|]. now apply refuses_fmap.
  - unfold rsqlib.Tinyint.read_value. destruct (u <=? MaxUint8).
    + apply decodes_read_nullable; [exact Hnu|].
      now apply (decodes_fmap _ (fun val => {| rsqlib.Tinyint.Is_Null := false;
                                               rsqlib.Tinyint.Val := val |})).
    + apply refuses_read_nullable; [exact Hnu|]. now apply refuses_fmap.
  - unfold rsqlib.Smallint.read_value. destruct ((MinInt16 <=? i) && (i <=? MaxInt16)).
    + apply decodes_read_nullable; [exact Hni|].
      now apply (decodes_fmap _ (fun val => {| rsqlib.Smallint.Is_Null := false;
                                               rsqlib.Smallint.Val := val |})).
    + apply refuses_read_nullable; [exact Hni|]. now apply refuses_fmap.
  - unfold rsqlib.Int.read_value. destruct ((MinInt32 <=? i) && (i <=? MaxInt32)).
    + apply decodes_read_nullable; [exact Hni|].
      now apply (decodes_fmap _ (fun val => {| rsqlib.Int.Is_Null := false;
                                               rsqlib.Int.Val := val |})).
    + apply refuses_read_nullable; [exact Hni|]. now apply refuses_fmap.
  - unfold rsqlib.Bigint.read_value.
    apply decodes_read_nullable; [exact Hni|].
    apply (decodes_fmap _ (fun val => {| rsqlib.Bigint.Is_Null := false;
                                         rsqlib.Bigint.Val := val |})).
    now apply decodes_ReadInt64.
Qed.

(** X16: the integer columns and their ranges. BIT and TINYINT read the
    unsigned encoding, SMALLINT, INT and BIGINT the signed one. A TINYINT
    takes 0..255, a SMALLINT the int16 range, an INT the int32 range, a
    BIGINT every int64; a value out of range is read in full and reported as
    an overflow. A BIT takes 0 and 1, and a value from 2 to 255 is not an
    error but a panic of the assertion. *)
Theorem integer_columns
    (u i : Z)
    (fb : rsqlib.Bit.t) (ft : rsqlib.Tinyint.t) (fs : rsqlib.Smallint.t)
    (fi : rsqlib.Int.t) (fg : rsqlib.Bigint.t) :
  0 <= u <= MaxUint64 ->
  MinInt64 <= i <= MaxInt64 ->
  let uw := msgp.AppendUint64 [] u in
  let iw := msgp.AppendInt64 [] i in
  (if u <=? 1 then
     decodes (rsqlib.Bit.read_value fb) uw
       {| rsqlib.Bit.Is_Null := false; rsqlib.Bit.Val := u |}
   else if u <=? MaxUint8 then panics (rsqlib.Bit.read_value fb) uw "assertion failed"
   else refuses (rsqlib.Bit.read_value fb) uw
          (fmt_Errorf "msgp: ReadUint8 overflow, read %d" [u]))
  /\ (if u <=? MaxUint8 then
        decodes (rsqlib.Tinyint.read_value ft) uw
          {| rsqlib.Tinyint.Is_Null := false; rsqlib.Tinyint.Val := u |}
      else refuses (rsqlib.Tinyint.read_value ft) uw
             (fmt_Errorf "msgp: ReadUint8 overflow, read %d" [u]))
  /\ (if (MinInt16 <=? i) && (i <=? MaxInt16) then
        decodes (rsqlib.Smallint.read_value fs) iw
          {| rsqlib.Smallint.Is_Null := false; rsqlib.Smallint.Val := i |}
      else refuses (rsqlib.Smallint.read_value fs) iw
             (fmt_Errorf "msgp: ReadInt16 overflow, read %d" [i]))
  /\ (if (MinInt32 <=? i) && (i <=? MaxInt32) then
        decodes (rsqlib.Int.read_value fi) iw
          {| rsqlib.Int.Is_Null := false; rsqlib.Int.Val := i |}
      else refuses (rsqlib.Int.read_value fi) iw
             (fmt_Errorf "msgp: ReadInt32 overflow, read %d" [i]))
  /\ decodes (rsqlib.Bigint.read_value fg) iw
       {| rsqlib.Bigint.Is_Null := false; rsqlib.Bigint.Val := i |}.
Proof. exact (integer_column_cases u i fb ft fs fi fg). Qed.

(** *** Columns that hold bytes *)

Lemma byte_column_cases
    (b : list byte)
    (fv : rsqlib.Varbinary.t) (fc : rsqlib.Varchar.t)
    (fm : rsqlib.Money.t) (fn : rsqlib.Numeric.t) :
  len b <= MaxUint32 ->
  let str := msgp.AppendStringHeader [] (len b) ++ b in
  decodes (rsqlib.Varbinary.read_value fv) (msgp.AppendBytesHeader [] (len b) ++ b)
    {| rsqlib.Varbinary.Precision := rsqlib.Varbinary.Precision fv;
       rsqlib.Varbinary.Is_Null := false; rsqlib.Varbinary.Val := b |}
  /\ (rsqlib.Varchar.Fixlen fc = false ->
      decodes (rsqlib.Varchar.read_value fc) str
        {| rsqlib.Varchar.Precision := rsqlib.Varchar.Precision fc;
           rsqlib.Varchar.Fixlen := false;
           rsqlib.Varchar.Is_Null := false; rsqlib.Varchar.Val := b |})
  /\ decodes (rsqlib.Money.read_value fm) str
       {| rsqlib.Money.Precision := rsqlib.Money.Precision fm;
          rsqlib.Money.Scale := rsqlib.Money.Scale fm;
          rsqlib.Money.Is_Null := false; rsqlib.Money.Val := b |}
  /\ decodes (rsqlib.Numeric.read_value fn) str
       {| rsqlib.Numeric.Precision := rsqlib.Numeric.Precision fn;
          rsqlib.Numeric.Scale := rsqlib.Numeric.Scale fn;
          rsqlib.Numeric.Is_Null := false; rsqlib.Numeric.Val := b |}.
Proof.
  intros Hb str. split; [|split; [|split]].
  - unfold rsqlib.Varbinary.read_value.
    apply decodes_read_nullable; [apply not_nil_bytes|].
    apply (decodes_fmap _ (fun val =>
             {| rsqlib.Varbinary.Precision := rsqlib.Varbinary.Precision fv;
                rsqlib.Varbinary.Is_Null := false; rsqlib.Varbinary.Val := val |})).
    now apply decodes_ReadBytes.
  - intros Hfix. unfold rsqlib.Varchar.read_value. rewrite Hfix.
    apply decodes_read_nullable; [apply not_nil_string|].
    apply (decodes_fmap _ (fun val =>
             {| rsqlib.Varchar.Precision := rsqlib.Varchar.Precision fc;
                rsqlib.Varchar.Fixlen := false;
                rsqlib.Varchar.Is_Null := false; rsqlib.Varchar.Val := val |})).
    now apply decodes_ReadStringAsBytes.
  - unfold rsqlib.Money.read_value.
    apply decodes_read_nullable; [apply not_nil_string|].
    apply (decodes_fmap _ (fun val =>
             {| rsqlib.Money.Precision := rsqlib.Money.Precision fm;
                rsqlib.Money.Scale := rsqlib.Money.Scale fm;
                rsqlib.Money.Is_Null := false; rsqlib.Money.Val := val |})).
    now apply decodes_ReadStringAsBytes.
  - unfold rsqlib.Numeric.read_value.
    apply decodes_read_nullable; [apply not_nil_string|].
    apply (decodes_fmap _ (fun val =>
             {| rsqlib.Numeric.Precision := rsqlib.Numeric.Precision fn;
                rsqlib.Numeric.Scale := rsqlib.Numeric.Scale fn;
                rsqlib.Numeric.Is_Null := false; rsqlib.Numeric.Val := val |})).
    now apply decodes_ReadStringAsBytes.
Qed.

(** X17: the columns that hold bytes. A VARBINARY column stores the bytes
    of a binary value, a VARCHAR column that is not of fixed length and a
    MONEY or NUMERIC column the bytes of a string value, as they came: the
    precision and the scale of the column set no limit on what is stored, and
    what the column held before is overwritten. *)
Theorem byte_valued_columns
    (b : list byte)
    (fv : rsqlib.Varbinary.t) (fc : rsqlib.Varchar.t)
    (fm : rsqlib.Money.t) (fn : rsqlib.Numeric.t) :
  len b <= MaxUint32 ->
  let str := msgp.AppendStringHeader [] (len b) ++ b in
  decodes (rsqlib.Varbinary.read_value fv) (msgp.AppendBytesHeader [] (len b) ++ b)
    {| rsqlib.Varbinary.Precision := rsqlib.Varbinary.Precision fv;
       rsqlib.Varbinary.Is_Null := false; rsqlib.Varbinary.Val := b |}
  /\ (rsqlib.Varchar.Fixlen fc = false ->
      decodes (rsqlib.Varchar.read_value fc) str
        {| rsqlib.Varchar.Precision := rsqlib.Varchar.Precision fc;
           rsqlib.Varchar.Fixlen := false;
           rsqlib.Varchar.Is_Null := false; rsqlib.Varchar.Val := b |})
  /\ decodes (rsqlib.Money.read_value fm) str
       {| rsqlib.Money.Precision := rsqlib.Money.Precision fm;
          rsqlib.Money.Scale := rsqlib.Money.Scale fm;
          rsqlib.Money.Is_Null := false; rsqlib.Money.Val := b |}
  /\ decodes (rsqlib.Numeric.read_value fn) str
       {| rsqlib.Numeric.Precision := rsqlib.Numeric.Precision fn;
          rsqlib.Numeric.Scale := rsqlib.Numeric.Scale fn;
          rsqlib.Numeric.Is_Null := false; rsqlib.Numeric.Val := b |}.
Proof. exact (byte_column_cases b fv fc fm fn). Qed.

(** *** A whole record *)

Lemma fill_fields_decodes (cols : list (rsqlib.IField * list byte * rsqlib.IField)) :
  Forall column_reads cols ->
  forall rest s, exists s',
    rsqlib.fill_fields (map (fun c => c.1.1) cols)
      {| msgp.br := concat (map (fun c => c.1.2) cols) ++ rest; msgp.scratch := s |}
    = (Ok tt, map snd cols, {| msgp.br := rest; msgp.scratch := s' |}).
Proof.
  induction 1 as [|[[f w] f'] cols Hc Hcs IH]; intros rest s.
  - exists s. reflexivity.
  - simpl map. simpl concat. rewrite <- app_assoc.
    destruct (Hc (concat (map (fun c => c.1.2) cols) ++ rest) s) as [s1 E1].
    destruct (IH rest s1) as [s2 E2].
    exists s2. cbn [rsqlib.fill_fields]. simpl in E1. rewrite E1, E2. reflexivity.
Qed.

(** X18: a whole record. When every column of the row reads its part of
    the bytes, [Fill_row_with_values] reads an array of as many values as the
    row has columns into the row, column by column, and stops just behind
    the last value. An array header that announces any other number of
    values makes it panic on its assertion, with the row untouched. *)
Theorem Fill_row_with_values_decodes
    (cols : list (rsqlib.IField * list byte * rsqlib.IField)) (sz : Z) (rest s : list byte) :
  Forall column_reads cols ->
  0 <= sz <= MaxUint32 ->
  let row := map (fun c => c.1.1) cols in
  let wire := msgp.AppendArrayHeader [] sz ++ concat (map (fun c => c.1.2) cols) in
  if len row =? sz then
    exists s',
      rsqlib.Fill_row_with_values row {| msgp.br := wire ++ rest; msgp.scratch := s |}
      = (Ok tt, map snd cols, {| msgp.br := rest; msgp.scratch := s' |})
  else
    exists m',
      rsqlib.Fill_row_with_values row {| msgp.br := wire ++ rest; msgp.scratch := s |}
      = (Panic "assertion failed", row, m').
Proof.
  intros Hcols Hsz row wire. subst wire. rewrite <- app_assoc.
  destruct (decodes_ReadArrayHeader sz Hsz
              (concat (map (fun c => c.1.2) cols) ++ rest) s) as [s1 Eh].
  unfold rsqlib.Fill_row_with_values. rewrite Eh.
  destruct (len row =? sz).
  - apply fill_fields_decodes. exact Hcols.
  - eexists. reflexivity.
Qed.

Lemma column_reads_Int (f : rsqlib.Int.t) (i : Z) :
  MinInt32 <= i <= MaxInt32 ->
  column_reads (rsqlib.F_Int f, msgp.AppendInt64 [] i,
                rsqlib.F_Int {| rsqlib.Int.Is_Null := false; rsqlib.Int.Val := i |}).
Proof.
  intros H. unfold column_reads. cbn [fst snd rsqlib.read_value]. unfold rsqlib.fmap_M.
  apply (decodes_fmap _ rsqlib.F_Int).
  pose proof (integer_column_cases 0 i
                {| rsqlib.Bit.Is_Null := true; rsqlib.Bit.Val := 0 |}
                {| rsqlib.Tinyint.Is_Null := true; rsqlib.Tinyint.Val := 0 |}
                {| rsqlib.Smallint.Is_Null := true; rsqlib.Smallint.Val := 0 |}
                f {| rsqlib.Bigint.Is_Null := true; rsqlib.Bigint.Val := 0 |})
    as (_ & _ & _ & Hi & _).
  { unfold MaxUint64. lia. }
  { unfold MinInt32, MaxInt32, MinInt64, MaxInt64 in *. lia. }
  destruct (Z.leb_spec MinInt32 i), (Z.leb_spec i MaxInt32); try lia. exact Hi.
Qed.

Lemma column_reads_NULL (field : rsqlib.IField) :
  exists field', column_reads (field, [msgp.M_NIL], field') /\ rsqlib.IsNull field' = true.
Proof.
  destruct (read_value_nil field) as (field' & H & Hn & _). now exists field'.
Qed.

Lemma integer_columns_witness :
  let fb := {| rsqlib.Bit.Is_Null := true; rsqlib.Bit.Val := 0 |} in
  let ft := {| rsqlib.Tinyint.Is_Null := true; rsqlib.Tinyint.Val := 0 |} in
  let fs := {| rsqlib.Smallint.Is_Null := true; rsqlib.Smallint.Val := 0 |} in
  let fi := {| rsqlib.Int.Is_Null := true; rsqlib.Int.Val := 0 |} in
  let fg := {| rsqlib.Bigint.Is_Null := true; rsqlib.Bigint.Val := 0 |} in
  let uw := msgp.AppendUint64 [] 2 in
  let iw := msgp.AppendInt64 [] 40000 in
  (if 2 <=? 1 then
     decodes (rsqlib.Bit.read_value fb) uw
       {| rsqlib.Bit.Is_Null := false; rsqlib.Bit.Val := 2 |}
   else if 2 <=? MaxUint8 then panics (rsqlib.Bit.read_value fb) uw "assertion failed"
   else refuses (rsqlib.Bit.read_value fb) uw
          (fmt_Errorf "msgp: ReadUint8 overflow, read %d" [2]))
  /\ (if 2 <=? MaxUint8 then
        decodes (rsqlib.Tinyint.read_value ft) uw
          {| rsqlib.Tinyint.Is_Null := false; rsqlib.Tinyint.Val := 2 |}
      else refuses (rsqlib.Tinyint.read_value ft) uw
             (fmt_Errorf "msgp: ReadUint8 overflow, read %d" [2]))
  /\ (if (MinInt16 <=? 40000) && (40000 <=? MaxInt16) then
        decodes (rsqlib.Smallint.read_value fs) iw
          {| rsqlib.Smallint.Is_Null := false; rsqlib.Smallint.Val := 40000 |}
      else refuses (rsqlib.Smallint.read_value fs) iw
             (fmt_Errorf "msgp: ReadInt16 overflow, read %d" [40000]))
  /\ (if (MinInt32 <=? 40000) && (40000 <=? MaxInt32) then
        decodes (rsqlib.Int.read_value fi) iw
          {| rsqlib.Int.Is_Null := false; rsqlib.Int.Val := 40000 |}
      else refuses (rsqlib.Int.read_value fi) iw
             (fmt_Errorf "msgp: ReadInt32 overflow, read %d" [40000]))
  /\ decodes (rsqlib.Bigint.read_value fg) iw
       {| rsqlib.Bigint.Is_Null := false; rsqlib.Bigint.Val := 40000 |}.
Proof.
  apply (integer_columns 2 40000); unfold MaxUint64, MinInt64, MaxInt64; lia.
Defined.

Lemma byte_valued_columns_witness :
  let b := [Byte.x68; Byte.x69] in
  let fv := {| rsqlib.Varbinary.Precision := 1; rsqlib.Varbinary.Is_Null := true;
               rsqlib.Varbinary.Val := [] |} in
  let fc := {| rsqlib.Varchar.Precision := 1; rsqlib.Varchar.Fixlen := false;
               rsqlib.Varchar.Is_Null := true; rsqlib.Varchar.Val := [] |} in
  let fm := {| rsqlib.Money.Precision := 19; rsqlib.Money.Scale := 4;
               rsqlib.Money.Is_Null := true; rsqlib.Money.Val := [] |} in
  let fn := {| rsqlib.Numeric.Precision := 10; rsqlib.Numeric.Scale := 2;
               rsqlib.Numeric.Is_Null := true; rsqlib.Numeric.Val := [] |} in
  let str := msgp.AppendStringHeader [] (len b) ++ b in
  decodes (rsqlib.Varbinary.read_value fv) (msgp.AppendBytesHeader [] (len b) ++ b)
    {| rsqlib.Varbinary.Precision := rsqlib.Varbinary.Precision fv;
       rsqlib.Varbinary.Is_Null := false; rsqlib.Varbinary.Val := b |}
  /\ (rsqlib.Varchar.Fixlen fc = false ->
      decodes (rsqlib.Varchar.read_value fc) str
        {| rsqlib.Varchar.Precision := rsqlib.Varchar.Precision fc;
           rsqlib.Varchar.Fixlen := false;
           rsqlib.Varchar.Is_Null := false; rsqlib.Varchar.Val := b |})
  /\ decodes (rsqlib.Money.read_value fm) str
       {| rsqlib.Money.Precision := rsqlib.Money.Precision fm;
          rsqlib.Money.Scale := rsqlib.Money.Scale fm;
          rsqlib.Money.Is_Null := false; rsqlib.Money.Val := b |}
  /\ decodes (rsqlib.Numeric.read_value fn) str
       {| rsqlib.Numeric.Precision := rsqlib.Numeric.Precision fn;
          rsqlib.Numeric.Scale := rsqlib.Numeric.Scale fn;
          rsqlib.Numeric.Is_Null := false; rsqlib.Numeric.Val := b |}.
Proof.
  apply (byte_valued_columns [Byte.x68; Byte.x69]). vm_compute. discriminate.
Defined.

Lemma record_7_NULL_reads : Forall column_reads record_7_NULL.
Proof.
  repeat constructor.
  - apply column_reads_Int. unfold MinInt32, MaxInt32. lia.
  - unfold column_reads. cbn [fst snd rsqlib.read_value]. unfold rsqlib.fmap_M.
    apply (decodes_fmap _ rsqlib.F_Int). apply read_nullable_nil.
Qed.

Lemma Fill_row_with_values_decodes_witness :
  let row := map (fun c => c.1.1) record_7_NULL in
  let wire := msgp.AppendArrayHeader [] 2 ++ concat (map (fun c => c.1.2) record_7_NULL) in
  if len row =? 2 then
    exists s',
      rsqlib.Fill_row_with_values row {| msgp.br := wire ++ []; msgp.scratch := [] |}
      = (Ok tt, map snd record_7_NULL, {| msgp.br := []; msgp.scratch := s' |})
  else
    exists m',
      rsqlib.Fill_row_with_values row {| msgp.br := wire ++ []; msgp.scratch := [] |}
      = (Panic "assertion failed", row, m').
Proof.
  apply (Fill_row_with_values_decodes record_7_NULL 2 [] []).
  - exact record_7_NULL_reads.
  - unfold MaxUint32. lia.
Defined.

(** ** The message loop: what holds when it is left *)

(** *** Rules *)

Lemma wp_bind {A B} (c : drv.S_ A) (k : A -> drv.S_ B) Q E st :
  wp c (fun a st' => wp (k a) Q E st') E st -> wp (drv.bindS c k) Q E st.
Proof.
  unfold wp, drv.bindS. destruct (c st) as [[a|res|msg|] st']; trivial.
Qed.

Lemma wp_mono {A} (c : drv.S_ A) (Q Q' : A -> _ -> Prop) (E E' : bool -> _ -> Prop) st :
  (forall a st', Q a st' -> Q' a st') ->
  (forall res st', E res st' -> E' res st') ->
  wp c Q E st -> wp c Q' E' st.
Proof.
  unfold wp. intros HQ HE. destruct (c st) as [[a|res|msg|] st']; auto.
Qed.

Lemma wp_next {A} (a : A) Q E st : Q a st -> wp (drv.next a) Q E st.
Proof. trivial. Qed.

Lemma wp_exit {A} (res : bool) (Q : A -> _ -> Prop) E st :
  E res st -> wp (@drv.exit A res) Q E st.
Proof. trivial. Qed.

Lemma wp_crash {A} (msg : string) (Q : A -> _ -> Prop) E st : wp (@drv.crash A msg) Q E st.
Proof. exact I. Qed.

Lemma wp_get_batch Q E st : Q (fst st) st -> wp drv.get_batch Q E st.
Proof. trivial. Qed.

Lemma wp_modify_batch (f : drv.Batch -> drv.Batch) Q E st :
  Q tt (f (fst st), snd st) -> wp (drv.modify_batch f) Q E st.
Proof. trivial. Qed.

Lemma wp_modify_conn (f : drv.Connection -> drv.Connection) Q E st :
  Q tt (fst st, f (snd st)) -> wp (drv.modify_conn f) Q E st.
Proof. trivial. Qed.

Lemma wp_try_read {A} (c : msgp.M A) Q E st :
  (forall a r, Q a (fst st, conn_at r (snd st))) ->
  (forall e r, E false (drv.set_err (Some e) (fst st), conn_at r (snd st))) ->
  wp (drv.try_read c) Q E st.
Proof.
  intros HQ HE. destruct st as [b conn]. unfold wp, drv.try_read, rsqlib.with_mr.
  destruct (c (rsqlib.mr (drv.session conn))) as [[a|e|msg] r]; [apply HQ|apply HE|exact I].
Qed.

Lemma wp_try_fill (row : list rsqlib.IField)
    (keep : list rsqlib.IField -> drv.Batch -> drv.Batch) Q E st :
  (forall row' r, Q tt (keep row' (fst st), conn_at r (snd st))) ->
  (forall e row' r,
      E false (drv.set_err (Some e) (keep row' (fst st)), conn_at r (snd st))) ->
  wp (drv.try_fill row keep) Q E st.
Proof.
  intros HQ HE. destruct st as [b conn]. unfold wp, drv.try_fill.
  destruct (rsqlib.Fill_row_with_values row (rsqlib.mr (drv.session conn)))
    as [[[u|e|msg] row'] r]; [apply HQ|apply HE|exact I].
Qed.

Lemma wp_if {A} (t : bool) (c1 c2 : drv.S_ A) Q E st :
  (t = true -> wp c1 Q E st) -> (t = false -> wp c2 Q E st) ->
  wp (if t then c1 else c2) Q E st.
Proof. destruct t; auto. Qed.

(** Apply the rules along a step, down to the conditions on the states. *)
Ltac wp_step :=
  lazymatch goal with
  | |- wp (drv.bindS _ _) _ _ _ => apply wp_bind
  | |- wp (drv.try_read _) _ _ _ => apply wp_try_read; [intros ? ?|intros ? ?]
  | |- wp (drv.try_fill _ _) _ _ _ => apply wp_try_fill; [intros ? ?|intros ? ? ?]
  | |- wp (drv.modify_batch _) _ _ _ => apply wp_modify_batch
  | |- wp (drv.modify_conn _) _ _ _ => apply wp_modify_conn
  | |- wp drv.get_batch _ _ _ => apply wp_get_batch
  | |- wp (drv.next _) _ _ _ => apply wp_next
  | |- wp (drv.exit _) _ _ _ => apply wp_exit
  | |- wp (drv.crash _) _ _ _ => apply wp_crash
  | |- wp (if _ then _ else _) _ _ _ => apply wp_if; intros ?
  end.

Ltac wp_steps := repeat (cbv beta; wp_step).

Lemma keep_record_err (row' : list rsqlib.IField) (b : drv.Batch) :
  drv.err (drv.keep_record row' b) = drv.err b.
Proof. unfold drv.keep_record. destruct (drv.record b); reflexivity. Qed.

Lemma keep_record_text (row' : list rsqlib.IField) (b : drv.Batch) :
  drv.text (drv.keep_record row' b) = drv.text b.
Proof. unfold drv.keep_record. destruct (drv.record b); reflexivity. Qed.

Lemma step_iter_left (option : drv.stepOption) (st : drv.Batch * drv.Connection) :
  wp (drv.step_iter option) (fun _ _ => True) (left_with option) st.
Proof.
  unfold drv.step_iter. wp_steps; trivial;
    try (left; discriminate);
    try (destruct option; [split; reflexivity|discriminate]);
    try (destruct option; [right; right; split; reflexivity|discriminate]);
    try (right; left; split; reflexivity).
Qed.

Lemma step_loop_left (fuel : nat) (option : drv.stepOption) :
  forall st, wp (drv.step_loop fuel option) (fun _ _ => True) (left_with option) st.
Proof.
  induction fuel as [|fuel IH]; intros st; [exact I|].
  cbn [drv.step_loop]. apply wp_bind.
  eapply wp_mono; [| |apply step_iter_left]; [|trivial].
  intros _ st' _. apply IH.
Qed.

Lemma step_left (option : drv.stepOption) (st st' : drv.Batch * drv.Connection) (res : bool) :
  drv.step option st = (drv.Returned res, st') -> left_with option res st'.
Proof.
  unfold drv.step. destruct (drv.err (fst st)) as [e|] eqn:He.
  - intros [= <- <-]. left. now rewrite He.
  - pose proof (step_loop_left (S (drv.unread (snd st))) option st) as H.
    unfold wp in H.
    destruct (drv.step_loop (S (drv.unread (snd st))) option st) as [[u|r|msg|] st1];
      intros E; try discriminate E.
    injection E as <- <-. exact H.
Qed.

(** X19: what [Finalize] returning nil means. If [Finalize] returns without
    an error, the batch has ended; and if it had not ended before the call,
    the connection is no longer dirty, so that the next batch can be sent on
    it. *)
Theorem Finalize_nil_means_batch_end (st st' : drv.Batch * drv.Connection) :
  drv.Finalize st = (drv.Returned None, st') ->
  drv.err (fst st') = None
  /\ drv.status_ (fst st') = drv.sTATUS_BATCH_END
  /\ (drv.status_ (fst st) <> drv.sTATUS_BATCH_END -> drv.isDirty (snd st') = false).
Proof.
  unfold drv.Finalize. destruct (drv.err (fst st)) as [e|] eqn:He; [discriminate|].
  destruct (Z.eqb_spec (drv.status_ (fst st)) drv.sTATUS_BATCH_END) as [Hs|Hs]; simpl negb.
  - intros [= <-]. now repeat split.
  - destruct (drv.step drv.sTEP_FINALIZE st) as [[res|msg|] st1] eqn:Hstep;
      intros E; try discriminate E.
    injection E as Herr <-. apply step_left in Hstep.
    split; [exact Herr|].
    destruct res; [destruct Hstep as [Ho _]; discriminate Ho|].
    destruct Hstep as [Hne|[[Hend Hclean]|[Ho _]]].
    + contradiction.
    + now split.
    + discriminate Ho.
Qed.

Lemma Finalize_nil_means_batch_end_witness :
  let st := (batch_sent "insert", conn_with stream_S1) in
  let st' :=
    ({| drv.text := "insert"; drv.status_ := drv.sTATUS_BATCH_END; drv.recordsetCount := 0;
        drv.colnameList := None; drv.colnameMap := None; drv.record := None;
        drv.recordCount := 0; drv.execRecordCount := 3; drv.err := None; drv.rc := 0 |},
     drv.set_isDirty false
       (conn_at {| msgp.br := []; msgp.scratch := [Byte.x00] |} (conn_with stream_S1))) in
  drv.err (fst st') = None
  /\ drv.status_ (fst st') = drv.sTATUS_BATCH_END
  /\ (drv.status_ (fst st) <> drv.sTATUS_BATCH_END -> drv.isDirty (snd st') = false).
Proof.
  intros st st'. apply (Finalize_nil_means_batch_end st st'). reflexivity.
Defined.

(** X20: what the result of [Next] means. If [Next] returns true, a record
    is available. If it returns false, then an error is recorded in the
    batch, or the layout of a new recordset is available, or the batch has
    ended and the connection is no longer dirty: these are the only ways. *)
Theorem Next_result (st st' : drv.Batch * drv.Connection) (res : bool) :
  drv.Next_ st = (drv.Returned res, st') ->
  if res then drv.status_ (fst st') = drv.sTATUS_RECORD_AVAILABLE
  else
    drv.err (fst st') <> None
    \/ drv.ExistsNextRecordset (fst st') = true
    \/ (drv.status_ (fst st') = drv.sTATUS_BATCH_END /\ drv.isDirty (snd st') = false).
Proof.
  intros H. apply step_left in H. destruct res.
  - now destruct H.
  - destruct H as [H|[H|[_ H]]]; [now left|now right; right|].
    right. left. unfold drv.ExistsNextRecordset. now rewrite H.
Qed.

Lemma Next_result_witness :
  let st := (batch_sent "select", conn_with layout_abae) in
  let st' := snd (drv.Next_ st) in
  if false then drv.status_ (fst st') = drv.sTATUS_RECORD_AVAILABLE
  else
    drv.err (fst st') <> None
    \/ drv.ExistsNextRecordset (fst st') = true
    \/ (drv.status_ (fst st') = drv.sTATUS_BATCH_END /\ drv.isDirty (snd st') = false).
Proof.
  intros st st'. apply (Next_result st st' false). reflexivity.
Defined.

(** ** The message loop: what it leaves alone, and a failed batch *)

(** *** The frame of [step] *)

Lemma untouched_refl (st : drv.Batch * drv.Connection) : untouched st st.
Proof. unfold untouched. tauto. Qed.

Lemma untouched_trans (st1 st2 st3 : drv.Batch * drv.Connection) :
  untouched st1 st2 -> untouched st2 st3 -> untouched st1 st3.
Proof.
  unfold untouched. intros (T1 & A1 & B1 & C1 & D1 & E1) (T2 & A2 & B2 & C2 & D2 & E2).
  repeat split; try congruence; auto.
Qed.

Lemma keeps_bind {A B} (c : drv.S_ A) (k : A -> drv.S_ B) :
  keeps c -> (forall a, keeps (k a)) -> keeps (drv.bindS c k).
Proof.
  intros Hc Hk st. specialize (Hc st). unfold drv.bindS.
  destruct (c st) as [[a|res|msg|] st1]; simpl in Hc |- *; try exact Hc.
  eapply untouched_trans; [exact Hc|apply Hk].
Qed.

Lemma keeps_next {A} (a : A) : keeps (drv.next a).
Proof. intros st. apply untouched_refl. Qed.

Lemma keeps_exit {A} (res : bool) : keeps (@drv.exit A res).
Proof. intros st. apply untouched_refl. Qed.

Lemma keeps_crash {A} (msg : string) : keeps (@drv.crash A msg).
Proof. intros st. apply untouched_refl. Qed.

Lemma keeps_get_batch : keeps drv.get_batch.
Proof. intros st. apply untouched_refl. Qed.

Lemma keeps_if {A} (t : bool) (c1 c2 : drv.S_ A) :
  keeps c1 -> keeps c2 -> keeps (if t then c1 else c2).
Proof. now destruct t. Qed.

Lemma keeps_try_read {A} (c : msgp.M A) : keeps (drv.try_read c).
Proof.
  intros [b conn]. unfold drv.try_read, rsqlib.with_mr.
  destruct (c (rsqlib.mr (drv.session conn))) as [[a|e|msg] r]; simpl;
    unfold untouched; simpl; repeat split; auto; discriminate.
Qed.

Lemma keeps_try_fill (row : list rsqlib.IField)
    (keep : list rsqlib.IField -> drv.Batch -> drv.Batch) :
  (forall row' b, drv.text (keep row' b) = drv.text b) ->
  (forall row' b, drv.err (keep row' b) = drv.err b) ->
  keeps (drv.try_fill row keep).
Proof.
  intros Ht He [b conn]. unfold drv.try_fill.
  destruct (rsqlib.Fill_row_with_values row (rsqlib.mr (drv.session conn)))
    as [[[u|e|msg] row'] r]; simpl;
    unfold untouched; simpl; rewrite ?Ht, ?He; repeat split; auto; discriminate.
Qed.

(** A change of the batch that keeps its text and does not remove an
    error. *)
Lemma keeps_modify_batch (f : drv.Batch -> drv.Batch) :
  (forall b, drv.text (f b) = drv.text b) ->
  (forall b, drv.err b <> None -> drv.err (f b) <> None) ->
  keeps (drv.modify_batch f).
Proof.
  intros Ht He [b conn]. unfold drv.modify_batch, untouched. simpl.
  rewrite Ht. repeat split; auto.
Qed.

Lemma keeps_clear_isDirty : keeps (drv.modify_conn (drv.set_isDirty false)).
Proof.
  intros [b conn]. unfold drv.modify_conn, untouched. simpl.
  repeat split; auto; discriminate.
Qed.

Ltac keeps_steps :=
  repeat first
    [ apply keeps_bind; [|intros ?]
    | apply keeps_try_read
    | apply keeps_try_fill; [intros ? ?|intros ? ?]
    | apply keeps_modify_batch; [intros ?|intros ? ?]
    | apply keeps_clear_isDirty
    | apply keeps_get_batch
    | apply keeps_next
    | apply keeps_exit
    | apply keeps_crash
    | apply keeps_if ].

Lemma keeps_step_iter (option : drv.stepOption) : keeps (drv.step_iter option).
Proof.
  unfold drv.step_iter. keeps_steps;
    try reflexivity; try assumption; try discriminate;
    try apply keep_record_text; try apply keep_record_err.
Qed.

Lemma keeps_step_loop (fuel : nat) (option : drv.stepOption) :
  keeps (drv.step_loop fuel option).
Proof.
  induction fuel as [|fuel IH]; [intros st; apply untouched_refl|].
  cbn [drv.step_loop]. apply keeps_bind; [apply keeps_step_iter|intros _; exact IH].
Qed.

Lemma step_keeps (option : drv.stepOption) (st : drv.Batch * drv.Connection) :
  untouched st (snd (drv.step option st)).
Proof.
  unfold drv.step. destruct (drv.err (fst st)); [apply untouched_refl|].
  pose proof (keeps_step_loop (S (drv.unread (snd st))) option st) as H.
  destruct (drv.step_loop (S (drv.unread (snd st))) option st) as [[u|r|msg|] st1];
    exact H.
Qed.

(** X21: the frame of the message loop. Whatever the server sends and
    however the call ends (result, error or panic), [step], and with it
    [Next] and [Finalize], never changes the text of the batch or the
    resources of the session, never marks the connection dirty, and never
    removes an error that is recorded in the batch. *)
Theorem step_frame (option : drv.stepOption) (st : drv.Batch * drv.Connection) :
  untouched st (snd (drv.step option st))
  /\ untouched st (snd (drv.Next_ st))
  /\ untouched st (snd (drv.Finalize st)).
Proof.
  split; [apply step_keeps|]. split; [apply step_keeps|].
  unfold drv.Finalize. destruct (drv.err (fst st)); [apply untouched_refl|].
  destruct (negb _); [|apply untouched_refl].
  pose proof (step_keeps drv.sTEP_FINALIZE st) as H.
  destruct (drv.step drv.sTEP_FINALIZE st) as [[res|msg|] st1]; exact H.
Qed.

(** *** Running the loop on a known stream *)

Lemma reader_of_conn_at (r : msgp.Reader) (conn : drv.Connection) :
  reader_of (conn_at r conn) = r.
Proof. reflexivity. Qed.

Lemma conn_at_conn_at (r1 r2 : msgp.Reader) (conn : drv.Connection) :
  conn_at r2 (conn_at r1 conn) = conn_at r2 conn.
Proof. reflexivity. Qed.

Lemma try_read_decodes {A} (c : msgp.M A) (wire rest s : list byte) (a : A)
    (b : drv.Batch) (conn : drv.Connection) :
  decodes c wire a ->
  reader_of conn = {| msgp.br := wire ++ rest; msgp.scratch := s |} ->
  exists s',
    drv.try_read c (b, conn)
    = (drv.Next a, (b, conn_at {| msgp.br := rest; msgp.scratch := s' |} conn)).
Proof.
  intros Hd Hr. destruct (Hd rest s) as [s' Hc]. exists s'.
  apply try_read_Ok. now rewrite Hr.
Qed.

Lemma decodes_Read_response_type (resp : rsqlib.Response_t) :
  0 <= resp <= MaxUint8 ->
  decodes rsqlib.Read_response_type (msgp.AppendUint8 [] resp) resp.
Proof. apply decodes_ReadUint8. Qed.

Lemma decodes_Read_Error_info (fields : list error_field) :
  Forall field_fits fields ->
  len fields <= MaxUint32 ->
  decodes rsqlib.Read_Error_info (wire_error_map fields)
    (fold_left store_field fields rsqlib.Error_info_zero).
Proof.
  intros Hfit Hlen rest s. pose proof (len_nonneg fields) as H0.
  unfold wire_error_map. rewrite <- app_assoc.
  destruct (ReadMapHeader_AppendMapHeader (len fields)
              (concat (map wire_field fields) ++ rest) s ltac:(lia)) as [s1 Hh].
  destruct (read_error_entries_known fields Hfit rsqlib.Error_info_zero rest s1)
    as [s2 Hr].
  exists s2. unfold rsqlib.Read_Error_info, msgp.bind. rewrite Hh.
  unfold len. rewrite Nat2Z.id. exact Hr.
Qed.

Lemma step_iter_ERROR (option : drv.stepOption) (b : drv.Batch) (conn : drv.Connection)
    (fields : list error_field) (rest s : list byte) :
  Forall field_fits fields ->
  len fields <= MaxUint32 ->
  reader_of conn
  = {| msgp.br := (msgp.AppendUint8 [] rsqlib.RESTYP_ERROR ++ wire_error_map fields) ++ rest;
       msgp.scratch := s |} ->
  exists s',
    drv.step_iter option (b, conn)
    = (drv.Next tt,
       (drv.set_err
          (Some (batch_error
                   (drv.newBatchError (fold_left store_field fields rsqlib.Error_info_zero))))
          b,
        conn_at {| msgp.br := rest; msgp.scratch := s' |} conn)).
Proof.
  intros Hfit Hlen Hr. rewrite <- app_assoc in Hr.
  destruct (try_read_decodes rsqlib.Read_response_type _ _ _ _ b conn
              (decodes_Read_response_type rsqlib.RESTYP_ERROR ltac:(vm_compute; split; discriminate))
              Hr) as [s1 H1].
  destruct (try_read_decodes rsqlib.Read_Error_info _ rest s1 _ b
              (conn_at {| msgp.br := wire_error_map fields ++ rest; msgp.scratch := s1 |} conn)
              (decodes_Read_Error_info fields Hfit Hlen) eq_refl) as [s2 H2].
  exists s2. unfold drv.step_iter. unfold drv.bindS at 1. rewrite H1.
  change (rsqlib.RESTYP_ERROR =? rsqlib.RESTYP_RECORD_LAYOUT) with false.
  change (rsqlib.RESTYP_ERROR =? rsqlib.RESTYP_RECORD) with false.
  change (rsqlib.RESTYP_ERROR =? rsqlib.RESTYP_RECORD_FINISHED) with false.
  change (rsqlib.RESTYP_ERROR =? rsqlib.RESTYP_EXECUTION_FINISHED) with false.
  change (rsqlib.RESTYP_ERROR =? rsqlib.RESTYP_PRINT) with false.
  change (rsqlib.RESTYP_ERROR =? rsqlib.RESTYP_MESSAGE) with false.
  change (rsqlib.RESTYP_ERROR =? rsqlib.RESTYP_ERROR) with true.
  cbv iota. unfold drv.bindS at 1. rewrite H2. reflexivity.
Qed.

Lemma step_iter_BATCH_END (option : drv.stepOption) (b : drv.Batch) (conn : drv.Connection)
    (rc : Z) (rest s : list byte) :
  MinInt64 <= rc <= MaxInt64 ->
  reader_of conn
  = {| msgp.br := (msgp.AppendUint8 [] rsqlib.RESTYP_BATCH_END ++ msgp.AppendInt64 [] rc)
                    ++ rest;
       msgp.scratch := s |} ->
  exists s',
    drv.step_iter option (b, conn)
    = (drv.Exit false,
       (drv.set_status drv.sTATUS_BATCH_END (drv.set_rc rc b),
        drv.set_isDirty false (conn_at {| msgp.br := rest; msgp.scratch := s' |} conn))).
Proof.
  intros Hrc Hr. rewrite <- app_assoc in Hr.
  destruct (try_read_decodes rsqlib.Read_response_type _ _ _ _ b conn
              (decodes_Read_response_type rsqlib.RESTYP_BATCH_END
                 ltac:(vm_compute; split; discriminate))
              Hr) as [s1 H1].
  destruct (try_read_decodes rsqlib.Read_batch_end_RC _ rest s1 _ b
              (conn_at {| msgp.br := msgp.AppendInt64 [] rc ++ rest; msgp.scratch := s1 |} conn)
              (decodes_ReadInt64 rc Hrc) eq_refl) as [s2 H2].
  exists s2. unfold drv.step_iter. unfold drv.bindS at 1. rewrite H1.
  change (rsqlib.RESTYP_BATCH_END =? rsqlib.RESTYP_RECORD_LAYOUT) with false.
  change (rsqlib.RESTYP_BATCH_END =? rsqlib.RESTYP_RECORD) with false.
  change (rsqlib.RESTYP_BATCH_END =? rsqlib.RESTYP_RECORD_FINISHED) with false.
  change (rsqlib.RESTYP_BATCH_END =? rsqlib.RESTYP_EXECUTION_FINISHED) with false.
  change (rsqlib.RESTYP_BATCH_END =? rsqlib.RESTYP_PRINT) with false.
  change (rsqlib.RESTYP_BATCH_END =? rsqlib.RESTYP_MESSAGE) with false.
  change (rsqlib.RESTYP_BATCH_END =? rsqlib.RESTYP_ERROR) with false.
  change (rsqlib.RESTYP_BATCH_END =? rsqlib.RESTYP_BATCH_END) with true.
  cbv iota. unfold drv.bindS at 1. rewrite H2. reflexivity.
Qed.

Lemma step_failed_batch (option : drv.stepOption) (b : drv.Batch) (conn : drv.Connection)
    (fields : list error_field) (rc : Z) (rest s : list byte) :
  Forall field_fits fields ->
  len fields <= MaxUint32 ->
  MinInt64 <= rc <= MaxInt64 ->
  drv.err b = None ->
  reader_of conn
  = {| msgp.br := failed_batch_stream fields rc ++ rest; msgp.scratch := s |} ->
  exists s',
    drv.step option (b, conn)
    = (drv.Returned false,
       (failed_batch fields rc b,
        drv.set_isDirty false (conn_at {| msgp.br := rest; msgp.scratch := s' |} conn))).
Proof.
  intros Hfit Hlen Hrc Herr Hr.
  unfold failed_batch_stream in Hr.
  rewrite (app_assoc (msgp.AppendUint8 [] rsqlib.RESTYP_ERROR)) in Hr.
  rewrite <- (app_assoc _ _ rest) in Hr.
  destruct (step_iter_ERROR option b conn fields _ s Hfit Hlen Hr) as [s1 H1].
  destruct (step_iter_BATCH_END option
              (drv.set_err
                 (Some (batch_error
                          (drv.newBatchError
                             (fold_left store_field fields rsqlib.Error_info_zero)))) b)
              (conn_at {| msgp.br := (msgp.AppendUint8 [] rsqlib.RESTYP_BATCH_END
                                        ++ msgp.AppendInt64 [] rc) ++ rest;
                          msgp.scratch := s1 |} conn)
              rc rest s1 Hrc eq_refl) as [s2 H2].
  exists s2. unfold drv.step. cbn [fst snd]. rewrite Herr.
  assert (Hfuel : exists n, drv.unread conn = S n).
  { unfold drv.unread. change (rsqlib.mr (drv.session conn)) with (reader_of conn).
    rewrite Hr. simpl. eauto. }
  destruct Hfuel as [n ->].
  cbn [drv.step_loop]. unfold drv.bindS at 1. rewrite H1.
  unfold drv.bindS at 1. rewrite H2. reflexivity.
Qed.

(** X22: a batch that fails on the server. When the server answers with an
    error message and then the end of the batch, one call of [step] reads
    both: it returns false, the batch holds the error of the server as a
    [BatchError] with the fields of the message, its status is BatchEnd and
    its return code the one sent, everything else in the batch is as before,
    nothing of what follows on the connection is read, and the connection is
    no longer dirty: it can be used for the next batch. [Finalize] then
    returns that error. *)
Theorem server_error_then_batch_end
    (option : drv.stepOption) (b : drv.Batch) (conn : drv.Connection)
    (fields : list error_field) (rc : Z) (rest s : list byte) :
  Forall field_fits fields ->
  len fields <= MaxUint32 ->
  MinInt64 <= rc <= MaxInt64 ->
  drv.err b = None ->
  reader_of conn
  = {| msgp.br := failed_batch_stream fields rc ++ rest; msgp.scratch := s |} ->
  exists s',
    let st' := (failed_batch fields rc b,
                drv.set_isDirty false
                  (conn_at {| msgp.br := rest; msgp.scratch := s' |} conn)) in
    drv.step option (b, conn) = (drv.Returned false, st')
    /\ drv.Finalize st' = (drv.Returned (drv.err (failed_batch fields rc b)), st').
Proof.
  intros Hfit Hlen Hrc Herr Hr.
  destruct (step_failed_batch option b conn fields rc rest s Hfit Hlen Hrc Herr Hr)
    as [s' Hstep].
  exists s'. split; [exact Hstep|reflexivity].
Qed.

Lemma server_error_then_batch_end_witness :
  exists s',
    let st' := (failed_batch divide_by_zero 1 (batch_sent "select 1/0"),
                drv.set_isDirty false
                  (conn_at {| msgp.br := [Byte.x04]; msgp.scratch := s' |}
                     (conn_with (failed_batch_stream divide_by_zero 1 ++ [Byte.x04])))) in
    drv.step drv.sTEP_NEXT_RECORD
      (batch_sent "select 1/0",
       conn_with (failed_batch_stream divide_by_zero 1 ++ [Byte.x04]))
    = (drv.Returned false, st')
    /\ drv.Finalize st'
       = (drv.Returned (drv.err (failed_batch divide_by_zero 1 (batch_sent "select 1/0"))),
          st').
Proof.
  apply (server_error_then_batch_end drv.sTEP_NEXT_RECORD (batch_sent "select 1/0")
           (conn_with (failed_batch_stream divide_by_zero 1 ++ [Byte.x04]))
           divide_by_zero 1 [Byte.x04] []).
  - repeat constructor; vm_compute; discriminate.
  - vm_compute. discriminate.
  - vm_compute. split; discriminate.
  - reflexivity.
  - reflexivity.
Defined.

(** ** The record: getters and Scan *)

(** *** Getters *)

Lemma field_at_column (b : drv.Batch) (i : Z) (field : rsqlib.IField) :
  column b i field -> drv.field_at b i = Ok field.
Proof.
  intros [Hi Hf]. unfold drv.field_at. rewrite Hf.
  destruct (Z.ltb_spec i 0); [lia|reflexivity].
Qed.

Lemma field_at_cases (b : drv.Batch) (i : Z) :
  (exists field, column b i field /\ drv.field_at b i = Ok field)
  \/ ((forall field, ~ column b i field)
      /\ drv.field_at b i = Panic "index out of range").
Proof.
  unfold drv.field_at, column. destruct (Z.ltb_spec i 0) as [Hi|Hi].
  { right. split; [intros field [H _]; lia|reflexivity]. }
  destruct (drv.record_fields b !! Z.to_nat i) as [field|] eqn:Hf.
  - left. exists field. auto.
  - right. split; [intros field [_ H]; discriminate H|reflexivity].
Qed.

Lemma column_unique (b : drv.Batch) (i : Z) (f1 f2 : rsqlib.IField) :
  column b i f1 -> column b i f2 -> f1 = f2.
Proof. intros [_ H1] [_ H2]. congruence. Qed.

(** The getter [get] is a switch on the field of column [i]. *)
Lemma accepts_with_field {A} (k : rsqlib.IField -> result A) (b : drv.Batch) (i : Z)
    (types : list rsqlib.Dtype_t) :
  (forall field,
      returns (k field)
      <-> (rsqlib.IsNull field = true \/ In (rsqlib.Datatype field) types)) ->
  accepts (drv.with_field b i k) b i types.
Proof.
  intros Hk. unfold accepts, drv.with_field.
  destruct (field_at_cases b i) as [(field & Hc & ->)|[Hno ->]].
  - rewrite Hk. split.
    + intros H. exists field. auto.
    + intros (field' & Hc' & H). now rewrite (column_unique b i field field').
  - split.
    + intros [v Hv]. discriminate Hv.
    + intros (field & Hc & _). now apply Hno in Hc.
Qed.

Ltac in_types :=
  vm_compute; repeat first [left; reflexivity | right].

Ltac not_in_types H :=
  vm_compute in H; repeat (destruct H as [H|H]; [discriminate H|]); contradiction.

(** Settle a getter case by case on the field. *)
Ltac switch_returns :=
  let field := fresh "field" in
  let Hnull := fresh "Hnull" in
  intros field; unfold returns; cbv beta;
  destruct (rsqlib.IsNull field) eqn:Hnull;
  [ split; [intros _; left; reflexivity|intros _; eexists; reflexivity]
  | destruct field; cbv beta iota;
    (split;
     [ intros [v Hv]; first [discriminate Hv | right; in_types]
     | intros [Hn|Hin];
       [ discriminate Hn
       | first [ eexists; reflexivity
               | destruct (drv.strconv_ParseBool _); eexists; reflexivity
               | not_in_types Hin ] ] ]) ].

(** A getter that returns for a field of every type. *)
Lemma returns_with_field {A} (k : rsqlib.IField -> result A) (b : drv.Batch) (i : Z) :
  (forall field, returns (k field)) ->
  returns (drv.with_field b i k) <-> exists field, column b i field.
Proof.
  intros Hk. unfold drv.with_field.
  destruct (field_at_cases b i) as [(field & Hc & ->)|[Hno ->]].
  - split; [intros _; now exists field|intros _; apply Hk].
  - split.
    + intros [v Hv]. discriminate Hv.
    + intros (field & Hc). now apply Hno in Hc.
Qed.

Lemma ColBool_accepts (b : drv.Batch) (i : Z) :
  accepts (drv.ColBool b i) b i
    (rsqlib.DTYPE_VARCHAR :: rsqlib.DTYPE_FLOAT :: integer_types).
Proof. apply accepts_with_field. switch_returns. Qed.

Lemma ColBinary_accepts (b : drv.Batch) (i : Z) :
  accepts (drv.ColBinary b i) b i [rsqlib.DTYPE_VARBINARY].
Proof. apply accepts_with_field. switch_returns. Qed.

Lemma ColInt64_accepts (b : drv.Batch) (i : Z) :
  accepts (drv.ColInt64 b i) b i integer_types.
Proof. apply accepts_with_field. switch_returns. Qed.

Lemma ColFloat64_accepts (b : drv.Batch) (i : Z) :
  accepts (drv.ColFloat64 b i) b i [rsqlib.DTYPE_FLOAT].
Proof. apply accepts_with_field. switch_returns. Qed.

Lemma ColDatetimeUTC_accepts (b : drv.Batch) (i : Z) :
  accepts (drv.ColDatetimeUTC b i) b i
    [rsqlib.DTYPE_DATE; rsqlib.DTYPE_TIME; rsqlib.DTYPE_DATETIME].
Proof. apply accepts_with_field. switch_returns. Qed.

Lemma ColIsNull_returns (b : drv.Batch) (i : Z) :
  returns (drv.ColIsNull b i) <-> exists field, column b i field.
Proof. apply returns_with_field. intros field. eexists. reflexivity. Qed.

(** The constant of bit [n]: [ColDatatype] returns it and [String] names
    it. *)
Ltac datatype_bit n :=
  exists n; split; [lia|split; [reflexivity|eexists; reflexivity]].

(** The datatypes of the fields and the constants [ColDatatype] gives for
    them. *)
Lemma ColDatatype_field (b : drv.Batch) (i : Z) (field : rsqlib.IField) :
  column b i field ->
  (rsqlib.Datatype field <> rsqlib.DTYPE_BOOLEAN ->
   exists n, 0 <= n <= 13
             /\ drv.ColDatatype b i = Ok (2 ^ n)
             /\ returns (drv.Datatype_String (2 ^ n)))
  /\ (rsqlib.Datatype field = rsqlib.DTYPE_BOOLEAN ->
      drv.ColDatatype b i = Panic "unknown datatype in field %d.").
Proof.
  intros Hc. unfold drv.ColDatatype, drv.with_field, returns.
  rewrite (field_at_column b i field Hc).
  destruct field; (split; [intros Hne|intros He]);
    try (exfalso; apply Hne; reflexivity); try discriminate He; try reflexivity.
  - datatype_bit 0.
  - datatype_bit 1.
  - datatype_bit 2.
  - datatype_bit 3.
  - datatype_bit 4.
  - datatype_bit 5.
  - datatype_bit 6.
  - datatype_bit 7.
  - datatype_bit 8.
  - datatype_bit 9.
  - datatype_bit 10.
  - datatype_bit 11.
  - datatype_bit 12.
  - datatype_bit 13.
Qed.

Section Getters.
Context `{GoRuntime}.

Lemma ColString_returns (b : drv.Batch) (i : Z) :
  returns (drv.ColString b i) <-> exists field, column b i field.
Proof.
  apply returns_with_field. intros field. unfold returns.
  destruct (rsqlib.IsNull field); [eexists; reflexivity|].
  destruct field; eexists; reflexivity.
Qed.

Lemma ColNumeric_accepts (b : drv.Batch) (i : Z) :
  accepts (drv.ColNumeric b i) b i
    (rsqlib.DTYPE_MONEY :: rsqlib.DTYPE_NUMERIC :: integer_types).
Proof. apply accepts_with_field. switch_returns. Qed.

Lemma ColDatetime_accepts (b : drv.Batch) (i : Z) :
  accepts (drv.ColDatetime b i) b i
    [rsqlib.DTYPE_DATE; rsqlib.DTYPE_TIME; rsqlib.DTYPE_DATETIME].
Proof.
  unfold accepts, drv.ColDatetime, drv.ColDatetimeUTC, drv.with_field.
  destruct (field_at_cases b i) as [(field & Hc & ->)|[Hno ->]].
  - assert (Hfield :
      returns
        (if rsqlib.IsNull field then Ok (time.zero, true)
         else match field with
              | rsqlib.F_Time f => Ok (rsqlib.Time.Val f, false)
              | _ =>
                  match
                    (if rsqlib.IsNull field then Ok (time.zero, true)
                     else match field with
                          | rsqlib.F_Date f => Ok (rsqlib.Date.Val f, false)
                          | rsqlib.F_Time f => Ok (rsqlib.Time.Val f, false)
                          | rsqlib.F_Datetime f => Ok (rsqlib.Datetime.Val f, false)
                          | _ => Panic "record field is not a date, time or datetime datatype."
                          end)
                  with
                  | Ok (valUTC, isnull) =>
                      if isnull then Panic "impossible: DATE or DATETIME is NULL."
                      else Ok (drv.LocalizeTime valUTC, isnull)
                  | Err e => Err e
                  | Panic msg => Panic msg
                  end
              end)
      <-> (rsqlib.IsNull field = true
           \/ In (rsqlib.Datatype field)
                [rsqlib.DTYPE_DATE; rsqlib.DTYPE_TIME; rsqlib.DTYPE_DATETIME])).
    { unfold returns. destruct (rsqlib.IsNull field) eqn:Hnull.
      - split; [intros _; left; reflexivity|intros _; eexists; reflexivity].
      - destruct field; cbv beta iota;
          (split;
           [ intros [v Hv]; first [discriminate Hv | right; in_types]
           | intros [Hn|Hin];
             [ discriminate Hn
             | first [eexists; reflexivity | not_in_types Hin] ] ]). }
    rewrite Hfield. split.
    + intros Hf. exists field. auto.
    + intros (field' & Hc' & Hf). now rewrite (column_unique b i field field').
  - split.
    + intros [v Hv]. discriminate Hv.
    + intros (field & Hc & _). now apply Hno in Hc.
Qed.

(** X23: which columns each getter can be called on. A getter returns (it
    does not panic) exactly when the record has a column [i], and the column
    is NULL or of a datatype the getter converts: integers for [ColInt64]
    and [ColInt]; integers, MONEY and NUMERIC for [ColNumeric]; integers,
    VARCHAR and FLOAT for [ColBool]; VARBINARY for [ColBinary]; FLOAT for
    [ColFloat64]; DATE, TIME and DATETIME for [ColDatetimeUTC] and
    [ColDatetime]. [ColString] and [ColIsNull] return for a column of any
    type. In particular a NULL column can be read through every getter,
    and without a current record every getter panics. *)
Theorem getters_accept (b : drv.Batch) (i : Z) :
  accepts (drv.ColInt64 b i) b i integer_types
  /\ accepts (drv.ColInt b i) b i integer_types
  /\ accepts (drv.ColNumeric b i) b i
       (rsqlib.DTYPE_MONEY :: rsqlib.DTYPE_NUMERIC :: integer_types)
  /\ accepts (drv.ColBool b i) b i
       (rsqlib.DTYPE_VARCHAR :: rsqlib.DTYPE_FLOAT :: integer_types)
  /\ accepts (drv.ColBinary b i) b i [rsqlib.DTYPE_VARBINARY]
  /\ accepts (drv.ColFloat64 b i) b i [rsqlib.DTYPE_FLOAT]
  /\ accepts (drv.ColDatetimeUTC b i) b i
       [rsqlib.DTYPE_DATE; rsqlib.DTYPE_TIME; rsqlib.DTYPE_DATETIME]
  /\ accepts (drv.ColDatetime b i) b i
       [rsqlib.DTYPE_DATE; rsqlib.DTYPE_TIME; rsqlib.DTYPE_DATETIME]
  /\ (returns (drv.ColString b i) <-> exists field, column b i field)
  /\ (returns (drv.ColIsNull b i) <-> exists field, column b i field)
  /\ (drv.record b = None -> forall field, ~ column b i field).
Proof.
  split; [apply ColInt64_accepts|]. split; [apply ColInt64_accepts|].
  split; [apply ColNumeric_accepts|]. split; [apply ColBool_accepts|].
  split; [apply ColBinary_accepts|]. split; [apply ColFloat64_accepts|].
  split; [apply ColDatetimeUTC_accepts|]. split; [apply ColDatetime_accepts|].
  split; [apply ColString_returns|]. split; [apply ColIsNull_returns|].
  intros Hrec field [_ Hf]. unfold drv.record_fields in Hf. rewrite Hrec in Hf.
  discriminate Hf.
Qed.

End Getters.

(** X24: the datatype of a column. [ColDatatype] returns for every column
    but one of type BOOLEAN, for which its switch has no case: there it
    panics, as it does when there is no column [i]. What it returns is one
    of the fourteen constants, a single bit 2^n with n from 0 to 13, and
    [String] has a name for it. *)
Theorem ColDatatype_cases (b : drv.Batch) (i : Z) :
  (returns (drv.ColDatatype b i)
   <-> exists field,
         column b i field /\ rsqlib.Datatype field <> rsqlib.DTYPE_BOOLEAN)
  /\ (forall dt,
        drv.ColDatatype b i = Ok dt ->
        (exists n, 0 <= n <= 13 /\ dt = 2 ^ n) /\ returns (drv.Datatype_String dt)).
Proof.
  assert (Hd : forall field, rsqlib.Datatype field = rsqlib.DTYPE_BOOLEAN
                             \/ rsqlib.Datatype field <> rsqlib.DTYPE_BOOLEAN).
  { intros field. destruct field; first [left; reflexivity|right; discriminate]. }
  destruct (field_at_cases b i) as [(field & Hc & Hf)|[Hno Hf]].
  - destruct (ColDatatype_field b i field Hc) as [Hok Hpanic]. split.
    + split.
      * intros [dt Hdt]. exists field. split; [exact Hc|].
        intros Hb. rewrite (Hpanic Hb) in Hdt. discriminate Hdt.
      * intros (field' & Hc' & Hne).
        rewrite <- (column_unique b i field field' Hc Hc') in Hne.
        destruct (Hok Hne) as (n & _ & -> & _). now eexists.
    + intros dt Hdt. destruct (Hd field) as [Hb|Hne].
      * rewrite (Hpanic Hb) in Hdt. discriminate Hdt.
      * destruct (Hok Hne) as (n & Hn & Hn' & Hname). rewrite Hn' in Hdt.
        injection Hdt as <-. split; [now exists n|exact Hname].
  - assert (Hp : drv.ColDatatype b i = Panic "index out of range").
    { unfold drv.ColDatatype, drv.with_field. now rewrite Hf. }
    split.
    + split.
      * intros [dt Hdt]. rewrite Hp in Hdt. discriminate Hdt.
      * intros (field & Hc & _). now apply Hno in Hc.
    + intros dt Hdt. rewrite Hp in Hdt. discriminate Hdt.
Qed.

(** *** Scan *)

Section ScanValues.
Context `{GoRuntime}.



Lemma scan_value_NULL (b : drv.Batch) (i : Z) (field : rsqlib.IField) (k : drv.dest_kind) :
  column b i field ->
  rsqlib.IsNull field = true ->
  drv.scan_value b i k = Ok (zero_value k).
Proof.
  intros Hc Hnull. pose proof (field_at_column b i field Hc) as Hf.
  destruct k; cbn [drv.scan_value zero_value];
    unfold drv.scan_int, drv.ColBool, drv.ColBinary, drv.ColString, drv.ColInt, drv.ColInt64,
      drv.ColFloat64, drv.ColDatetime, drv.with_field;
    rewrite Hf, Hnull; reflexivity.
Qed.


Lemma scan_loop_NULL (b : drv.Batch) (ps : list (drv.dest_kind * nat)) :
  forall (i : Z) (h : gmap nat drv.value),
    (forall j : nat,
        (j < length ps)%nat ->
        exists field, column b (i + Z.of_nat j) field /\ rsqlib.IsNull field = true) ->
    drv.scan_loop b i (pointers ps) h
    = (Ok tt, fold_left assign (map (fun p => (p.2, zero_value p.1)) ps) h).
Proof.
  induction ps as [|[k addr] ps IH]; intros i h Hcols; [reflexivity|].
  cbn [pointers map drv.scan_loop drv.scan_column fst snd].
  destruct (Hcols 0%nat ltac:(simpl; lia)) as (field & Hc & Hnull).
  rewrite Z.add_0_r in Hc. rewrite (scan_value_NULL b i field k Hc Hnull).
  cbn [fold_left]. apply IH. intros j Hj.
  destruct (Hcols (S j) ltac:(simpl; lia)) as (field' & Hc' & Hnull').
  exists field'. split; [|exact Hnull'].
  replace (i + 1 + Z.of_nat j) with (i + Z.of_nat (S j)) by lia. exact Hc'.
Qed.

End ScanValues.


(** X26: NULL is scanned as a zero value. On a record all of whose columns
    are NULL, [Scan] with pointers of any supported types, one for each
    column, returns nil and assigns to each the zero value of its type,
    whatever the datatype of the column is: no error tells NULL from zero,
    and no type is checked. *)
Theorem Scan_NULL_record `{GoRuntime}
    (b : drv.Batch) (ps : list (drv.dest_kind * nat)) (h : gmap nat drv.value) :
  drv.err b = None ->
  drv.status_ b = drv.sTATUS_RECORD_AVAILABLE ->
  Forall (fun field => rsqlib.IsNull field = true) (drv.record_fields b) ->
  length ps = length (drv.record_fields b) ->
  drv.Scan b (pointers ps) h
  = (Ok tt, fold_left assign (map (fun p => (p.2, zero_value p.1)) ps) h).
Proof.
  intros Herr Hst Hnull Hlen. unfold drv.Scan. rewrite Herr, Hst.
  change (drv.sTATUS_RECORD_AVAILABLE =? drv.sTATUS_RECORD_AVAILABLE) with true.
  cbv iota beta. simpl negb. cbv iota.
  assert (Hcount : len (pointers ps) = drv.ColCount b).
  { unfold drv.ColCount, len, pointers. now rewrite length_map, Hlen. }
  rewrite Hcount, Z.eqb_refl. simpl negb. cbv iota.
  apply scan_loop_NULL. intros j Hj. rewrite Z.add_0_l.
  destruct (drv.record_fields b !! j) as [field|] eqn:Hf.
  - exists field. split.
    + split; [lia|]. now rewrite Nat2Z.id.
    + exact (Forall_lookup_1 _ _ _ _ Hnull Hf).
  - apply lookup_ge_None in Hf. lia.
Qed.


Lemma Scan_NULL_record_witness :
  @drv.Scan sample_runtime batch_NULL_row
    (pointers [(drv.K_int8, 0%nat); (drv.K_Time, 1%nat)]) ∅
  = (Ok tt,
     fold_left assign
       (map (fun p => (p.2, zero_value p.1)) [(drv.K_int8, 0%nat); (drv.K_Time, 1%nat)]) ∅).
Proof.
  apply (@Scan_NULL_record sample_runtime batch_NULL_row
           [(drv.K_int8, 0%nat); (drv.K_Time, 1%nat)] ∅).
  - reflexivity.
  - reflexivity.
  - repeat constructor.
  - reflexivity.
Defined.
